(** * Employee manager: validators, record store and CSV persistence

    A shallow embedding of [employee_manager.py] (the "Final Python
    Project") and of the parts of the Python runtime it calls
    ([str.strip], [float], [repr] of a float, [re.fullmatch], the [csv]
    reader and writer), followed by the properties of the specification.

    Conventions of the embedding.
    - A Python [str] is a [string]; its characters are the code points
      0..255.  The source never leaves that range on such input, except
      through [str.upper], which is given code points as numbers.
    - A Python [float] is a [spec_float] of the IEEE binary64 format.
    - [self._employees] is an insertion-ordered association list.
    - [input()] reads from a list of operator lines; reading past its end
      is the [EOFError] that terminates the program.
    - [print] appends an event to the output of the world.
    - The backing file is its text, if it exists, with whether it can be
      opened for reading and for writing; the encoding of the platform
      stores every character of a text and gives it back. *)

From Stdlib Require Import String Ascii List ZArith Lia Bool Arith.
From Stdlib Require Import Permutation SpecFloat.
Import ListNotations.

Local Open Scope list_scope.
Local Open Scope string_scope.
Local Open Scope nat_scope.

(** ** Python strings *)

Module Str.

Definition code (c : ascii) : nat := nat_of_ascii c.

(** [str.isspace] on one character, for the code points below 256:
    TAB..CR, FS..US, SPACE, NEL and NBSP. *)
Definition isspace (c : ascii) : bool :=
  let n := code c in
  ((9 <=? n) && (n <=? 13)) || ((28 <=? n) && (n <=? 32))
  || (n =? 133) || (n =? 160).

Fixpoint lstrip_with (p : ascii -> bool) (s : string) : string :=
  match s with
  | String c s' => if p c then lstrip_with p s' else s
  | EmptyString => EmptyString
  end.

Fixpoint rstrip_with (p : ascii -> bool) (s : string) : string :=
  match s with
  | EmptyString => EmptyString
  | String c s' =>
      match rstrip_with p s' with
      | EmptyString => if p c then EmptyString else String c EmptyString
      | r => String c r
      end
  end.

Definition strip_with (p : ascii -> bool) (s : string) : string :=
  rstrip_with p (lstrip_with p s).

(** [s.strip()] *)
Definition strip (s : string) : string := strip_with isspace s.

(** Truth value of a string: [not s] is [negb (truthy s)]. *)
Definition truthy (s : string) : bool :=
  match s with EmptyString => false | _ => true end.

(** [not s or not s.strip()], the emptiness test of every validator. *)
Definition blank (s : string) : bool :=
  negb (truthy s) || negb (truthy (strip s)).

(** [c in s] for a character. *)
Fixpoint mem (c : ascii) (s : string) : bool :=
  match s with
  | EmptyString => false
  | String c' s' => Ascii.eqb c c' || mem c s'
  end.

Fixpoint forallb (p : ascii -> bool) (s : string) : bool :=
  match s with
  | EmptyString => true
  | String c s' => p c && forallb p s'
  end.

(** [c * n] for a one-character string. *)
Fixpoint replicate (n : nat) (c : ascii) : string :=
  match n with
  | O => EmptyString
  | S n' => String c (replicate n' c)
  end.

(** [x in xs] for a list of strings. *)
Definition inb (x : string) (xs : list string) : bool :=
  existsb (String.eqb x) xs.

(** [str.upper] of one character, as the code points of the result:
    ASCII and Latin-1 small letters lose 32, sharp s becomes "SS", and
    micro sign and y-diaeresis leave the Latin-1 range. *)
Definition upper_char (c : ascii) : list nat :=
  let n := code c in
  if ((97 <=? n) && (n <=? 122)) then [n - 32]
  else if n =? 181 then [924]
  else if n =? 223 then [83; 83]
  else if n =? 255 then [376]
  else if ((224 <=? n) && (n <=? 254) && negb (n =? 247)) then [n - 32]
  else [n].

Fixpoint upper (s : string) : list nat :=
  match s with
  | EmptyString => []
  | String c s' => (upper_char c ++ upper s')%list
  end.

(** [s[:n]] and [s[n:]] *)
Fixpoint take (n : nat) (s : string) : string :=
  match n, s with
  | S n', String c s' => String c (take n' s')
  | _, _ => EmptyString
  end.

Fixpoint drop (n : nat) (s : string) : string :=
  match n, s with
  | S n', String c s' => drop n' s'
  | _, _ => s
  end.

Fixpoint codes (s : string) : list nat :=
  match s with
  | EmptyString => []
  | String c s' => code c :: codes s'
  end.

End Str.


(** ** Python floats

    A [float] is an IEEE binary64 number: [S754_finite s m e] is
    [(-1)^s * m * 2^e].  The conversions from and to text are those of
    CPython: [float(str)] rounds the decimal it reads to the nearest
    binary64 number, ties to even, and [repr] prints the shortest decimal
    that reads back as the number. *)

Module PyFloat.
Local Open Scope Z_scope.

Definition float : Type := spec_float.

Definition prec : Z := 53.
Definition emax : Z := 1024.

Definition zero : float := S754_zero false.
Definition nan : float := S754_nan.
Definition inf : float := S754_infinity false.

(** A float of the binary64 format: the mantissa has at most 53 bits and
    is normalised, the exponent is in range. *)
Definition is_binary64 (x : float) : bool := valid_binary prec emax x.

(** [x <= 0], [x > 0]: comparisons with a NaN are false. *)
Definition le_zero (x : float) : bool := SFleb x zero.
Definition gt_zero (x : float) : bool := SFltb zero x.
Definition is_nan (x : float) : bool :=
  match x with S754_nan => true | _ => false end.

(** Identity of two floats as data (not Python's [==]: a NaN is
    identical to itself, and the two zeros differ). *)
Definition same (x y : float) : bool :=
  match x, y with
  | S754_zero a, S754_zero b => Bool.eqb a b
  | S754_infinity a, S754_infinity b => Bool.eqb a b
  | S754_nan, S754_nan => true
  | S754_finite a m e, S754_finite b m' e' =>
      Bool.eqb a b && Pos.eqb m m' && Z.eqb e e'
  | _, _ => false
  end.

(** *** Rounding a positive rational [p / q] to binary64

    With [n = p * 2^1074] the quotient [n / q] counts the units of the
    smallest subnormal.  [s] is the binary exponent above [-1074] that
    leaves a 53-bit mantissa [m]; the remainder decides the rounding,
    ties to even; a mantissa rounded up to [2^53] moves to the next
    exponent, and an exponent above 971 is an overflow to infinity. *)
Definition round_ratio (p q : Z) : float :=
  let n := p * 2 ^ 1074 in
  let s := Z.max 0 (Z.log2 (n / q) - 52) in
  let d := q * 2 ^ s in
  let m := n / d in
  let r := n mod d in
  let m1 := match 2 * r ?= d with
            | Lt => m
            | Eq => if Z.even m then m else m + 1
            | Gt => m + 1
            end in
  let '(m2, s2) := if m1 =? 2 ^ 53 then (2 ^ 52, s + 1) else (m1, s) in
  match m2 with
  | Zpos mp =>
      if s2 <=? 2045 then S754_finite false mp (s2 - 1074)
      else S754_infinity false
  | _ => S754_zero false
  end.

(** The float nearest to [(-1)^neg * digits * 10^exp10]. *)
Definition of_decimal (neg : bool) (digits exp10 : Z) : float :=
  if digits =? 0 then S754_zero neg
  else
    let v := if 0 <=? exp10 then round_ratio (digits * 10 ^ exp10) 1
             else round_ratio digits (10 ^ (- exp10)) in
    if neg then SFopp v else v.

(** [x] is exactly the rational [num / den]. *)
Definition is_ratio (x : float) (num den : Z) : Prop :=
  0 < den /\
  match x with
  | S754_zero _ => num = 0
  | S754_finite s m e =>
      -1074 <= e /\
      (if s then Zneg m else Zpos m) * 2 ^ (e + 1074) * den = num * 2 ^ 1074
  | _ => False
  end.

(** *** [float(s)] *)

Definition is_digit (c : ascii) : bool :=
  let n := Str.code c in (48 <=? n)%nat && (n <=? 57)%nat.

Definition digit_value (c : ascii) : Z := Z.of_nat (Str.code c) - 48.

Fixpoint digits_value_acc (s : string) (acc : Z) : Z :=
  match s with
  | EmptyString => acc
  | String c s' => digits_value_acc s' (10 * acc + digit_value c)
  end.

Definition digits_value (s : string) : Z := digits_value_acc s 0.

(** Longest prefix of digits, and what follows it. *)
Fixpoint span_digits (s : string) : string * string :=
  match s with
  | String c s' =>
      if is_digit c then
        let '(d, r) := span_digits s' in (String c d, r)
      else (EmptyString, s)
  | EmptyString => (EmptyString, EmptyString)
  end.

Definition take_sign (s : string) : bool * string :=
  match s with
  | String "-" s' => (true, s')
  | String "+" s' => (false, s')
  | _ => (false, s)
  end.

(** The exponent part: nothing, or [e] or [E], an optional sign and at
    least one digit, up to the end of the text. *)
Definition parse_exponent (s : string) : option Z :=
  match s with
  | EmptyString => Some 0
  | String c s' =>
      if (Ascii.eqb c "e" || Ascii.eqb c "E")%bool then
        let '(neg, s2) := take_sign s' in
        match span_digits s2 with
        | (EmptyString, _) => None
        | (d, EmptyString) =>
            Some (if neg then - digits_value d else digits_value d)
        | (_, String _ _) => None
        end
      else None
  end.

(** [digits [. [digits]] [exponent]] or [. digits [exponent]], as the
    pair (digits read as one integer, power of ten). *)
Definition parse_decimal (s : string) : option (Z * Z) :=
  let '(ip, r1) := span_digits s in
  let '(fp, r2) := match r1 with
                   | String "." t => span_digits t
                   | _ => (EmptyString, r1)
                   end in
  match ip, fp with
  | EmptyString, EmptyString => None
  | _, _ =>
      match parse_exponent r2 with
      | Some e =>
          Some (digits_value (ip ++ fp), e - Z.of_nat (String.length fp))
      | None => None
      end
  end.

Definition lower_char (c : ascii) : ascii :=
  let n := Str.code c in
  if ((65 <=? n) && (n <=? 90))%nat then ascii_of_nat (n + 32) else c.

Fixpoint lower (s : string) : string :=
  match s with
  | EmptyString => EmptyString
  | String c s' => String (lower_char c) (lower s')
  end.

(** Underscores may only stand between two digits; they are removed
    before the number is read.  [prev] is the previous character. *)
Fixpoint drop_underscores (prev : ascii) (s : string) : option string :=
  match s with
  | EmptyString => if Ascii.eqb prev "_" then None else Some EmptyString
  | String c s' =>
      if Ascii.eqb c "_" then
        if is_digit prev then drop_underscores c s' else None
      else if (Ascii.eqb prev "_" && negb (is_digit c))%bool then None
      else option_map (String c) (drop_underscores c s')
  end.

(** White space that [float] strips: the ASCII one and, being turned
    into a space first, NEL and NBSP. *)
Definition float_space (c : ascii) : bool :=
  let n := Str.code c in
  (((9 <=? n) && (n <=? 13)) || (n =? 32) || (n =? 133) || (n =? 160))%nat.

Definition parse_abs (neg : bool) (s : string) : option float :=
  let l := lower s in
  if (String.eqb l "inf" || String.eqb l "infinity")%bool
  then Some (S754_infinity neg)
  else if String.eqb l "nan" then Some S754_nan
  else match parse_decimal s with
       | Some (d, e) => Some (of_decimal neg d e)
       | None => None
       end.

(** [float(s)]; [None] is the [ValueError]. *)
Definition of_string (s : string) : option float :=
  match drop_underscores Ascii.zero (Str.strip_with float_space s) with
  | Some t => let '(neg, t') := take_sign t in parse_abs neg t'
  | None => None
  end.

(** *** [repr(x)] *)

Definition digit_char (d : Z) : ascii := ascii_of_nat (Z.to_nat d + 48).

Fixpoint digits_of (fuel : nat) (n : Z) (acc : string) : string :=
  let acc' := String (digit_char (n mod 10)) acc in
  match fuel with
  | O => acc'
  | S f => if n <? 10 then acc' else digits_of f (n / 10) acc'
  end.

(** [str(n)] for a natural number [n]. *)
Definition str_of_nat (n : Z) : string :=
  digits_of (Z.to_nat (Z.log2 n)) n EmptyString.

(** [x / 10^k] as a fraction of integers, for [x = a / b]. *)
Definition scaled (a b k : Z) : Z * Z :=
  if 0 <=? k then (a, b * 10 ^ k) else (a * 10 ^ (- k), b).

(** The largest [j' <= j] with [10^j' <= a / b]. *)
Fixpoint find_dexp (fuel : nat) (a b j : Z) : Z :=
  match fuel with
  | O => j
  | S f =>
      let '(x, y) := scaled a b j in
      if y <=? x then j else find_dexp f a b (j - 1)
  end.

Definition reads_back (x : float) (d k : Z) : bool :=
  same (of_decimal false d k) x.

(** The decimals [lo * 10^k] and [(lo + 1) * 10^k] around [a / b]:
    the one that reads back as [x]; of two, the nearer to [a / b], and
    the even one when they are as near. *)
Definition candidate (x : float) (a b k : Z) : option (Z * Z) :=
  let '(u, v) := scaled a b k in
  let lo := u / v in
  let hi := lo + 1 in
  match reads_back x lo k, reads_back x hi k with
  | true, true =>
      match 2 * (u mod v) ?= v with
      | Lt => Some (lo, k)
      | Gt => Some (hi, k)
      | Eq => if Z.even lo then Some (lo, k) else Some (hi, k)
      end
  | true, false => Some (lo, k)
  | false, true => Some (hi, k)
  | false, false => None
  end.

(** Decimals of 1, 2, ... digits are tried in turn; the search stops at
    17 digits, which always suffice. *)
Fixpoint shortest (fuel : nat) (x : float) (a b k : Z) : Z * Z :=
  match candidate x a b k with
  | Some c => c
  | None =>
      match fuel with
      | O => let '(u, v) := scaled a b k in (u / v, k)
      | S f => shortest f x a b (k - 1)
      end
  end.

(** A trailing zero of the digits moves to the exponent. *)
Fixpoint strip_zeros (fuel : nat) (d k : Z) : Z * Z :=
  match fuel with
  | O => (d, k)
  | S f => if (d mod 10 =? 0) && negb (d =? 0)
           then strip_zeros f (d / 10) (k + 1) else (d, k)
  end.

(** The digits and exponent of [repr] for the positive number
    [m * 2^e]: [m * 2^e = a / 2^1074]. *)
Definition shortest_decimal (m : positive) (e : Z) : Z * Z :=
  let a := Zpos m * 2 ^ (e + 1074) in
  let b := 2 ^ 1074 in
  let dexp := find_dexp 632 a b 308 in
  let '(d, k) := shortest 16 (S754_finite false m e) a b dexp in
  strip_zeros 17 d k.

(** The exponent as ["%+.02d"] prints it. *)
Definition format_exp (e : Z) : string :=
  let a := str_of_nat (Z.abs e) in
  String (if e <? 0 then "-"%char else "+"%char)
         (if Z.abs e <? 10 then String "0" a else a).

(** [digits] are the significant digits and [decpt] the place of the
    decimal point after the first [decpt] of them: scientific notation
    when [decpt <= -4] or [decpt > 16], else positional notation with at
    least one digit after the point. *)
Definition format_repr (digits : string) (decpt : Z) : string :=
  let n := Z.of_nat (String.length digits) in
  if (decpt <=? -4) || (16 <? decpt) then
    match digits with
    | String c EmptyString => String c ("e" ++ format_exp (decpt - 1))
    | String c rest => String c ("." ++ rest ++ "e" ++ format_exp (decpt - 1))
    | EmptyString => EmptyString
    end
  else if decpt <=? 0 then
    "0." ++ Str.replicate (Z.to_nat (- decpt)) "0" ++ digits
  else if decpt <? n then
    Str.take (Z.to_nat decpt) digits ++ "."
    ++ Str.drop (Z.to_nat decpt) digits
  else
    digits ++ Str.replicate (Z.to_nat (decpt - n)) "0" ++ ".0".

Definition repr_abs (x : float) : string :=
  match x with
  | S754_zero _ => "0.0"
  | S754_infinity _ => "inf"
  | S754_nan => "nan"
  | S754_finite _ m e =>
      let '(d, k) := shortest_decimal m e in
      let ds := str_of_nat d in
      format_repr ds (Z.of_nat (String.length ds) + k)
  end.

(** [repr(x)], which is also [str(x)]. *)
Definition repr (x : float) : string :=
  match x with
  | S754_zero true | S754_infinity true | S754_finite true _ _ =>
      String "-" (repr_abs x)
  | _ => repr_abs x
  end.

End PyFloat.

(** ** Regular expressions

    [re.fullmatch(pattern, s)] for the fragment of patterns the source
    uses: character classes, concatenation and repetition.  Matching is by
    derivatives; whether a full match exists does not depend on the order
    in which a backtracking matcher tries the alternatives. *)

Module Regex.

Inductive re : Type :=
| Eps                              (* the empty text; also [^] and [$] *)
| Class (p : ascii -> bool)        (* one character of a class *)
| Cat (r1 r2 : re)
| Star (r : re).

(** [r+] and [r{2,}] *)
Definition Plus (r : re) : re := Cat r (Star r).
Definition AtLeast2 (r : re) : re := Cat r (Cat r (Star r)).

Fixpoint nullable (r : re) : bool :=
  match r with
  | Eps => true
  | Class _ => false
  | Cat r1 r2 => nullable r1 && nullable r2
  | Star _ => true
  end.

(** The derivative of [r] by [c] is a list of alternatives. *)
Fixpoint deriv (c : ascii) (r : re) : list re :=
  match r with
  | Eps => []
  | Class p => if p c then [Eps] else []
  | Cat r1 r2 =>
      (map (fun d => Cat d r2) (deriv c r1)
       ++ (if nullable r1 then deriv c r2 else []))%list
  | Star r1 => map (fun d => Cat d (Star r1)) (deriv c r1)
  end.

Fixpoint matches_any (rs : list re) (s : string) : bool :=
  match s with
  | EmptyString => existsb nullable rs
  | String c s' => matches_any (flat_map (deriv c) rs) s'
  end.

Definition fullmatch (r : re) (s : string) : bool := matches_any [r] s.

(** The texts a pattern matches in full. *)
Inductive lang : re -> string -> Prop :=
| L_Eps : lang Eps EmptyString
| L_Class p c : p c = true -> lang (Class p) (String c EmptyString)
| L_Cat r1 r2 s1 s2 : lang r1 s1 -> lang r2 s2 -> lang (Cat r1 r2) (s1 ++ s2)
| L_Star_nil r : lang (Star r) EmptyString
| L_Star_cons r s1 s2 :
    lang r s1 -> lang (Star r) s2 -> lang (Star r) (s1 ++ s2).

Definition in_range (lo hi : ascii) (c : ascii) : bool :=
  (Str.code lo <=? Str.code c) && (Str.code c <=? Str.code hi).

Definition letter (c : ascii) : bool := in_range "a" "z" c || in_range "A" "Z" c.
Definition digit (c : ascii) : bool := in_range "0" "9" c.
Definition one_of (s : string) (c : ascii) : bool := Str.mem c s.

End Regex.

(** ** The validators *)

(** The outcome of a validator.  The source returns tuples: [(True, None)]
    is [Valid tt], [(True, v, None)] is [Valid v], and [(False, msg)] or
    [(False, None, msg)] is [Invalid msg]. *)
Inductive verdict (A : Type) : Type :=
| Valid (a : A)
| Invalid (error : string).
Arguments Valid {A} a.
Arguments Invalid {A} error.

Definition is_valid {A} (v : verdict A) : bool :=
  match v with Valid _ => true | Invalid _ => false end.

(** [[a-zA-Z0-9._%+-]], [[a-zA-Z0-9.-]] and [[a-zA-Z]] *)
Definition local_char (c : ascii) : bool :=
  Regex.letter c || Regex.digit c || Regex.one_of "._%+-" c.
Definition domain_char (c : ascii) : bool :=
  Regex.letter c || Regex.digit c || Regex.one_of ".-" c.

(** [r'^[a-zA-Z0-9._%+-]+@[a-zA-Z0-9.-]+\.[a-zA-Z]{2,}$'] *)
Definition EMAIL_PATTERN : Regex.re :=
  Regex.Cat Regex.Eps
    (Regex.Cat (Regex.Plus (Regex.Class local_char))
      (Regex.Cat (Regex.Class (Ascii.eqb "@"))
        (Regex.Cat (Regex.Plus (Regex.Class domain_char))
          (Regex.Cat (Regex.Class (Ascii.eqb "."))
            (Regex.Cat (Regex.AtLeast2 (Regex.Class Regex.letter))
              Regex.Eps))))).

Definition validate_email (email : string) : verdict unit :=
  if Str.blank email then Invalid "Email cannot be empty"
  else if negb (Regex.fullmatch EMAIL_PATTERN (Str.strip email))
  then Invalid "Invalid email format"
  else Valid tt.

Definition validate_salary (salary : string) : verdict PyFloat.float :=
  if Str.blank salary then Invalid "Salary cannot be empty"
  else
    match PyFloat.of_string salary with
    | Some salary_float =>
        if PyFloat.le_zero salary_float
        then Invalid "Salary must be greater than 0"
        else Valid salary_float
    | None => Invalid "Salary must be a valid number"
    end.

Definition validate_required_field (value field_name : string) : verdict unit :=
  if Str.blank value then Invalid (field_name ++ " cannot be empty")
  else Valid tt.

Definition validate_employee_id (emp_id : string) (existing_ids : list string)
  : verdict unit :=
  if Str.blank emp_id then Invalid "Employee ID cannot be empty"
  else if Str.inb (Str.strip emp_id) existing_ids
  then Invalid ("Employee with ID '" ++ emp_id ++ "' already exists")
  else Valid tt.

(** [existing_emails] holds the [Email] value of every record, which is
    [None] for a record loaded from a row that ends before that column. *)
Definition validate_unique_email (email : string)
    (existing_emails : list (option string)) : verdict unit :=
  match validate_email email with
  | Invalid error => Invalid error
  | Valid _ =>
      if existsb (fun e => match e with
                           | Some e' => String.eqb (Str.strip email) e'
                           | None => false
                           end) existing_emails
      then Invalid ("Email '" ++ email
                    ++ "' is already registered to another employee")
      else Valid tt
  end.

(** ** The [csv] module, "excel" dialect

    The delimiter is the comma and the quote character the double quote,
    which is doubled inside a quoted field; there is no escape character;
    the line terminator is CR LF; quoting is minimal; not strict.  The
    module is the one of CPython 3.11 and later, whose reader takes NUL
    for a character like another. *)

Module Csv.

Definition CR : ascii := ascii_of_nat 13.
Definition LF : ascii := ascii_of_nat 10.
Definition comma : ascii := ","%char.
Definition quote : ascii := ascii_of_nat 34.
Definition lineterminator : string := String CR (String LF EmptyString).

Definition is_newline (c : ascii) : bool := Ascii.eqb c CR || Ascii.eqb c LF.

(** *** The writer *)

(** The characters that make the writer quote a field. *)
Definition special (c : ascii) : bool :=
  Ascii.eqb c comma || Ascii.eqb c quote || is_newline c.

Fixpoint needs_quotes (s : string) : bool :=
  match s with
  | EmptyString => false
  | String c s' => special c || needs_quotes s'
  end.

Fixpoint double_quotes (s : string) : string :=
  match s with
  | EmptyString => EmptyString
  | String c s' =>
      if Ascii.eqb c quote then String quote (String quote (double_quotes s'))
      else String c (double_quotes s')
  end.

Definition write_field (s : string) : string :=
  if needs_quotes s then String quote (double_quotes s ++ String quote EmptyString)
  else s.

Fixpoint join (fields : list string) : string :=
  match fields with
  | [] => EmptyString
  | [f] => write_field f
  | f :: fs => write_field f ++ String comma (join fs)
  end.

(** [writer.writerow(fields)]: a row made of one empty field is written
    as two quotes. *)
Definition writerow (fields : list string) : string :=
  match fields with
  | [EmptyString] => String quote (String quote lineterminator)
  | _ => join fields ++ lineterminator
  end.

(** *** The lines of a file opened with [newline='']

    A line ends after LF, after CR LF, or after a CR that no LF
    follows; the line endings are kept. *)
Fixpoint lines_of (s : string) : list string :=
  match s with
  | EmptyString => []
  | String c s' =>
      if Ascii.eqb c LF then String c EmptyString :: lines_of s'
      else if Ascii.eqb c CR then
        match s' with
        | String c' s'' =>
            if Ascii.eqb c' LF then lineterminator :: lines_of s''
            else String c EmptyString :: lines_of s'
        | EmptyString => [String c EmptyString]
        end
      else
        match lines_of s' with
        | [] => [String c EmptyString]
        | l :: ls => String c l :: ls
        end
  end.

(** *** The reader *)

Inductive state : Type :=
| START_RECORD | START_FIELD | IN_FIELD
| IN_QUOTED_FIELD | QUOTE_IN_QUOTED_FIELD | EAT_CRNL.

Definition state_eqb (a b : state) : bool :=
  match a, b with
  | START_RECORD, START_RECORD | START_FIELD, START_FIELD
  | IN_FIELD, IN_FIELD | IN_QUOTED_FIELD, IN_QUOTED_FIELD
  | QUOTE_IN_QUOTED_FIELD, QUOTE_IN_QUOTED_FIELD | EAT_CRNL, EAT_CRNL => true
  | _, _ => false
  end.

(** What the parser is given: a character of a line, or the end of the
    line. *)
Inductive token : Type := Ch (c : ascii) | EOL.

Inductive error : Type :=
| FieldTooLarge       (* "field larger than field limit (131072)" *)
| NewlineInUnquoted.  (* "new-line character seen in unquoted field" *)

(** [csv.field_size_limit()] *)
Definition field_limit : N := 131072.

Record parser : Type := {
  st : state;
  fields : list string;     (* the fields of the record read so far *)
  field : string            (* the characters of the current field *)
}.

Definition parse_reset : parser :=
  {| st := START_RECORD; fields := []; field := EmptyString |}.

Definition set_state (p : parser) (s : state) : parser :=
  {| st := s; fields := fields p; field := field p |}.

Definition parse_add_char (p : parser) (c : ascii) : parser + error :=
  if (field_limit <=? N.of_nat (String.length (field p)))%N then inr FieldTooLarge
  else inl {| st := st p; fields := fields p;
              field := field p ++ String c EmptyString |}.

Definition parse_save_field (p : parser) : parser :=
  {| st := st p; fields := (fields p ++ [field p])%list; field := EmptyString |}.

Definition then_state (r : parser + error) (s : state) : parser + error :=
  match r with
  | inl p => inl (set_state p s)
  | inr e => inr e
  end.

Definition end_of_field (p : parser) (t : token) : parser + error :=
  inl (set_state (parse_save_field p)
                 (match t with EOL => START_RECORD | Ch _ => EAT_CRNL end)).

Definition start_field (p : parser) (t : token) : parser + error :=
  match t with
  | EOL => end_of_field p t
  | Ch c =>
      if is_newline c then end_of_field p t
      else if Ascii.eqb c quote then inl (set_state p IN_QUOTED_FIELD)
      else if Ascii.eqb c comma then inl (set_state (parse_save_field p) START_FIELD)
      else then_state (parse_add_char p c) IN_FIELD
  end.

Definition parse_process_char (p : parser) (t : token) : parser + error :=
  match st p with
  | START_RECORD =>
      match t with
      | EOL => inl p
      | Ch c => if is_newline c then inl (set_state p EAT_CRNL)
                else start_field p t
      end
  | START_FIELD => start_field p t
  | IN_FIELD =>
      match t with
      | EOL => end_of_field p t
      | Ch c =>
          if is_newline c then end_of_field p t
          else if Ascii.eqb c comma
          then inl (set_state (parse_save_field p) START_FIELD)
          else parse_add_char p c
      end
  | IN_QUOTED_FIELD =>
      match t with
      | EOL => inl p
      | Ch c => if Ascii.eqb c quote then inl (set_state p QUOTE_IN_QUOTED_FIELD)
                else parse_add_char p c
      end
  | QUOTE_IN_QUOTED_FIELD =>
      match t with
      | EOL => end_of_field p t
      | Ch c =>
          if Ascii.eqb c quote then then_state (parse_add_char p c) IN_QUOTED_FIELD
          else if Ascii.eqb c comma
          then inl (set_state (parse_save_field p) START_FIELD)
          else if is_newline c then end_of_field p t
          else then_state (parse_add_char p c) IN_FIELD
      end
  | EAT_CRNL =>
      match t with
      | EOL => inl (set_state p START_RECORD)
      | Ch c => if is_newline c then inl p else inr NewlineInUnquoted
      end
  end.

Fixpoint feed_line (p : parser) (line : string) : parser + error :=
  match line with
  | EmptyString => parse_process_char p EOL
  | String c line' =>
      match parse_process_char p (Ch c) with
      | inl p' => feed_line p' line'
      | inr e => inr e
      end
  end.

(** The rows that the successive [next(reader)] return, and the error
    that ends the iteration if one does.  A record is complete when a
    line leaves the parser in [START_RECORD]; an input that ends inside
    a quoted field yields the record read so far. *)
Fixpoint read_lines (p : parser) (lines : list string)
  : list (list string) * option error :=
  match lines with
  | [] =>
      if negb (String.eqb (field p) EmptyString) || state_eqb (st p) IN_QUOTED_FIELD
      then ([fields (parse_save_field p)], None)
      else ([], None)
  | line :: rest =>
      match feed_line p line with
      | inr e => ([], Some e)
      | inl p' =>
          if state_eqb (st p') START_RECORD then
            let '(rows, e) := read_lines parse_reset rest in
            (fields p' :: rows, e)
          else read_lines p' rest
      end
  end.

(** [csv.reader(file)] on the text of the file. *)
Definition reader (text : string) : list (list string) * option error :=
  read_lines parse_reset (lines_of text).

(** *** [DictReader]

    A row is the dictionary of its values by column name: a column that
    the row does not reach has the value [None], and of two columns of
    one name the later counts.  The values beyond the last column are
    kept under the key [None], which the source never reads. *)
Definition row : Type := list (string * option string).

Fixpoint zip_row (fieldnames : list string) (values : list string) : row :=
  match fieldnames, values with
  | [], _ => []
  | k :: ks, [] => (k, None) :: zip_row ks []
  | k :: ks, v :: vs => (k, Some v) :: zip_row ks vs
  end.

(** [key in row] and [row[key]] *)
Fixpoint row_lookup (r : row) (key : string) : option (option string) :=
  match r with
  | [] => None
  | (k, v) :: r' =>
      match row_lookup r' key with
      | Some v' => Some v'
      | None => if String.eqb k key then Some v else None
      end
  end.

Definition is_empty_row (values : list string) : bool :=
  match values with [] => true | _ => false end.

(** The rows of a [DictReader]: the first row read names the columns,
    and empty rows are passed over. *)
Definition dict_rows (rows : list (list string)) : list row :=
  match rows with
  | [] => []
  | fieldnames :: rest =>
      map (zip_row fieldnames) (filter (fun r => negb (is_empty_row r)) rest)
  end.

End Csv.

(** ** Dictionaries

    A Python [dict] with string keys keeps its items in insertion order:
    assigning to a key that is present replaces its value in place, and
    assigning to a new key appends an item. *)

Module Dict.
Section Dict.
Context {V : Type}.

Definition t : Type := list (string * V).

(** [d.get(k)] *)
Fixpoint get (d : t) (k : string) : option V :=
  match d with
  | [] => None
  | (k', v) :: d' => if String.eqb k k' then Some v else get d' k
  end.

(** [k in d] *)
Definition mem (d : t) (k : string) : bool :=
  match get d k with Some _ => true | None => false end.

(** [d[k] = v] *)
Fixpoint set (d : t) (k : string) (v : V) : t :=
  match d with
  | [] => [(k, v)]
  | (k', v') :: d' =>
      if String.eqb k k' then (k', v) :: d' else (k', v') :: set d' k v
  end.

(** [del d[k]] *)
Fixpoint del (d : t) (k : string) : t :=
  match d with
  | [] => []
  | (k', v') :: d' =>
      if String.eqb k k' then del d' k else (k', v') :: del d' k
  end.

Definition keys (d : t) : list string := map fst d.
Definition values (d : t) : list V := map snd d.

(** [not d] *)
Definition is_empty (d : t) : bool :=
  match d with [] => true | _ => false end.
End Dict.
Arguments t V : clear implicits.
End Dict.

(** [sorted(keys)]: strings are ordered by their code points. *)
Fixpoint insert_sorted (k : string) (l : list string) : list string :=
  match l with
  | [] => [k]
  | x :: l' => if String.leb k x then k :: l else x :: insert_sorted k l'
  end.

Definition sorted (l : list string) : list string :=
  fold_right insert_sorted [] l.

(** ** The record store *)

(** A record: the dictionary with the keys ['ID'], ['Name'], ['Position'],
    ['Salary'] and ['Email'].  A value read from a row of the file that
    ends before its column is [None]. *)
Record Employee : Type := {
  ID : string;
  Name : option string;
  Position : option string;
  Salary : PyFloat.float;
  Email : option string
}.

Definition FIELDNAMES : list string :=
  ["ID"; "Name"; "Position"; "Salary"; "Email"].

Inductive exception : Type :=
| FileNotFoundError
| PermissionError
| KeyError (key : string)
| TypeError                    (* [float(None)] *)
| ValueError (text : string)   (* [float(text)] of a text that is no number *)
| CsvError (e : Csv.error).

(** What the program prints.  The banners, the rules and the prompts are
    left out; the lines that show the fields of a record are one event. *)
Inductive event : Type :=
| Print (text : string)
| Details (e : Employee)
| ErrorLoading (e : exception)   (* [print(f"Error loading data: {e}")] *)
| ErrorSaving (e : exception).   (* [print(f"Error saving data: {e}")] *)

(** The backing file [self.filename]: its text if it exists, and whether
    it can be opened for reading and for writing. *)
Record file : Type := {
  content : option string;
  readable : bool;
  writable : bool
}.

(** [open(self.filename, 'r', newline='')] and the reading of the text *)
Definition open_read (f : file) : string + exception :=
  match content f with
  | None => inr FileNotFoundError
  | Some text => if readable f then inl text else inr PermissionError
  end.

(** [open(self.filename, 'w', newline='')], the writing of [text] and the
    closing of the file *)
Definition open_write (f : file) (text : string) : file + exception :=
  if writable f
  then inl {| content := Some text; readable := readable f; writable := true |}
  else inr PermissionError.

Record world : Type := {
  employees : Dict.t Employee;     (* [self._employees] *)
  disk : file;
  output : list event
}.

Definition set_employees (w : world) (d : Dict.t Employee) : world :=
  {| employees := d; disk := disk w; output := output w |}.

Definition set_disk (w : world) (f : file) : world :=
  {| employees := employees w; disk := f; output := output w |}.

Definition emit (w : world) (ev : event) : world :=
  {| employees := employees w; disk := disk w;
     output := (output w ++ [ev])%list |}.

(** *** The CSV file *)

Definition cell (v : option string) : string :=
  match v with Some s => s | None => EmptyString end.

(** The fields of the row that [DictWriter] writes for a record: [None]
    is written as the empty text and the salary as its [repr]. *)
Definition row_of (e : Employee) : list string :=
  [ID e; cell (Name e); cell (Position e); PyFloat.repr (Salary e);
   cell (Email e)].

Definition header_text : string := Csv.writerow FIELDNAMES.

Fixpoint rows_text (d : Dict.t Employee) (ids : list string) : string :=
  match ids with
  | [] => EmptyString
  | emp_id :: ids' =>
      match Dict.get d emp_id with
      | Some e => Csv.writerow (row_of e) ++ rows_text d ids'
      | None => rows_text d ids'
      end
  end.

(** The text that [_save_to_csv] writes: the header, then the records
    sorted by identifier. *)
Definition csv_text (d : Dict.t Employee) : string :=
  header_text ++ rows_text d (sorted (Dict.keys d)).

(** The body of the loop of [_load_from_csv] for one row: [inl None] is
    [continue]. *)
Definition load_row (r : Csv.row) : option Employee + exception :=
  match Csv.row_lookup r "ID" with
  | None | Some None | Some (Some EmptyString) => inl None
  | Some (Some id) =>
      match Csv.row_lookup r "Name" with
      | None => inr (KeyError "Name")
      | Some name =>
          match Csv.row_lookup r "Position" with
          | None => inr (KeyError "Position")
          | Some position =>
              match Csv.row_lookup r "Salary" with
              | None => inr (KeyError "Salary")
              | Some None => inr TypeError
              | Some (Some text) =>
                  match PyFloat.of_string text with
                  | None => inr (ValueError text)
                  | Some salary =>
                      match Csv.row_lookup r "Email" with
                      | None => inr (KeyError "Email")
                      | Some email =>
                          inl (Some {| ID := id; Name := name;
                                       Position := position;
                                       Salary := salary; Email := email |})
                      end
                  end
              end
          end
      end
  end.

(** The loop over the rows: the mapping built when the loop ends, and the
    exception that ended it if one did. *)
Fixpoint load_rows (rows : list Csv.row) (d : Dict.t Employee)
  : Dict.t Employee * option exception :=
  match rows with
  | [] => (d, None)
  | r :: rest =>
      match load_row r with
      | inl None => load_rows rest d
      | inl (Some e) => load_rows rest (Dict.set d (ID e) e)
      | inr ex => (d, Some ex)
      end
  end.

Definition _create_csv_file (w : world) : world * bool :=
  match open_write (disk w) header_text with
  | inl f => (set_disk w f, true)
  | inr _ => (w, false)
  end.

(** The rows are read one at a time: an error of the reader is raised
    after the rows before it went through the loop. *)
Definition _load_from_csv (w : world) : world :=
  let w := set_employees w [] in
  match open_read (disk w) with
  | inr FileNotFoundError => fst (_create_csv_file w)
  | inr e => emit w (ErrorLoading e)
  | inl text =>
      let '(rows, csv_error) := Csv.reader text in
      let '(d, raised) := load_rows (Csv.dict_rows rows) [] in
      let w := set_employees w d in
      match raised, csv_error with
      | Some e, _ => emit w (ErrorLoading e)
      | None, Some e => emit w (ErrorLoading (CsvError e))
      | None, None => w
      end
  end.

Definition _save_to_csv (w : world) : world * bool :=
  match open_write (disk w) (csv_text (employees w)) with
  | inl f => (set_disk w f, true)
  | inr e => (emit w (ErrorSaving e), false)
  end.

(** [EmployeeManager(filename)] on a disk: a world with nothing printed. *)
Definition init (f : file) : world :=
  _load_from_csv {| employees := []; disk := f; output := [] |}.

(** *** The operator

    A method runs in a world with the lines the operator will type, and
    ends with a value, a world and the lines left, or with the [EOFError]
    of an [input()] that finds no line; the source does not catch it. *)
Inductive outcome (A : Type) : Type :=
| Done (a : A) (w : world) (rest : list string)
| EOFError (w : world).
Arguments Done {A} a w rest.
Arguments EOFError {A} w.

(** The world in which a method ends. *)
Definition world_of {A} (o : outcome A) : world :=
  match o with Done _ w _ => w | EOFError w => w end.

Definition io (A : Type) : Type := world -> list string -> outcome A.

Definition ret {A} (a : A) : io A := fun w inp => Done a w inp.

Definition bind {A B} (m : io A) (k : A -> io B) : io B :=
  fun w inp =>
    match m w inp with
    | Done a w' inp' => k a w' inp'
    | EOFError w' => EOFError w'
    end.

Notation "x <- m ;; k" := (bind m (fun x => k))
  (at level 61, m at next level, right associativity).
Notation "m ;;; k" := (bind m (fun _ => k))
  (at level 61, right associativity).

(** [input(prompt)] *)
Definition input : io string :=
  fun w inp =>
    match inp with
    | [] => EOFError w
    | line :: rest => Done line w rest
    end.

Definition print (text : string) : io unit :=
  fun w inp => Done tt (emit w (Print text)) inp.

Definition show (e : Employee) : io unit :=
  fun w inp => Done tt (emit w (Details e)) inp.

Definition get_employees : io (Dict.t Employee) :=
  fun w inp => Done (employees w) w inp.

Definition put_employees (d : Dict.t Employee) : io unit :=
  fun w inp => Done tt (set_employees w d) inp.

Definition save_to_csv : io bool :=
  fun w inp => let '(w', ok) := _save_to_csv w in Done ok w' inp.

Definition nl : string := String Csv.LF EmptyString.

(** A validator that returns a pair makes the helpers return the text
    typed ([result[1] if len(result) > 2 else value]). *)
Definition returning {A} (f : string -> A) (validator : string -> verdict unit)
  : string -> verdict A :=
  fun value =>
    match validator value with
    | Valid _ => Valid (f value)
    | Invalid error => Invalid error
    end.

(** The loop [while True] reads a line at each turn. *)
Fixpoint _prompt_until_valid {A} (validator : string -> verdict A)
    (w : world) (inp : list string) : outcome A :=
  match inp with
  | [] => EOFError w
  | line :: rest =>
      let value := Str.strip line in
      match validator value with
      | Valid a => Done a w rest
      | Invalid error =>
          _prompt_until_valid validator (emit w (Print ("Error: " ++ error))) rest
      end
  end.

Fixpoint _get_optional_input {A} (current_value : A)
    (validator : string -> verdict A) (w : world) (inp : list string)
  : outcome A :=
  match inp with
  | [] => EOFError w
  | line :: rest =>
      let user_input := Str.strip line in
      if negb (Str.truthy user_input) then Done current_value w rest
      else
        match validator user_input with
        | Valid a => Done a w rest
        | Invalid error =>
            _get_optional_input current_value validator
              (emit w (Print ("Error: " ++ error))) rest
        end
  end.

Definition no_employees : string :=
  nl ++ "No employees in the system. Please add employees first.".

Definition not_found (emp_id : string) : string :=
  nl ++ "Employee with ID '" ++ emp_id ++ "' not found!".

Definition add_employee : io unit :=
  d <- get_employees ;;
  emp_id <- _prompt_until_valid
              (returning id (fun v => validate_employee_id v (Dict.keys d))) ;;
  name <- _prompt_until_valid
            (returning id (fun v => validate_required_field v "Name")) ;;
  position <- _prompt_until_valid
                (returning id (fun v => validate_required_field v "Position")) ;;
  salary <- _prompt_until_valid validate_salary ;;
  d <- get_employees ;;
  let existing_emails := map Email (Dict.values d) in
  email <- _prompt_until_valid
             (returning id (fun v => validate_unique_email v existing_emails)) ;;
  put_employees (Dict.set d emp_id
                   {| ID := emp_id; Name := Some name; Position := Some position;
                      Salary := salary; Email := Some email |}) ;;;
  save_to_csv ;;;
  print (nl ++ "Employee '" ++ name ++ "' added successfully!") ;;;
  input ;;;
  ret tt.

Definition update_employee : io unit :=
  d <- get_employees ;;
  if Dict.is_empty d then
    print no_employees ;;; input ;;; ret tt
  else
    line <- input ;;
    let emp_id := Str.strip line in
    match Dict.get d emp_id with
    | None => print (not_found emp_id) ;;; input ;;; ret tt
    | Some employee =>
        show employee ;;;
        name <- _get_optional_input (Name employee)
                  (returning Some (fun v => validate_required_field v "Name")) ;;
        position <- _get_optional_input (Position employee)
                      (returning Some
                         (fun v => validate_required_field v "Position")) ;;
        salary <- _get_optional_input (Salary employee) validate_salary ;;
        d <- get_employees ;;
        let existing_emails :=
          map (fun item => Email (snd item))
              (filter (fun item => negb (String.eqb (fst item) emp_id)) d) in
        email <- _get_optional_input (Email employee)
                   (returning Some
                      (fun v => validate_unique_email v existing_emails)) ;;
        put_employees (Dict.set d emp_id
                         {| ID := emp_id; Name := name; Position := position;
                            Salary := salary; Email := email |}) ;;;
        save_to_csv ;;;
        print (nl ++ "Employee with ID '" ++ emp_id ++ "' updated successfully!") ;;;
        input ;;;
        ret tt
    end.

(** The code points of ['YES'] *)
Definition YES : list nat := Str.codes "YES".

Definition delete_employee : io unit :=
  d <- get_employees ;;
  if Dict.is_empty d then
    print no_employees ;;; input ;;; ret tt
  else
    line <- input ;;
    let emp_id := Str.strip line in
    match Dict.get d emp_id with
    | None => print (not_found emp_id) ;;; input ;;; ret tt
    | Some employee =>
        show employee ;;;
        line <- input ;;
        let confirm := Str.upper (Str.strip line) in
        (if list_eq_dec Nat.eq_dec confirm YES then
           put_employees (Dict.del d emp_id) ;;;
           save_to_csv ;;;
           print (nl ++ "Employee with ID '" ++ emp_id ++ "' deleted successfully!")
         else
           print (nl ++ "Deletion cancelled.")) ;;;
        input ;;;
        ret tt
    end.

Definition search_employee : io unit :=
  d <- get_employees ;;
  if Dict.is_empty d then
    print no_employees ;;; input ;;; ret tt
  else
    line <- input ;;
    let emp_id := Str.strip line in
    match Dict.get d emp_id with
    | None => print (not_found emp_id)
    | Some employee => show employee
    end ;;;
    input ;;;
    ret tt.

(** ** The words of the specification *)

(** Empty or made of white space only. *)
Definition all_whitespace (s : string) : Prop :=
  forall c, Str.mem c s = true -> Str.isspace c = true.

Definition all_chars (P : ascii -> Prop) (s : string) : Prop :=
  forall c, Str.mem c s = true -> P c.

Definition spec_letter (c : ascii) : Prop :=
  (Str.code "a" <= Str.code c <= Str.code "z") \/
  (Str.code "A" <= Str.code c <= Str.code "Z").

Definition spec_digit (c : ascii) : Prop :=
  Str.code "0" <= Str.code c <= Str.code "9".

(** Local part: letters, digits, [.], [_], [%], [+], [-]. *)
Definition spec_local (c : ascii) : Prop :=
  spec_letter c \/ spec_digit c \/
  c = "."%char \/ c = "_"%char \/ c = "%"%char \/ c = "+"%char \/ c = "-"%char.

(** Domain: letters, digits, [.], [-]. *)
Definition spec_domain (c : ascii) : Prop :=
  spec_letter c \/ spec_digit c \/ c = "."%char \/ c = "-"%char.

(** [local-part@domain.tld], the top-level segment of at least two
    letters. *)
Definition email_shape (s : string) : Prop :=
  exists local domain tld,
    s = local ++ "@" ++ domain ++ "." ++ tld /\
    local <> "" /\ all_chars spec_local local /\
    domain <> "" /\ all_chars spec_domain domain /\
    2 <= String.length tld /\ all_chars spec_letter tld.

(** A line typed at an optional prompt of [update] yields [x]: it is
    blank and [x] is the current value, or the validator accepts it and
    returns [x]. *)
Definition accepts {A} (current : A) (validator : string -> verdict A)
    (line : string) (x : A) : Prop :=
  (Str.strip line = "" /\ x = current) \/
  (Str.strip line <> "" /\ validator (Str.strip line) = Valid x).

(** The emails of the records other than the one of key [k]. *)
Definition other_emails (d : Dict.t Employee) (k : string) : list (option string) :=
  map (fun item => Email (snd item))
      (filter (fun item => negb (String.eqb (fst item) k)) d).

Definition added (name : string) : string :=
  nl ++ "Employee '" ++ name ++ "' added successfully!".
Definition updated (emp_id : string) : string :=
  nl ++ "Employee with ID '" ++ emp_id ++ "' updated successfully!".
Definition deleted (emp_id : string) : string :=
  nl ++ "Employee with ID '" ++ emp_id ++ "' deleted successfully!".
Definition cancelled : string := nl ++ "Deletion cancelled.".

(** *** The data model *)

Definition text_ok (v : option string) : bool :=
  match v with Some s => negb (Str.blank s) | None => false end.

(** A record of the data model: an identifier, a name and a position that
    are not blank, a salary that is a binary64 number greater than zero,
    and an email that [validate_email] accepts. *)
Definition valid_record (e : Employee) : bool :=
  negb (Str.blank (ID e)) && text_ok (Name e) && text_ok (Position e)
  && PyFloat.is_binary64 (Salary e) && PyFloat.gt_zero (Salary e)
  && match Email e with
     | Some m => is_valid (validate_email m)
     | None => false
     end.

Fixpoint distinct {A} (eqb : A -> A -> bool) (l : list A) : bool :=
  match l with
  | [] => true
  | x :: l' => negb (existsb (eqb x) l') && distinct eqb l'
  end.

Definition option_string_eqb (a b : option string) : bool :=
  match a, b with
  | Some x, Some y => String.eqb x y
  | None, None => true
  | _, _ => false
  end.

(** A store of the data model: every record is valid and is stored under
    its identifier, no two records share an identifier or an email. *)
Definition valid_store (d : Dict.t Employee) : bool :=
  forallb (fun item => String.eqb (fst item) (ID (snd item))
                       && valid_record (snd item)) d
  && distinct String.eqb (Dict.keys d)
  && distinct option_string_eqb (map Email (Dict.values d)).

Definition within_limit (s : string) : bool :=
  (N.of_nat (String.length s) <=? Csv.field_limit)%N.

(** No text of a record is longer than the field size limit of the CSV
    reader. *)
Definition fields_within_limit (d : Dict.t Employee) : bool :=
  forallb (fun item =>
             let e := snd item in
             within_limit (ID e) && within_limit (cell (Name e))
             && within_limit (cell (Position e)) && within_limit (cell (Email e)))
          d.

(** Two stores hold the same records. *)
Definition same_records (d d' : Dict.t Employee) : Prop :=
  forall k, Dict.get d' k = Dict.get d k.

(** The records that the rows of a file give when no row fails: a row
    without an identifier gives none, and a later row replaces an earlier
    one of the same identifier. *)
Definition records_of (rows : list Csv.row) : Dict.t Employee :=
  fold_left (fun d r => match load_row r with
                        | inl (Some e) => Dict.set d (ID e) e
                        | _ => d
                        end) rows [].

Definition row_loads (r : Csv.row) : Prop :=
  exists oe, load_row r = inl oe.

Definition has_no_id (r : Csv.row) : Prop :=
  Csv.row_lookup r "ID" = None \/ Csv.row_lookup r "ID" = Some None \/
  Csv.row_lookup r "ID" = Some (Some "").

(** A row gives the record [e]: its identifier is there and is not empty,
    its four other columns are there, and [e] has the texts of the row
    (or [None] where the row ends before the column) and the float read
    from the text of its salary. *)
Definition loads_as (r : Csv.row) (e : Employee) : Prop :=
  Csv.row_lookup r "ID" = Some (Some (ID e)) /\ ID e <> "" /\
  Csv.row_lookup r "Name" = Some (Name e) /\
  Csv.row_lookup r "Position" = Some (Position e) /\
  Csv.row_lookup r "Email" = Some (Email e) /\
  exists text, Csv.row_lookup r "Salary" = Some (Some text) /\
               PyFloat.of_string text = Some (Salary e).

(** A row with an identifier gives no record: a column is not in the
    header ([KeyError]), the row ends before the salary ([float(None)],
    a [TypeError]), or the text of the salary is not a number
    ([ValueError]).  The columns are looked up in the order of the
    source: name, position, salary, email. *)
Inductive row_fails (r : Csv.row) : exception -> Prop :=
| no_name_column :
    ~ has_no_id r -> Csv.row_lookup r "Name" = None ->
    row_fails r (KeyError "Name")
| no_position_column name :
    ~ has_no_id r -> Csv.row_lookup r "Name" = Some name ->
    Csv.row_lookup r "Position" = None ->
    row_fails r (KeyError "Position")
| no_salary_column name position :
    ~ has_no_id r -> Csv.row_lookup r "Name" = Some name ->
    Csv.row_lookup r "Position" = Some position ->
    Csv.row_lookup r "Salary" = None ->
    row_fails r (KeyError "Salary")
| salary_is_none name position :
    ~ has_no_id r -> Csv.row_lookup r "Name" = Some name ->
    Csv.row_lookup r "Position" = Some position ->
    Csv.row_lookup r "Salary" = Some None ->
    row_fails r TypeError
| salary_is_no_number name position text :
    ~ has_no_id r -> Csv.row_lookup r "Name" = Some name ->
    Csv.row_lookup r "Position" = Some position ->
    Csv.row_lookup r "Salary" = Some (Some text) ->
    PyFloat.of_string text = None ->
    row_fails r (ValueError text)
| no_email_column name position text salary :
    ~ has_no_id r -> Csv.row_lookup r "Name" = Some name ->
    Csv.row_lookup r "Position" = Some position ->
    Csv.row_lookup r "Salary" = Some (Some text) ->
    PyFloat.of_string text = Some salary ->
    Csv.row_lookup r "Email" = None ->
    row_fails r (KeyError "Email").

(** A row that the loop gets through: it has no identifier, or it gives
    a record. *)
Definition passes (r : Csv.row) : Prop :=
  has_no_id r \/ exists e, loads_as r e.

(** [e] is the record of the last of the rows that has the identifier
    [k]. *)
Definition last_record (rows : list Csv.row) (k : string) (e : Employee) : Prop :=
  exists pre r post,
    rows = (pre ++ r :: post)%list /\ loads_as r e /\ ID e = k /\
    Forall (fun r' => Csv.row_lookup r' "ID" <> Some (Some k)) post.

(* ================================================================== *)
(** * Notions of the statements and of the proofs *)

(** ** Worlds of the examples *)

(** No file yet, in a directory that can be written. *)
Definition empty_disk : file :=
  {| content := None; readable := true; writable := true |}.

(** A world with one record, used in the examples. *)
Definition one_record : world :=
  world_of (add_employee (init empty_disk)
              ["E1"; "Ana"; "Engineer"; "75000"; "ana@x.com"; ""]).

Definition ana : Employee :=
  {| ID := "E1"; Name := Some "Ana"; Position := Some "Engineer";
     Salary := S754_finite false 5153960755200000 (-36);
     Email := Some "ana@x.com" |}.

(** The same world with a file that cannot be written any more. *)
Definition read_only (w : world) : world :=
  set_disk w {| content := content (disk w); readable := true; writable := false |}.

(** A record whose name is [n] letters long. *)
Definition long_name (n : nat) : Employee :=
  {| ID := "E1"; Name := Some (Str.replicate n "a"); Position := Some "Engineer";
     Salary := S754_finite false 5153960755200000 (-36);
     Email := Some "ana@x.com" |}.

(** The helpers that prompt never touch the mapping or the file. *)
Definition same_store (w w' : world) : Prop :=
  employees w' = employees w /\ disk w' = disk w.

(** The records stored under the identifiers [ids], in that order. *)
Definition records (d : Dict.t Employee) (ids : list string) : list Employee :=
  flat_map (fun k => match Dict.get d k with Some e => [e] | None => [] end) ids.

(** What [_load_from_csv] does with one row that it can read. *)
Definition load_step (d : Dict.t Employee) (r : Csv.row) : Dict.t Employee :=
  match load_row r with
  | inl (Some e) => Dict.set d (ID e) e
  | _ => d
  end.

(** ** The CSV reader, one token at a time *)

Module CsvAux.
Import Csv.

Definition result : Type := list (list string) * option error.

Definition cons_row (r : list string) (res : result) : result :=
  (r :: fst res, snd res).

Definition mk (s : state) (fs : list string) (buf : string) : parser :=
  {| st := s; fields := fs; field := buf |}.

(** The lines left when the characters read so far are a line that has
    not ended ([open_lines]), or a line that ends with CR up to now
    ([cr_lines]). *)
Definition open_lines (s : string) : list string :=
  match lines_of s with [] => [""] | ls => ls end.

Definition cr_lines (s : string) : list string :=
  match s with
  | String c s' => if Ascii.eqb c LF then String LF "" :: lines_of s'
                   else "" :: lines_of s
  | EmptyString => [""]
  end.

Definition step (p : parser) (t : token) (k : parser -> result) : result :=
  match parse_process_char p t with
  | inl p' => k p'
  | inr e => ([], Some e)
  end.

(** The end of a line, followed by the lines of [s]. *)
Definition eol (p : parser) (s : string) : result :=
  step p EOL (fun p' =>
    if state_eqb (st p') START_RECORD
    then cons_row (fields p') (read_lines parse_reset (lines_of s))
    else read_lines p' (lines_of s)).

(** A field that the reader accepts: not longer than the limit. *)
Definition fits (s : string) : Prop :=
  (N.of_nat (String.length s) <= field_limit)%N.

(** A field between quotes, as the writer prints it. *)
Definition quoted (f : string) : string :=
  String quote (double_quotes f ++ String quote "").

(** The states in which a field starts. *)
Definition starting (s0 : state) : Prop := s0 = START_FIELD \/ s0 = START_RECORD.

(** The states in which a field ends at a delimiter. *)
Definition ending (s0 : state) : Prop :=
  s0 = IN_FIELD \/ s0 = QUOTE_IN_QUOTED_FIELD \/ s0 = START_FIELD.

(** The text of several rows. *)
Fixpoint write_rows (rows : list (list string)) : string :=
  match rows with
  | [] => ""
  | r :: rs => writerow r ++ write_rows rs
  end.

End CsvAux.

(** ** Floats and their decimal texts *)

Module FloatAux.
Import PyFloat.
Local Open Scope Z_scope.

(** The mantissa and the exponent above [-1074] of a binary64 number. *)
Definition canonical (M s : Z) : Prop :=
  0 < M < 2 ^ 53 /\ 0 <= s <= 2045 /\ (2 ^ 52 <= M \/ s = 0).

(** The denominator of a decimal with exponent [k]. *)
Definition power_of (k : Z) : Z := if 0 <=? k then 1 else 10 ^ (- k).

(** Texts made of decimal digits. *)
Definition all_digits (s : string) : Prop := Str.forallb is_digit s = true.

(** A text that does not start with a digit. *)
Definition no_digit_head (s : string) : Prop :=
  match s with String c _ => is_digit c = false | EmptyString => True end.

(** The characters that [float] reads as they are: no white space, no
  underscore. *)
Definition plain (c : ascii) : bool :=
  negb (float_space c) && negb (Ascii.eqb c "_").

End FloatAux.

(* ================================================================== *)
(** * The table of the employees and the menu *)

(** ** Format specifications *)

Module Fmt.

(** [format(s, '<n')] and [format(s, '>n')] for a text [s]: spaces fill
    the width, and a longer text is left as it is. *)
Definition ljust (n : nat) (s : string) : string :=
  s ++ Str.replicate (n - String.length s) " ".

Definition rjust (n : nat) (s : string) : string :=
  Str.replicate (n - String.length s) " " ++ s.

(** [format(v, '<n')] for a value of a record: [None] has no format of
    that kind, which is a [TypeError]. *)
Definition left (n : nat) (v : option string) : string + exception :=
  match v with
  | Some s => inl (ljust n s)
  | None => inr TypeError
  end.

(** The number of hundredths nearest to [m * 2^e], the even one of two
    that are as near. *)
Definition cents (m : positive) (e : Z) : Z :=
  (if 0 <=? e then Zpos m * 2 ^ e * 100
   else
     let n := Zpos m * 100 in
     let d := 2 ^ (- e) in
     let q := n / d in
     match 2 * (n mod d) ?= d with
     | Lt => q
     | Eq => if Z.even q then q else q + 1
     | Gt => q + 1
     end)%Z.

(** A comma before every group of three digits, counted from the right. *)
Fixpoint group (digits : string) : string :=
  match digits with
  | EmptyString => EmptyString
  | String c rest =>
      let n := String.length rest in
      if (0 <? n) && (n mod 3 =? 0) then String c (String "," (group rest))
      else String c (group rest)
  end.

(** Two digits. *)
Definition two (n : Z) : string :=
  if (n <? 10)%Z then String "0" (PyFloat.str_of_nat n) else PyFloat.str_of_nat n.

Definition sign (s : bool) (text : string) : string :=
  if s then String "-" text else text.

(** [format(x, ',.2f')] *)
Definition fixed2 (x : PyFloat.float) : string :=
  match x with
  | S754_nan => "nan"
  | S754_infinity s => sign s "inf"
  | S754_zero s => sign s "0.00"
  | S754_finite s m e =>
      let c := cents m e in
      sign s (group (PyFloat.str_of_nat (c / 100)) ++ "." ++ two (c mod 100))
  end.

(** [format(x, '>12,.2f')] *)
Definition money (x : PyFloat.float) : string := rjust 12 (fixed2 x).

End Fmt.

(** ** [view_all_employees]

    As for the other methods the banner and the rules are left out. *)

(** How a method that may raise ends: as the others do, or with an
    exception that nothing catches. *)
Inductive ending (A : Type) : Type :=
| Ends (o : outcome A)
| Raises (e : exception) (w : world).
Arguments Ends {A} o.
Arguments Raises {A} e w.

Definition view_header : string :=
  nl ++ Fmt.ljust 10 "ID" ++ " " ++ Fmt.ljust 25 "Name" ++ " "
  ++ Fmt.ljust 20 "Position" ++ " " ++ Fmt.ljust 15 "Salary" ++ " "
  ++ Fmt.ljust 30 "Email".

(** The line of a record; the values are formatted from left to right. *)
Definition view_row (e : Employee) : string + exception :=
  match Fmt.left 25 (Name e) with
  | inr ex => inr ex
  | inl name =>
      match Fmt.left 20 (Position e) with
      | inr ex => inr ex
      | inl position =>
          match Fmt.left 30 (Email e) with
          | inr ex => inr ex
          | inl email =>
              inl (Fmt.ljust 10 (ID e) ++ " " ++ name ++ " " ++ position
                   ++ " $" ++ Fmt.money (Salary e) ++ "   " ++ email)
          end
      end
  end.

(** The loop over [self._employees.values()]. *)
Fixpoint view_rows (es : list Employee) (w : world) : world + exception * world :=
  match es with
  | [] => inl w
  | e :: es' =>
      match view_row e with
      | inl line => view_rows es' (emit w (Print line))
      | inr ex => inr (ex, w)
      end
  end.

Definition no_employees_found : string := nl ++ "No employees found in the system.".
Definition add_some_first : string := "Please add some employees first.".

Definition total_employees (d : Dict.t Employee) : string :=
  "Total Employees: " ++ PyFloat.str_of_nat (Z.of_nat (List.length d)).

Definition view_all_employees (w : world) (inp : list string) : ending unit :=
  let d := employees w in
  if Dict.is_empty d then
    Ends ((print no_employees_found ;;; print add_some_first ;;; input ;;; ret tt)
            w inp)
  else
    match view_rows (Dict.values d) (emit w (Print view_header)) with
    | inl w' => Ends ((print (total_employees d) ;;; input ;;; ret tt) w' inp)
    | inr (ex, w') => Raises ex w'
    end.

(** ** [run]

    The lines of the menu are printed at every turn (the banner and the
    rule around them are left out). *)

Definition menu : list string :=
  [nl ++ "Main Menu:"; "  1. Add Employee"; "  2. View All Employees";
   "  3. Update Employee"; "  4. Delete Employee"; "  5. Search Employee";
   "  6. Exit"].

Definition goodbye : list string :=
  ["  Thank you for using Employee Management System!";
   "  Goodbye!, With Nour Regards"].

Definition invalid_choice : string :=
  nl ++ "Invalid choice! Please enter a number between 1 and 6.".

Definition print_all (lines : list string) (w : world) : world :=
  fold_left (fun w' line => emit w' (Print line)) lines w.

(** How the program ends: by the choice 6, by the [EOFError] of an
    [input()] that finds no line, or by another exception; nothing
    catches either.  [Unfinished] is the loop cut short by the fuel. *)
Inductive finish : Type :=
| Exit (w : world)
| EndOfInput (w : world)
| Uncaught (e : exception) (w : world)
| Unfinished (w : world) (inp : list string).

Fixpoint run_loop (fuel : nat) (w : world) (inp : list string) : finish :=
  match fuel with
  | O => Unfinished w inp
  | S fuel' =>
      let w := print_all menu w in
      match inp with
      | [] => EndOfInput w
      | line :: rest =>
          let choice := Str.strip line in
          let next (o : outcome unit) : finish :=
            match o with
            | Done _ w' rest' => run_loop fuel' w' rest'
            | EOFError w' => EndOfInput w'
            end in
          if String.eqb choice "1" then next (add_employee w rest)
          else if String.eqb choice "2" then
            match view_all_employees w rest with
            | Ends o => next o
            | Raises e w' => Uncaught e w'
            end
          else if String.eqb choice "3" then next (update_employee w rest)
          else if String.eqb choice "4" then next (delete_employee w rest)
          else if String.eqb choice "5" then next (search_employee w rest)
          else if String.eqb choice "6" then Exit (print_all goodbye w)
          else next ((print invalid_choice ;;; input ;;; ret tt) w rest)
      end
  end.

(** Every turn of the loop reads a line, so that one turn more than
    there are lines is enough. *)
Definition run (w : world) (inp : list string) : finish :=
  run_loop (S (List.length inp)) w inp.

(** [manager = EmployeeManager()] then [manager.run()] *)
Definition main (f : file) (inp : list string) : finish := run (init f) inp.

(** The world in which the program ends. *)
Definition last_world (r : finish) : world :=
  match r with
  | Exit w | EndOfInput w | Uncaught _ w | Unfinished w _ => w
  end.

(** ** What the operations keep *)

(** The error messages of the lines that a helper rejected. *)
Definition complain (w : world) (errors : list string) : world :=
  fold_left (fun w' error => emit w' (Print ("Error: " ++ error))) errors w.

(** [validator] rejects the trimmed text of [line] with [error]. *)
Definition rejects {A} (validator : string -> verdict A) (line error : string)
  : Prop :=
  validator (Str.strip line) = Invalid error.

(** The three texts of the record are there. *)
Definition complete (e : Employee) : bool :=
  match Name e, Position e, Email e with
  | Some _, Some _, Some _ => true
  | _, _, _ => false
  end.

(** What the validators of [add] and [update] let through: an identifier,
    a name and a position that are not blank, a salary that is not
    [<= 0], an email that [validate_email] accepts. *)
Definition kept_record (e : Employee) : bool :=
  negb (Str.blank (ID e)) && text_ok (Name e) && text_ok (Position e)
  && negb (PyFloat.le_zero (Salary e))
  && match Email e with
     | Some m => is_valid (validate_email m)
     | None => false
     end.

(** Every record is stored under its identifier, and no two records have
    the same identifier. *)
Definition keyed (d : Dict.t Employee) : bool :=
  forallb (fun item => String.eqb (fst item) (ID (snd item))) d
  && distinct String.eqb (Dict.keys d).

(** The invariant of the store: keyed, made of records that the
    validators let through, no two of them with the same email. *)
Definition kept_store (d : Dict.t Employee) : bool :=
  keyed d
  && forallb (fun item => kept_record (snd item)) d
  && distinct option_string_eqb (map Email (Dict.values d)).

(** The file holds the text of the mapping. *)
Definition in_sync (w : world) : Prop :=
  content (disk w) = Some (csv_text (employees w)).

(** Ascending order of texts, by code points. *)
Fixpoint ascending (l : list string) : bool :=
  match l with
  | [] => true
  | x :: l' => forallb (String.leb x) l' && ascending l'
  end.

(** ** What a change of the store has done *)

(** The file after [_save_to_csv] has tried to write the mapping [d]. *)
Definition saved_disk (f : file) (d : Dict.t Employee) : file :=
  match open_write f (csv_text d) with
  | inl f' => f'
  | inr _ => f
  end.

(** [add] has stored a record: five lines were accepted. *)
Definition add_effect (w w' : world) : Prop :=
  exists i n p s m v,
    validate_employee_id (Str.strip i) (Dict.keys (employees w)) = Valid tt /\
    validate_required_field (Str.strip n) "Name" = Valid tt /\
    validate_required_field (Str.strip p) "Position" = Valid tt /\
    validate_salary (Str.strip s) = Valid v /\
    validate_unique_email (Str.strip m) (map Email (Dict.values (employees w)))
    = Valid tt /\
    employees w'
    = Dict.set (employees w) (Str.strip i)
        {| ID := Str.strip i; Name := Some (Str.strip n);
           Position := Some (Str.strip p); Salary := v;
           Email := Some (Str.strip m) |} /\
    disk w' = saved_disk (disk w) (employees w').

(** [update] has stored the record of the identifier typed again, each
    value being the current one or one that its validator accepted. *)
Definition update_effect (w w' : world) : Prop :=
  exists typed e l1 l2 l3 l4 name position salary email,
    Dict.get (employees w) (Str.strip typed) = Some e /\
    accepts (Name e) (returning Some (fun v => validate_required_field v "Name"))
      l1 name /\
    accepts (Position e)
      (returning Some (fun v => validate_required_field v "Position")) l2 position /\
    accepts (Salary e) validate_salary l3 salary /\
    accepts (Email e)
      (returning Some
         (fun v => validate_unique_email v
                     (other_emails (employees w) (Str.strip typed)))) l4 email /\
    employees w'
    = Dict.set (employees w) (Str.strip typed)
        {| ID := Str.strip typed; Name := name; Position := position;
           Salary := salary; Email := email |} /\
    disk w' = saved_disk (disk w) (employees w').

(** [delete] has removed the record of the identifier typed. *)
Definition delete_effect (w w' : world) : Prop :=
  exists typed e,
    Dict.get (employees w) (Str.strip typed) = Some e /\
    employees w' = Dict.del (employees w) (Str.strip typed) /\
    disk w' = saved_disk (disk w) (employees w').

(** ** The turns of the menu *)

(** One turn of [run] after the menu is printed; [k] is what follows. *)
Definition turn (k : world -> list string -> finish) (w : world)
    (line : string) (rest : list string) : finish :=
  let choice := Str.strip line in
  let next (o : outcome unit) : finish :=
    match o with
    | Done _ w' rest' => k w' rest'
    | EOFError w' => EndOfInput w'
    end in
  if String.eqb choice "1" then next (add_employee w rest)
  else if String.eqb choice "2" then
    match view_all_employees w rest with
    | Ends o => next o
    | Raises e w' => Uncaught e w'
    end
  else if String.eqb choice "3" then next (update_employee w rest)
  else if String.eqb choice "4" then next (delete_employee w rest)
  else if String.eqb choice "5" then next (search_employee w rest)
  else if String.eqb choice "6" then Exit (print_all goodbye w)
  else next ((print invalid_choice ;;; input ;;; ret tt) w rest).

(** What a turn can have done to the mapping and to the file. *)
Definition changed (w w' : world) : Prop :=
  same_store w w' \/ add_effect w w' \/ update_effect w w' \/ delete_effect w w'.

(* ================================================================= *)
(** * Properties *)

(** ** Facts on strings *)

Lemma append_nil_r (s : string) : s ++ "" = s.
Proof. induction s as [|c s IH]; simpl; [reflexivity | now rewrite IH]. Qed.

Lemma append_assoc (a b c : string) : (a ++ b) ++ c = a ++ (b ++ c).
Proof. induction a as [|x a IH]; simpl; [reflexivity | now rewrite IH]. Qed.

Lemma length_append (a b : string) :
  String.length (a ++ b) = String.length a + String.length b.
Proof. induction a as [|x a IH]; simpl; [reflexivity | now rewrite IH]. Qed.

Lemma inb_In (x : string) (xs : list string) : Str.inb x xs = true <-> In x xs.
Proof.
  unfold Str.inb. rewrite existsb_exists. split.
  - intros (y & Hy & E). apply String.eqb_eq in E. now subst.
  - intros H. exists x. split; [assumption | apply String.eqb_refl].
Qed.

Section Strip.
Variable p : ascii -> bool.

Lemma rstrip_with_idem (s : string) :
  Str.rstrip_with p (Str.rstrip_with p s) = Str.rstrip_with p s.
Proof.
  induction s as [|c s IH]; simpl; [reflexivity|].
  destruct (Str.rstrip_with p s) as [|d r] eqn:E.
  - destruct (p c) eqn:Ec; simpl; [reflexivity | now rewrite Ec].
  - simpl in *. now rewrite IH.
Qed.

Lemma lstrip_with_length (s : string) :
  String.length (Str.lstrip_with p s) <= String.length s.
Proof.
  induction s as [|x s IH]; simpl; [lia|].
  destruct (p x); simpl; lia.
Qed.

Lemma lstrip_rstrip_head (s : string) :
  Str.lstrip_with p s = s ->
  Str.lstrip_with p (Str.rstrip_with p s) = Str.rstrip_with p s.
Proof.
  destruct s as [|c s]; simpl; [reflexivity|].
  destruct (p c) eqn:Ec.
  - intros H. exfalso.
    pose proof (lstrip_with_length s) as L.
    rewrite H in L. simpl in L. lia.
  - intros _. destruct (Str.rstrip_with p s); simpl; now rewrite Ec.
Qed.

Lemma lstrip_with_idem (s : string) :
  Str.lstrip_with p (Str.lstrip_with p s) = Str.lstrip_with p s.
Proof.
  induction s as [|c s IH]; simpl; [reflexivity|].
  destruct (p c) eqn:Ec; [assumption | simpl; now rewrite Ec].
Qed.

Lemma strip_with_idem (s : string) :
  Str.strip_with p (Str.strip_with p s) = Str.strip_with p s.
Proof.
  unfold Str.strip_with.
  rewrite (lstrip_rstrip_head (Str.lstrip_with p s) (lstrip_with_idem s)).
  apply rstrip_with_idem.
Qed.
End Strip.

(** Stripping twice is stripping once: a stored, stripped identifier is
    found again when the operator types it. *)
Lemma strip_idem (s : string) : Str.strip (Str.strip s) = Str.strip s.
Proof. apply strip_with_idem. Qed.

Lemma blank_strip (s : string) : Str.blank s = negb (Str.truthy (Str.strip s)).
Proof.
  unfold Str.blank. destruct s; simpl; [reflexivity|reflexivity].
Qed.

Lemma blank_strip_idem (s : string) : Str.blank (Str.strip s) = Str.blank s.
Proof. now rewrite !blank_strip, strip_idem. Qed.

(** ** Floats: the conversions on examples *)

Example float_50000_5 :
  PyFloat.of_string "50000.5" = Some (S754_finite false 6872016393076736 (-37)).
Proof. vm_compute. reflexivity. Qed.

Example email_examples :
  is_valid (validate_email "a@b.com") = true /\
  is_valid (validate_email "not-an-email") = false /\
  is_valid (validate_email "") = false /\
  is_valid (validate_email "a@b") = false.
Proof. vm_compute. auto. Qed.

(** ** The matcher of regular expressions *)

Module RegexFacts.
Import Regex.

Lemma nullable_lang (r : re) : nullable r = true <-> lang r "".
Proof.
  induction r as [|p|r1 IH1 r2 IH2|r IH]; simpl.
  - split; [constructor | reflexivity].
  - split; [discriminate | intros H; inversion H].
  - rewrite andb_true_iff, IH1, IH2. split.
    + intros [H1 H2]. apply (L_Cat _ _ "" "" H1 H2).
    + intros H. inversion H as [| |? ? s1 s2 H1 H2 E| |]; subst.
      destruct s1; [|discriminate]. simpl in *. subst. auto.
  - split; [constructor | reflexivity].
Qed.

(** A text of [Star r] that starts with [c] starts with a non-empty
    text of [r]. *)
Lemma star_cons_inv (r : re) (s : string) :
  lang (Star r) s -> forall c s', s = String c s' ->
  exists s1 s2, s' = s1 ++ s2 /\ lang r (String c s1) /\ lang (Star r) s2.
Proof.
  remember (Star r) as q eqn:Eq. intros H.
  induction H as [| | | |r0 s1 s2 H1 _ H2 IH2]; try discriminate.
  injection Eq as ->. intros c s' E.
  destruct s1 as [|c1 s1].
  - simpl in E. apply (IH2 eq_refl c s' E).
  - simpl in E. injection E as -> <-. exists s1, s2. auto.
Qed.

Lemma deriv_lang (r : re) (c : ascii) (s : string) :
  (exists d, In d (deriv c r) /\ lang d s) <-> lang r (String c s).
Proof.
  revert s. induction r as [|p|r1 IH1 r2 IH2|r IH]; intros s; simpl.
  - split; [intros (d & [] & _) | intros H; inversion H].
  - split.
    + intros (d & Hd & L). destruct (p c) eqn:E; [|destruct Hd].
      destruct Hd as [<-|[]]. inversion L; subst. now constructor.
    + intros H. inversion H as [|? ? Hp| | |]; subst. rewrite Hp.
      exists Eps. split; [now left|constructor].
  - split.
    + intros (d & Hd & L). apply in_app_or in Hd. destruct Hd as [Hd|Hd].
      * apply in_map_iff in Hd. destruct Hd as (d1 & <- & Hd1).
        inversion L as [| |? ? s1 s2 L1 L2 E| |]; subst.
        apply (L_Cat r1 r2 (String c s1) s2); [|assumption].
        apply IH1. eauto.
      * destruct (nullable r1) eqn:N; [|destruct Hd].
        apply (L_Cat r1 r2 "" (String c s)).
        -- now apply nullable_lang.
        -- apply IH2. eauto.
    + intros H. inversion H as [| |? ? s1 s2 L1 L2 [E1 E2] E| |]. subst.
      destruct s1 as [|c1 s1]; simpl in E.
      * subst s2. apply IH2 in L2. destruct L2 as (d & Hd & L).
        exists d. split; [|assumption]. apply in_or_app. right.
        apply nullable_lang in L1. now rewrite L1.
      * injection E as -> <-. apply IH1 in L1. destruct L1 as (d & Hd & L).
        exists (Cat d r2). split; [|now constructor].
        apply in_or_app. left. apply in_map_iff. eauto.
  - split.
    + intros (d & Hd & L). apply in_map_iff in Hd. destruct Hd as (d1 & <- & Hd1).
      inversion L as [| |? ? s1 s2 L1 L2 E| |]; subst.
      apply (L_Star_cons r (String c s1) s2); [|assumption].
      apply IH. eauto.
    + intros H. destruct (star_cons_inv r _ H c s eq_refl) as (s1 & s2 & -> & L1 & L2).
      apply IH in L1. destruct L1 as (d & Hd & L).
      exists (Cat d (Star r)). split; [|now constructor].
      apply in_map_iff. eauto.
Qed.

Lemma matches_any_lang (s : string) : forall rs,
  matches_any rs s = true <-> exists r, In r rs /\ lang r s.
Proof.
  induction s as [|c s IH]; intros rs; simpl.
  - rewrite existsb_exists. split; intros (r & Hr & H); exists r;
      (split; [assumption | now apply nullable_lang]).
  - rewrite IH. split.
    + intros (d & Hd & L). apply in_flat_map in Hd. destruct Hd as (r & Hr & Hd).
      exists r. split; [assumption|]. apply deriv_lang. eauto.
    + intros (r & Hr & L). apply deriv_lang in L. destruct L as (d & Hd & L).
      exists d. split; [|assumption]. apply in_flat_map. eauto.
Qed.

(** The matcher decides membership in the language of the pattern. *)
Lemma fullmatch_lang (r : re) (s : string) : fullmatch r s = true <-> lang r s.
Proof.
  unfold fullmatch. rewrite matches_any_lang. split.
  - intros (r' & [<-|[]] & L). exact L.
  - intros L. exists r. split; [now left | exact L].
Qed.

Lemma lang_eps (s : string) : lang Eps s <-> s = "".
Proof. split; [intros H; now inversion H | intros ->; constructor]. Qed.

Lemma lang_class (p : ascii -> bool) (s : string) :
  lang (Class p) s <-> exists c, s = String c "" /\ p c = true.
Proof.
  split.
  - intros H. inversion H; subst. eauto.
  - intros (c & -> & H). now constructor.
Qed.

Lemma lang_cat (r1 r2 : re) (s : string) :
  lang (Cat r1 r2) s <-> exists s1 s2, s = s1 ++ s2 /\ lang r1 s1 /\ lang r2 s2.
Proof.
  split.
  - intros H. inversion H; subst. eauto.
  - intros (s1 & s2 & -> & H1 & H2). now constructor.
Qed.

Lemma lang_star_class (p : ascii -> bool) (s : string) :
  lang (Star (Class p)) s <-> Str.forallb p s = true.
Proof.
  split.
  - remember (Star (Class p)) as q eqn:Eq. intros H.
    induction H as [| | | |r0 s1 s2 H1 _ H2 IH2]; try discriminate; [reflexivity|].
    injection Eq as ->. inversion H1 as [|? ? Hp| | |]; subst. simpl.
    rewrite Hp. simpl. now apply IH2.
  - induction s as [|c s IH]; simpl; [constructor|].
    rewrite andb_true_iff. intros [Hc Hs].
    apply (L_Star_cons _ (String c "") s); [now constructor | auto].
Qed.

Lemma lang_plus_class (p : ascii -> bool) (s : string) :
  lang (Plus (Class p)) s <-> s <> "" /\ Str.forallb p s = true.
Proof.
  unfold Plus. rewrite lang_cat. split.
  - intros (s1 & s2 & -> & H1 & H2). apply lang_class in H1.
    destruct H1 as (c & -> & Hc). apply lang_star_class in H2. simpl.
    rewrite Hc, H2. split; [discriminate | reflexivity].
  - intros [Hne H]. destruct s as [|c s]; [congruence|]. simpl in H.
    apply andb_true_iff in H. destruct H as [Hc Hs].
    exists (String c ""), s. repeat split.
    + apply lang_class. eauto.
    + now apply lang_star_class.
Qed.

Lemma lang_atleast2_class (p : ascii -> bool) (s : string) :
  lang (AtLeast2 (Class p)) s <-> 2 <= String.length s /\ Str.forallb p s = true.
Proof.
  unfold AtLeast2. rewrite lang_cat. split.
  - intros (s1 & s2 & -> & H1 & H2). apply lang_class in H1.
    destruct H1 as (c & -> & Hc). apply lang_cat in H2.
    destruct H2 as (s3 & s4 & -> & H3 & H4). apply lang_class in H3.
    destruct H3 as (c' & -> & Hc'). apply lang_star_class in H4. simpl.
    rewrite Hc, Hc', H4. split; [lia | reflexivity].
  - intros [Hlen H]. destruct s as [|c [|c' s]]; simpl in Hlen; try lia.
    simpl in H. apply andb_true_iff in H. destruct H as [Hc H].
    apply andb_true_iff in H. destruct H as [Hc' Hs].
    exists (String c ""), (String c' s). repeat split.
    + apply lang_class. eauto.
    + apply lang_cat. exists (String c' ""), s. repeat split.
      * apply lang_class. eauto.
      * now apply lang_star_class.
Qed.

End RegexFacts.

(** ** The validators *)

Lemma forallb_all_chars (p : ascii -> bool) (P : ascii -> Prop) (s : string) :
  (forall c, p c = true <-> P c) ->
  Str.forallb p s = true <-> all_chars P s.
Proof.
  intros Hp. unfold all_chars. induction s as [|c s IH]; simpl.
  - split; [discriminate | reflexivity].
  - rewrite andb_true_iff, IH, Hp. split.
    + intros [Hc Hs] x Hx. apply orb_true_iff in Hx. destruct Hx as [Hx|Hx].
      * apply Ascii.eqb_eq in Hx. now subst.
      * now apply Hs.
    + intros H. split.
      * apply H. now rewrite Ascii.eqb_refl.
      * intros x Hx. apply H. rewrite Hx. apply orb_true_r.
Qed.

Lemma lstrip_nil_iff (p : ascii -> bool) (s : string) :
  Str.lstrip_with p s = "" <-> Str.forallb p s = true.
Proof.
  induction s as [|c s IH]; simpl; [tauto|].
  destruct (p c); simpl; [exact IH | split; discriminate].
Qed.

Lemma rstrip_lstrip_nil (p : ascii -> bool) (s : string) :
  Str.rstrip_with p (Str.lstrip_with p s) = "" <-> Str.lstrip_with p s = "".
Proof.
  split; [|intros ->; reflexivity].
  induction s as [|c s IH]; simpl; [reflexivity|].
  destruct (p c) eqn:E; [exact IH|]. simpl.
  destruct (Str.rstrip_with p s); rewrite ?E; discriminate.
Qed.

(** A text is blank for the validators when it is empty or made of white
    space only. *)
Lemma blank_iff (s : string) : Str.blank s = true <-> all_whitespace s.
Proof.
  rewrite blank_strip.
  change (all_whitespace s) with (all_chars (fun c => Str.isspace c = true) s).
  rewrite <- (forallb_all_chars Str.isspace (fun c => Str.isspace c = true))
    by tauto.
  rewrite <- lstrip_nil_iff, <- rstrip_lstrip_nil.
  fold (Str.strip_with Str.isspace s). fold (Str.strip s).
  destruct (Str.strip s); simpl; split; congruence.
Qed.

Lemma letter_iff (c : ascii) : Regex.letter c = true <-> spec_letter c.
Proof.
  unfold Regex.letter, Regex.in_range, spec_letter.
  rewrite orb_true_iff, !andb_true_iff, !Nat.leb_le. tauto.
Qed.

Lemma digit_iff (c : ascii) : Regex.digit c = true <-> spec_digit c.
Proof.
  unfold Regex.digit, Regex.in_range, spec_digit.
  rewrite andb_true_iff, !Nat.leb_le. tauto.
Qed.

Lemma local_char_iff (c : ascii) : local_char c = true <-> spec_local c.
Proof.
  unfold local_char, spec_local, Regex.one_of. simpl.
  rewrite !orb_true_iff, letter_iff, digit_iff, !Ascii.eqb_eq. intuition congruence.
Qed.

Lemma domain_char_iff (c : ascii) : domain_char c = true <-> spec_domain c.
Proof.
  unfold domain_char, spec_domain, Regex.one_of. simpl.
  rewrite !orb_true_iff, letter_iff, digit_iff, !Ascii.eqb_eq. intuition congruence.
Qed.

(** The pattern of the source matches the addresses of the shape that the
    specification describes. *)
Lemma email_pattern_shape (s : string) :
  Regex.fullmatch EMAIL_PATTERN s = true <-> email_shape s.
Proof.
  rewrite RegexFacts.fullmatch_lang. unfold EMAIL_PATTERN, email_shape. split.
  - intros H.
    apply RegexFacts.lang_cat in H. destruct H as (s0 & t0 & -> & H0 & H).
    apply RegexFacts.lang_eps in H0. subst s0. simpl.
    apply RegexFacts.lang_cat in H. destruct H as (l & t1 & -> & Hl & H).
    apply RegexFacts.lang_cat in H. destruct H as (a & t2 & -> & Ha & H).
    apply RegexFacts.lang_cat in H. destruct H as (d & t3 & -> & Hd & H).
    apply RegexFacts.lang_cat in H. destruct H as (o & t4 & -> & Ho & H).
    apply RegexFacts.lang_cat in H. destruct H as (t & e & -> & Ht & He).
    apply RegexFacts.lang_eps in He. subst e. rewrite append_nil_r.
    apply RegexFacts.lang_class in Ha. destruct Ha as (ca & -> & Hca).
    apply Ascii.eqb_eq in Hca. subst ca.
    apply RegexFacts.lang_class in Ho. destruct Ho as (co & -> & Hco).
    apply Ascii.eqb_eq in Hco. subst co.
    apply RegexFacts.lang_plus_class in Hl. destruct Hl as [Hl1 Hl2].
    apply RegexFacts.lang_plus_class in Hd. destruct Hd as [Hd1 Hd2].
    apply RegexFacts.lang_atleast2_class in Ht. destruct Ht as [Ht1 Ht2].
    exists l, d, t. repeat split; try assumption.
    + now apply (forallb_all_chars local_char spec_local l local_char_iff).
    + now apply (forallb_all_chars domain_char spec_domain d domain_char_iff).
    + now apply (forallb_all_chars Regex.letter spec_letter t letter_iff).
  - intros (l & d & t & -> & Hl1 & Hl2 & Hd1 & Hd2 & Ht1 & Ht2).
    apply (RegexFacts.lang_cat _ _ _). exists "", (l ++ "@" ++ d ++ "." ++ t).
    split; [reflexivity|]. split; [constructor|].
    apply RegexFacts.lang_cat. exists l, ("@" ++ d ++ "." ++ t).
    split; [reflexivity|]. split.
    { apply RegexFacts.lang_plus_class. split; [assumption|].
      now apply (forallb_all_chars local_char spec_local l local_char_iff). }
    apply RegexFacts.lang_cat. exists "@", (d ++ "." ++ t).
    split; [reflexivity|]. split.
    { apply RegexFacts.lang_class. exists "@"%char. auto. }
    apply RegexFacts.lang_cat. exists d, ("." ++ t).
    split; [reflexivity|]. split.
    { apply RegexFacts.lang_plus_class. split; [assumption|].
      now apply (forallb_all_chars domain_char spec_domain d domain_char_iff). }
    apply RegexFacts.lang_cat. exists ".", t.
    split; [reflexivity|]. split.
    { apply RegexFacts.lang_class. exists "."%char. auto. }
    apply RegexFacts.lang_cat. exists t, "".
    split; [now rewrite append_nil_r|]. split.
    { apply RegexFacts.lang_atleast2_class. split; [assumption|].
      now apply (forallb_all_chars Regex.letter spec_letter t letter_iff). }
    constructor.
Qed.

(** C9.  [validate_email] fails on an empty or all-whitespace input, and
    otherwise succeeds exactly when the trimmed input has the shape
    [local-part@domain.tld]: a non-empty local part of letters, digits and
    [._%+-], a non-empty domain of letters, digits and [.-], and a
    top-level segment of at least two letters, the whole text being
    matched and letters being matched as they are.  In particular
    ["a@b.com"] is accepted and ["not-an-email"], [""] and ["a@b"] are
    rejected. *)
Theorem validate_email_spec :
  (forall email, all_whitespace email ->
     validate_email email = Invalid "Email cannot be empty") /\
  (forall email, ~ all_whitespace email ->
     (validate_email email = Valid tt <-> email_shape (Str.strip email)) /\
     (~ email_shape (Str.strip email) ->
        validate_email email = Invalid "Invalid email format")) /\
  validate_email "a@b.com" = Valid tt /\
  is_valid (validate_email "not-an-email") = false /\
  is_valid (validate_email "") = false /\
  is_valid (validate_email "a@b") = false.
Proof.
  split; [|split].
  - intros email H. apply blank_iff in H. unfold validate_email. now rewrite H.
  - intros email H.
    assert (B : Str.blank email = false).
    { destruct (Str.blank email) eqn:E; [|reflexivity].
      exfalso. apply H. now apply blank_iff. }
    unfold validate_email. rewrite B.
    destruct (Regex.fullmatch EMAIL_PATTERN (Str.strip email)) eqn:M; simpl.
    + apply email_pattern_shape in M. split; [tauto | intros N; contradiction].
    + split; [|reflexivity]. split; [discriminate|].
      intros S. apply email_pattern_shape in S. congruence.
  - vm_compute. auto.
Qed.

(** The theorem at a blank input and at [" a@b.com "]. *)
Lemma validate_email_spec_witness :
  validate_email "  " = Invalid "Email cannot be empty" /\
  email_shape (Str.strip " a@b.com ").
Proof.
  destruct validate_email_spec as (H1 & H2 & _).
  split.
  - apply H1. apply blank_iff. reflexivity.
  - apply (H2 " a@b.com ").
    + intros H. apply blank_iff in H. discriminate H.
    + vm_compute. reflexivity.
Defined.

Lemma validate_salary_valid (s : string) (v : PyFloat.float) :
  validate_salary s = Valid v ->
  Str.blank s = false /\ PyFloat.of_string s = Some v /\
  PyFloat.le_zero v = false.
Proof.
  unfold validate_salary. intros H.
  destruct (Str.blank s); [discriminate|].
  destruct (PyFloat.of_string s) as [x|]; [|discriminate].
  destruct (PyFloat.le_zero x) eqn:L; [discriminate|].
  injection H as ->. auto.
Qed.

(** C8.  [validate_salary] fails on an empty or all-whitespace input, on
    an input that [float] cannot read, and on one that it reads as a
    number [<= 0]; when it succeeds it returns the float read.  ["0"],
    ["-5"], ["abc"] and [""] fail, and ["50000.5"] yields the float that
    is exactly 100001/2. *)
Theorem validate_salary_spec :
  (forall s, all_whitespace s ->
     validate_salary s = Invalid "Salary cannot be empty") /\
  (forall s, ~ all_whitespace s -> PyFloat.of_string s = None ->
     validate_salary s = Invalid "Salary must be a valid number") /\
  (forall s x, ~ all_whitespace s -> PyFloat.of_string s = Some x ->
     PyFloat.le_zero x = true ->
     validate_salary s = Invalid "Salary must be greater than 0") /\
  (forall s v, validate_salary s = Valid v <->
     ~ all_whitespace s /\ PyFloat.of_string s = Some v /\
     PyFloat.le_zero v = false) /\
  is_valid (validate_salary "0") = false /\
  is_valid (validate_salary "-5") = false /\
  is_valid (validate_salary "abc") = false /\
  is_valid (validate_salary "") = false /\
  exists x, validate_salary "50000.5" = Valid x /\ PyFloat.is_ratio x 100001 2.
Proof.
  assert (B : forall s, ~ all_whitespace s -> Str.blank s = false).
  { intros s H. destruct (Str.blank s) eqn:E; [|reflexivity].
    exfalso. apply H. now apply blank_iff. }
  split; [|split; [|split; [|split]]].
  - intros s H. apply blank_iff in H. unfold validate_salary. now rewrite H.
  - intros s H P. unfold validate_salary. now rewrite (B s H), P.
  - intros s x H P L. unfold validate_salary. now rewrite (B s H), P, L.
  - intros s v. unfold validate_salary. split.
    + intros H. destruct (Str.blank s) eqn:E; [discriminate|].
      destruct (PyFloat.of_string s) as [x|]; [|discriminate].
      destruct (PyFloat.le_zero x) eqn:L; [discriminate|].
      injection H as ->. repeat split; try assumption.
      intros W. apply blank_iff in W. congruence.
    + intros (W & P & L). now rewrite (B s W), P, L.
  - repeat split; try (vm_compute; reflexivity).
    exists (S754_finite false 6872016393076736 (-37)). split.
    + vm_compute. reflexivity.
    + unfold PyFloat.is_ratio. split; [lia|]. split; [lia|]. vm_compute. reflexivity.
Qed.

(** The theorem at a blank input, at a word, at a negative number and at
    ["75000"]. *)
Lemma validate_salary_spec_witness :
  validate_salary "   " = Invalid "Salary cannot be empty" /\
  validate_salary "abc" = Invalid "Salary must be a valid number" /\
  validate_salary "-5" = Invalid "Salary must be greater than 0" /\
  PyFloat.of_string "75000" = Some (S754_finite false 5153960755200000 (-36)).
Proof.
  destruct validate_salary_spec as (H1 & H2 & H3 & H4 & _).
  split; [|split; [|split]].
  - apply H1. apply blank_iff. reflexivity.
  - apply H2.
    + intros H. apply blank_iff in H. discriminate H.
    + vm_compute. reflexivity.
  - apply (H3 "-5" (S754_finite true 5629499534213120 (-50))).
    + intros H. apply blank_iff in H. discriminate H.
    + vm_compute. reflexivity.
    + vm_compute. reflexivity.
  - apply (H4 "75000" (S754_finite false 5153960755200000 (-36))).
    vm_compute. reflexivity.
Defined.

(** ** Dictionaries *)

Section DictFacts.
Context {V : Type}.
Implicit Types (d : Dict.t V) (k : string) (v : V).

Lemma get_set_same d k v : Dict.get (Dict.set d k v) k = Some v.
Proof.
  induction d as [|[k' v'] d IH]; simpl.
  - now rewrite String.eqb_refl.
  - destruct (String.eqb k k') eqn:E; simpl; rewrite E; auto.
Qed.

Lemma get_set_other d k k' v :
  k <> k' -> Dict.get (Dict.set d k v) k' = Dict.get d k'.
Proof.
  intros N. induction d as [|[k0 v0] d IH]; simpl.
  - apply String.eqb_neq in N. rewrite String.eqb_sym. now rewrite N.
  - destruct (String.eqb k k0) eqn:E; simpl; [|now rewrite IH].
    apply String.eqb_eq in E. subst k0.
    apply not_eq_sym in N. apply String.eqb_neq in N. now rewrite N.
Qed.

(** Assigning to a key the value it has changes nothing, not even the
    order of the items. *)
Lemma set_same d k v : Dict.get d k = Some v -> Dict.set d k v = d.
Proof.
  induction d as [|[k0 v0] d IH]; simpl; [discriminate|].
  destruct (String.eqb k k0) eqn:E.
  - intros H. injection H as ->. reflexivity.
  - intros H. now rewrite IH.
Qed.

Lemma get_del_same d k : Dict.get (Dict.del d k) k = None.
Proof.
  induction d as [|[k0 v0] d IH]; simpl; [reflexivity|].
  destruct (String.eqb k k0) eqn:E; simpl; [assumption|].
  now rewrite E.
Qed.

Lemma get_del_other d k k' :
  k <> k' -> Dict.get (Dict.del d k) k' = Dict.get d k'.
Proof.
  intros N. induction d as [|[k0 v0] d IH]; simpl; [reflexivity|].
  destruct (String.eqb k k0) eqn:E; simpl.
  - apply String.eqb_eq in E. subst k0.
    apply not_eq_sym in N. apply String.eqb_neq in N. now rewrite N.
  - now rewrite IH.
Qed.

Lemma get_In_keys d k : Dict.get d k <> None <-> In k (Dict.keys d).
Proof.
  induction d as [|[k0 v0] d IH]; simpl; [tauto|].
  destruct (String.eqb k k0) eqn:E.
  - apply String.eqb_eq in E. subst. split; [auto | discriminate].
  - apply String.eqb_neq in E. rewrite IH. split; [auto|].
    intros [H|H]; [congruence | assumption].
Qed.

Lemma get_some_nonempty d k v : Dict.get d k = Some v -> Dict.is_empty d = false.
Proof. destruct d; [discriminate | reflexivity]. Qed.

Lemma get_In d k v : Dict.get d k = Some v -> exists k', In (k', v) d /\ k = k'.
Proof.
  induction d as [|[k0 v0] d IH]; simpl; [discriminate|].
  destruct (String.eqb k k0) eqn:E.
  - intros H. injection H as ->. apply String.eqb_eq in E. eauto.
  - intros H. destruct (IH H) as (k' & Hin & Hk). eauto.
Qed.
End DictFacts.

(** ** Running the operations *)

Arguments Str.strip : simpl never.
Arguments Str.upper : simpl never.
Arguments PyFloat.of_string : simpl never.
Arguments csv_text : simpl never.

Lemma search_found w typed enter rest e :
  Dict.get (employees w) (Str.strip typed) = Some e ->
  search_employee w (typed :: enter :: rest) = Done tt (emit w (Details e)) rest.
Proof.
  intros H. unfold search_employee, bind, get_employees.
  rewrite (get_some_nonempty _ _ _ H). unfold input, show, ret. now rewrite H.
Qed.

Lemma search_missing w typed enter rest :
  Dict.is_empty (employees w) = false ->
  Dict.get (employees w) (Str.strip typed) = None ->
  search_employee w (typed :: enter :: rest)
  = Done tt (emit w (Print (not_found (Str.strip typed)))) rest.
Proof.
  intros N H. unfold search_employee, bind, get_employees.
  rewrite N. unfold input, print, ret. now rewrite H.
Qed.

Lemma search_empty w enter rest :
  Dict.is_empty (employees w) = true ->
  search_employee w (enter :: rest) = Done tt (emit w (Print no_employees)) rest.
Proof.
  intros N. unfold search_employee, bind, get_employees. now rewrite N.
Qed.

Lemma prompt_valid {A} (validator : string -> verdict A) w line rest a :
  validator (Str.strip line) = Valid a ->
  _prompt_until_valid validator w (line :: rest) = Done a w rest.
Proof. intros H. simpl. now rewrite H. Qed.

Lemma prompt_invalid {A} (validator : string -> verdict A) w line rest error :
  validator (Str.strip line) = Invalid error ->
  _prompt_until_valid validator w (line :: rest)
  = _prompt_until_valid validator (emit w (Print ("Error: " ++ error))) rest.
Proof. intros H. simpl. now rewrite H. Qed.

Lemma optional_blank {A} (current : A) (validator : string -> verdict A)
    w line rest :
  Str.strip line = "" ->
  _get_optional_input current validator w (line :: rest) = Done current w rest.
Proof. intros H. simpl. now rewrite H. Qed.

Lemma optional_valid {A} (current : A) (validator : string -> verdict A)
    w line rest a :
  Str.strip line <> "" -> validator (Str.strip line) = Valid a ->
  _get_optional_input current validator w (line :: rest) = Done a w rest.
Proof.
  intros N H. simpl. destruct (Str.strip line) eqn:E; [congruence|].
  simpl. now rewrite H.
Qed.

Lemma returning_valid validator value :
  validator value = Valid tt -> returning id validator value = Valid value.
Proof. intros H. unfold returning. now rewrite H. Qed.

Lemma returning_some_valid validator value :
  validator value = Valid tt -> returning Some validator value = Valid (Some value).
Proof. intros H. unfold returning. now rewrite H. Qed.

Lemma returning_invalid {A} (f : string -> A) validator value error :
  validator value = Invalid error -> returning f validator value = Invalid error.
Proof. intros H. unfold returning. now rewrite H. Qed.

(** C1.  When the five values typed pass the validators of [add] (the
    identifier is not blank and not in the store, the name and the
    position are not blank, the salary is a number that is not [<= 0], the
    email is well formed and not in use), [add] stores under the trimmed
    identifier a record made of the trimmed identifier, name, position and
    email and of the float read from the trimmed salary, and a search for
    that identifier shows this record. *)
Theorem add_then_find (w : world) (id_ name position salary email enter : string)
    (rest : list string) (v : PyFloat.float) :
  validate_employee_id (Str.strip id_) (Dict.keys (employees w)) = Valid tt ->
  validate_required_field (Str.strip name) "Name" = Valid tt ->
  validate_required_field (Str.strip position) "Position" = Valid tt ->
  validate_salary (Str.strip salary) = Valid v ->
  validate_unique_email (Str.strip email)
    (map Email (Dict.values (employees w))) = Valid tt ->
  let r := {| ID := Str.strip id_; Name := Some (Str.strip name);
              Position := Some (Str.strip position); Salary := v;
              Email := Some (Str.strip email) |} in
  exists w',
    add_employee w (id_ :: name :: position :: salary :: email :: enter :: rest)
    = Done tt w' rest /\
    employees w' = Dict.set (employees w) (Str.strip id_) r /\
    Dict.get (employees w') (Str.strip id_) = Some r /\
    PyFloat.of_string (Str.strip salary) = Some v /\
    forall typed enter' rest',
      Str.strip typed = Str.strip id_ ->
      search_employee w' (typed :: enter' :: rest')
      = Done tt (emit w' (Details r)) rest'.
Proof.
  intros Hid Hname Hpos Hsal Hmail r.
  unfold add_employee, bind, get_employees.
  rewrite (prompt_valid _ w id_ _ (Str.strip id_)) by now apply returning_valid.
  rewrite (prompt_valid _ w name _ (Str.strip name)) by now apply returning_valid.
  rewrite (prompt_valid _ w position _ (Str.strip position))
    by now apply returning_valid.
  rewrite (prompt_valid _ w salary _ v) by assumption.
  rewrite (prompt_valid _ w email _ (Str.strip email)) by now apply returning_valid.
  unfold put_employees, save_to_csv, print, input, ret. simpl.
  destruct (_save_to_csv _) as [w1 ok] eqn:S.
  assert (E1 : employees w1 = Dict.set (employees w) (Str.strip id_) r).
  { unfold _save_to_csv in S. destruct (open_write _ _); injection S as <- _; reflexivity. }
  eexists. split; [reflexivity|]. simpl. rewrite E1.
  split; [reflexivity|]. split; [apply get_set_same|]. split.
  - apply validate_salary_valid in Hsal. tauto.
  - intros typed enter' rest' Ht.
    apply search_found. rewrite Ht. simpl. rewrite E1. apply get_set_same.
Qed.

Lemma add_then_find_witness :
  exists w',
    add_employee (init empty_disk)
      ["E1"; " Ana "; "Engineer"; "75000"; "ana@x.com"; ""] = Done tt w' [] /\
    Dict.get (employees w') "E1"
    = Some {| ID := "E1"; Name := Some "Ana"; Position := Some "Engineer";
              Salary := S754_finite false 5153960755200000 (-36);
              Email := Some "ana@x.com" |}.
Proof.
  destruct (add_then_find (init empty_disk) "E1" " Ana " "Engineer" "75000"
              "ana@x.com" "" [] (S754_finite false 5153960755200000 (-36)))
    as (w' & H1 & _ & H3 & _); try (vm_compute; reflexivity).
  exists w'. split; [exact H1 | exact H3].
Defined.

Lemma same_store_refl w : same_store w w.
Proof. split; reflexivity. Qed.

Lemma same_store_emit w w' ev : same_store w w' -> same_store w (emit w' ev).
Proof. intros [H1 H2]. split; assumption. Qed.

Lemma prompt_inv {A} (validator : string -> verdict A) (inp : list string) :
  forall w,
    match _prompt_until_valid validator w inp with
    | Done a w' rest =>
        same_store w w' /\ exists line, In line inp /\ validator (Str.strip line) = Valid a
    | EOFError w' => same_store w w'
    end.
Proof.
  induction inp as [|line inp IH]; intros w; simpl.
  - apply same_store_refl.
  - destruct (validator (Str.strip line)) as [a|error] eqn:E.
    + split; [apply same_store_refl | eauto].
    + specialize (IH (emit w (Print ("Error: " ++ error)))).
      destruct (_prompt_until_valid _ _ inp) as [a w' rest|w'].
      * destruct IH as [S (l & Hl & Hv)]. split; [exact S | eauto].
      * exact IH.
Qed.

Lemma validate_employee_id_valid emp_id ids :
  validate_employee_id emp_id ids = Valid tt ->
  Str.blank emp_id = false /\ ~ In (Str.strip emp_id) ids.
Proof.
  unfold validate_employee_id. destruct (Str.blank emp_id); [discriminate|].
  destruct (Str.inb _ _) eqn:E; [discriminate|]. intros _. split; [reflexivity|].
  intros H. apply inb_In in H. congruence.
Qed.

Lemma validate_employee_id_duplicate emp_id ids :
  In (Str.strip emp_id) ids ->
  exists error, validate_employee_id emp_id ids = Invalid error /\
    (Str.blank emp_id = false ->
     error = "Employee with ID '" ++ emp_id ++ "' already exists").
Proof.
  intros H. apply inb_In in H. unfold validate_employee_id.
  destruct (Str.blank emp_id).
  - eexists. split; [reflexivity | discriminate].
  - rewrite H. eexists. split; reflexivity.
Qed.

Lemma existsb_email (e : string) (emails : list (option string)) :
  existsb (fun x => match x with Some e' => String.eqb e e' | None => false end)
    emails = true <-> In (Some e) emails.
Proof.
  rewrite existsb_exists. split.
  - intros ([e'|] & Hin & E); [|discriminate].
    apply String.eqb_eq in E. now subst.
  - intros H. exists (Some e). split; [assumption | apply String.eqb_refl].
Qed.

Lemma validate_unique_email_valid email emails :
  validate_unique_email email emails = Valid tt ->
  validate_email email = Valid tt /\ ~ In (Some (Str.strip email)) emails.
Proof.
  unfold validate_unique_email. destruct (validate_email email) as [[]|]; [|discriminate].
  destruct (existsb _ _) eqn:E; [discriminate|]. intros _. split; [reflexivity|].
  intros H. apply existsb_email in H. congruence.
Qed.

Lemma validate_unique_email_duplicate email emails :
  In (Some (Str.strip email)) emails ->
  exists error, validate_unique_email email emails = Invalid error /\
    (validate_email email = Valid tt ->
     error = "Email '" ++ email ++ "' is already registered to another employee").
Proof.
  intros H. apply existsb_email in H. unfold validate_unique_email.
  destruct (validate_email email) as [[]|error].
  - rewrite H. eexists. split; reflexivity.
  - eexists. split; [reflexivity | discriminate].
Qed.

(** C4.  [add] rejects an identifier that is in the store and an email
    that a stored record has (compared as texts, after trimming): the
    attempt is answered by an error message and a new prompt, with the
    mapping as it was; if the operator types nothing more the operation
    ends there, the mapping unchanged.  Whatever is typed, [add] either
    leaves the mapping as it was or inserts one record whose identifier
    and email were in no record before. *)
Theorem add_rejects_duplicates (w : world) :
  (forall typed rest,
     In (Str.strip typed) (Dict.keys (employees w)) ->
     exists error,
       validate_employee_id (Str.strip typed) (Dict.keys (employees w))
       = Invalid error /\
       employees (emit w (Print ("Error: " ++ error))) = employees w /\
       add_employee w (typed :: rest)
       = add_employee (emit w (Print ("Error: " ++ error))) rest /\
       add_employee w [typed] = EOFError (emit w (Print ("Error: " ++ error)))) /\
  (forall i n p s typed rest v,
     validate_employee_id (Str.strip i) (Dict.keys (employees w)) = Valid tt ->
     validate_required_field (Str.strip n) "Name" = Valid tt ->
     validate_required_field (Str.strip p) "Position" = Valid tt ->
     validate_salary (Str.strip s) = Valid v ->
     In (Some (Str.strip typed)) (map Email (Dict.values (employees w))) ->
     exists error,
       validate_unique_email (Str.strip typed)
         (map Email (Dict.values (employees w))) = Invalid error /\
       add_employee w (i :: n :: p :: s :: typed :: rest)
       = add_employee (emit w (Print ("Error: " ++ error))) (i :: n :: p :: s :: rest) /\
       add_employee w [i; n; p; s; typed]
       = EOFError (emit w (Print ("Error: " ++ error)))) /\
  (forall inp,
     let w' := world_of (add_employee w inp) in
     employees w' = employees w \/
     exists r, employees w' = Dict.set (employees w) (ID r) r /\
       ~ In (ID r) (Dict.keys (employees w)) /\
       ~ In (Email r) (map Email (Dict.values (employees w)))).
Proof.
  split; [|split].
  - intros typed rest H.
    rewrite <- strip_idem in H.
    destruct (validate_employee_id_duplicate _ _ H) as (error & E & _).
    exists error. split; [exact E|]. split; [reflexivity|].
    unfold add_employee, bind, get_employees.
    assert (R : returning id (fun v => validate_employee_id v (Dict.keys (employees w)))
                  (Str.strip typed) = Invalid error)
      by now apply returning_invalid.
    split.
    + rewrite (prompt_invalid _ w typed rest error R). reflexivity.
    + rewrite (prompt_invalid _ w typed [] error R). reflexivity.
  - intros i n p s typed rest v Hi Hn Hp Hs H.
    rewrite <- strip_idem in H.
    destruct (validate_unique_email_duplicate _ _ H) as (error & E & _).
    exists error. split; [exact E|].
    assert (R : returning id
                  (fun v => validate_unique_email v (map Email (Dict.values (employees w))))
                  (Str.strip typed) = Invalid error)
      by now apply returning_invalid.
    unfold add_employee, bind, get_employees.
    split.
    + rewrite !(prompt_valid _ _ i _ (Str.strip i)) by now apply returning_valid.
      rewrite !(prompt_valid _ _ n _ (Str.strip n)) by now apply returning_valid.
      rewrite !(prompt_valid _ _ p _ (Str.strip p)) by now apply returning_valid.
      rewrite !(prompt_valid _ _ s _ v) by assumption.
      rewrite (prompt_invalid _ w typed rest error R). reflexivity.
    + rewrite !(prompt_valid _ _ i _ (Str.strip i)) by now apply returning_valid.
      rewrite !(prompt_valid _ _ n _ (Str.strip n)) by now apply returning_valid.
      rewrite !(prompt_valid _ _ p _ (Str.strip p)) by now apply returning_valid.
      rewrite !(prompt_valid _ _ s _ v) by assumption.
      rewrite (prompt_invalid _ w typed [] error R). reflexivity.
  - intros inp. unfold add_employee, bind, get_employees.
    pose proof (prompt_inv
      (returning id (fun v => validate_employee_id v (Dict.keys (employees w)))) inp w) as P1.
    destruct (_prompt_until_valid _ w inp) as [emp_id w1 inp1|w1];
      [|left; apply P1].
    destruct P1 as [[E1 D1] (l1 & _ & V1)].
    pose proof (prompt_inv
      (returning id (fun v => validate_required_field v "Name")) inp1 w1) as P2.
    destruct (_prompt_until_valid _ w1 inp1) as [name w2 inp2|w2];
      [|left; destruct P2; simpl; congruence].
    destruct P2 as [[E2 D2] _].
    pose proof (prompt_inv
      (returning id (fun v => validate_required_field v "Position")) inp2 w2) as P3.
    destruct (_prompt_until_valid _ w2 inp2) as [position w3 inp3|w3];
      [|left; destruct P3; simpl; congruence].
    destruct P3 as [[E3 D3] _].
    pose proof (prompt_inv validate_salary inp3 w3) as P4.
    destruct (_prompt_until_valid _ w3 inp3) as [salary w4 inp4|w4];
      [|left; destruct P4; simpl; congruence].
    destruct P4 as [[E4 D4] _].
    assert (E : employees w4 = employees w) by congruence.
    rewrite E.
    pose proof (prompt_inv
      (returning id (fun v => validate_unique_email v
                                (map Email (Dict.values (employees w))))) inp4 w4) as P5.
    destruct (_prompt_until_valid _ w4 inp4) as [email w5 inp5|w5];
      [|left; destruct P5; simpl; congruence].
    destruct P5 as [[E5 D5] (l5 & _ & V5)].
    unfold put_employees, save_to_csv, print, input, ret.
    destruct (_save_to_csv _) as [w6 ok] eqn:S.
    set (r := {| ID := emp_id; Name := Some name; Position := Some position;
                 Salary := salary; Email := Some email |}) in *.
    assert (E6 : employees w6 = Dict.set (employees w) emp_id r).
    { unfold _save_to_csv in S. destruct (open_write _ _); injection S as <- _; reflexivity. }
    unfold returning in V1, V5.
    destruct (validate_employee_id _ _) as [[]|] eqn:V1'; [|discriminate].
    injection V1 as <-.
    destruct (validate_unique_email _ _) as [[]|] eqn:V5'; [|discriminate].
    injection V5 as <-.
    apply validate_employee_id_valid in V1'. destruct V1' as [_ N1].
    apply validate_unique_email_valid in V5'. destruct V5' as [_ N5].
    rewrite strip_idem in N1, N5.
    right. exists r. destruct inp5 as [|enter inp6]; simpl; rewrite E6; auto.
Qed.

(** The theorem in the world of the example: [E1] is stored, and is typed
    again. *)
Lemma add_rejects_duplicates_witness :
  validate_employee_id "E1" (Dict.keys (employees one_record))
  = Invalid "Employee with ID 'E1' already exists" /\
  exists error,
    add_employee one_record ["E1"]
    = EOFError (emit one_record (Print ("Error: " ++ error))).
Proof.
  destruct (add_rejects_duplicates one_record) as (H & _ & _).
  destruct (H "E1" []) as (error & H1 & _ & _ & H4).
  - vm_compute. left. reflexivity.
  - split; [vm_compute; reflexivity|].
    exists error. exact H4.
Defined.

Lemma optional_accepts {A} (current : A) (validator : string -> verdict A)
    w line rest x :
  accepts current validator line x ->
  _get_optional_input current validator w (line :: rest) = Done x w rest.
Proof.
  intros [[H ->]|[H V]].
  - now apply optional_blank.
  - now apply optional_valid.
Qed.

(** [add] on five accepted values: the record is stored, the file is
    written if it can be, and the success is printed. *)
Lemma add_run (w : world) (i n p s m enter : string) (rest : list string)
    (v : PyFloat.float) :
  validate_employee_id (Str.strip i) (Dict.keys (employees w)) = Valid tt ->
  validate_required_field (Str.strip n) "Name" = Valid tt ->
  validate_required_field (Str.strip p) "Position" = Valid tt ->
  validate_salary (Str.strip s) = Valid v ->
  validate_unique_email (Str.strip m) (map Email (Dict.values (employees w)))
  = Valid tt ->
  add_employee w (i :: n :: p :: s :: m :: enter :: rest)
  = Done tt
      (emit (fst (_save_to_csv
                    (set_employees w
                       (Dict.set (employees w) (Str.strip i)
                          {| ID := Str.strip i; Name := Some (Str.strip n);
                             Position := Some (Str.strip p); Salary := v;
                             Email := Some (Str.strip m) |}))))
            (Print (added (Str.strip n))))
      rest.
Proof.
  intros Hi Hn Hp Hs Hm.
  unfold add_employee, bind, get_employees.
  rewrite (prompt_valid _ w i _ (Str.strip i)) by now apply returning_valid.
  rewrite (prompt_valid _ w n _ (Str.strip n)) by now apply returning_valid.
  rewrite (prompt_valid _ w p _ (Str.strip p)) by now apply returning_valid.
  rewrite (prompt_valid _ w s _ v) by assumption.
  rewrite (prompt_valid _ w m _ (Str.strip m)) by now apply returning_valid.
  unfold put_employees, save_to_csv, print, input, ret.
  destruct (_save_to_csv _) as [w1 ok]. reflexivity.
Qed.

Lemma update_run (w : world) (typed l1 l2 l3 l4 enter : string)
    (rest : list string) (e : Employee) name position salary email :
  Dict.get (employees w) (Str.strip typed) = Some e ->
  accepts (Name e) (returning Some (fun v => validate_required_field v "Name"))
    l1 name ->
  accepts (Position e)
    (returning Some (fun v => validate_required_field v "Position")) l2 position ->
  accepts (Salary e) validate_salary l3 salary ->
  accepts (Email e)
    (returning Some
       (fun v => validate_unique_email v
                   (other_emails (employees w) (Str.strip typed)))) l4 email ->
  update_employee w (typed :: l1 :: l2 :: l3 :: l4 :: enter :: rest)
  = Done tt
      (emit (fst (_save_to_csv
                    (set_employees (emit w (Details e))
                       (Dict.set (employees w) (Str.strip typed)
                          {| ID := Str.strip typed; Name := name;
                             Position := position; Salary := salary;
                             Email := email |}))))
            (Print (updated (Str.strip typed))))
      rest.
Proof.
  intros H A1 A2 A3 A4.
  unfold update_employee, bind, get_employees.
  rewrite (get_some_nonempty _ _ _ H). unfold input. rewrite H.
  unfold show.
  rewrite (optional_accepts _ _ _ l1 _ name A1).
  rewrite (optional_accepts _ _ _ l2 _ position A2).
  rewrite (optional_accepts _ _ _ l3 _ salary A3).
  cbn [employees emit].
  rewrite (optional_accepts _ _ _ l4 _ email A4).
  unfold put_employees, save_to_csv, print, ret.
  destruct (_save_to_csv _) as [w1 ok]. reflexivity.
Qed.

Lemma delete_confirmed (w : world) (typed conf enter : string)
    (rest : list string) (e : Employee) :
  Dict.get (employees w) (Str.strip typed) = Some e ->
  Str.upper (Str.strip conf) = YES ->
  delete_employee w (typed :: conf :: enter :: rest)
  = Done tt
      (emit (fst (_save_to_csv
                    (set_employees (emit w (Details e))
                       (Dict.del (employees w) (Str.strip typed)))))
            (Print (deleted (Str.strip typed))))
      rest.
Proof.
  intros H Y.
  unfold delete_employee, bind, get_employees.
  rewrite (get_some_nonempty _ _ _ H). unfold input. rewrite H.
  unfold show. destruct (list_eq_dec _ _ _) as [_|N]; [|contradiction].
  unfold put_employees, save_to_csv, print, ret.
  destruct (_save_to_csv _) as [w1 ok]. reflexivity.
Qed.

Lemma delete_cancelled (w : world) (typed conf enter : string)
    (rest : list string) (e : Employee) :
  Dict.get (employees w) (Str.strip typed) = Some e ->
  Str.upper (Str.strip conf) <> YES ->
  delete_employee w (typed :: conf :: enter :: rest)
  = Done tt (emit (emit w (Details e)) (Print cancelled)) rest.
Proof.
  intros H Y.
  unfold delete_employee, bind, get_employees.
  rewrite (get_some_nonempty _ _ _ H). unfold input. rewrite H.
  unfold show. destruct (list_eq_dec _ _ _) as [E|_]; [contradiction|].
  reflexivity.
Qed.

Lemma save_employees w : employees (fst (_save_to_csv w)) = employees w.
Proof. unfold _save_to_csv. now destruct (open_write _ _). Qed.

Lemma one_record_employees : employees one_record = [("E1", ana)].
Proof. vm_compute. reflexivity. Qed.

(** C5.  The salary of a stored record is not always greater than zero:
    [validate_salary] accepts ["nan"], because a NaN is not [<= 0], and
    [add] stores the NaN, which is not [> 0] either. *)
Theorem nan_salary_is_stored :
  validate_salary "nan" = Valid PyFloat.nan /\
  exists w',
    add_employee (init empty_disk) ["E1"; "Ana"; "Engineer"; "nan"; "ana@x.com"; ""]
    = Done tt w' [] /\
    Dict.get (employees w') "E1"
    = Some {| ID := "E1"; Name := Some "Ana"; Position := Some "Engineer";
              Salary := PyFloat.nan; Email := Some "ana@x.com" |} /\
    PyFloat.gt_zero PyFloat.nan = false.
Proof.
  split; [vm_compute; reflexivity|].
  eexists. split; [vm_compute; reflexivity|]. split; vm_compute; reflexivity.
Qed.

(** C6, as stated, fails: the confirmation ["yes"] is not the token
    ['YES'], and the record is deleted all the same. *)
Lemma delete_accepts_lowercase_yes :
  "yes" <> "YES" /\
  Dict.get (employees one_record) "E1" = Some ana /\
  exists w',
    delete_employee one_record ["E1"; "yes"; ""] = Done tt w' [] /\
    employees w' <> employees one_record /\
    Dict.get (employees w') "E1" = None.
Proof.
  split; [discriminate|]. split; [vm_compute; reflexivity|].
  eexists. split; [vm_compute; reflexivity|].
  split; [vm_compute; discriminate | vm_compute; reflexivity].
Qed.

(** C6, amended.  For a record stored under the identifier typed: a
    confirmation whose trimmed, upper-cased text is not ['YES'] leaves the
    mapping and the file as they were and prints the cancellation; a
    confirmation whose trimmed, upper-cased text is ['YES'] (as ["YES"],
    ["yes"] and [" Yes "] are) removes the record, and a search for the
    identifier then shows no record: it prints that the identifier was
    not found, or that there are no employees when the store has become
    empty. *)
Theorem delete_needs_confirmation (w : world) (typed conf enter : string)
    (rest : list string) (e : Employee) :
  Dict.get (employees w) (Str.strip typed) = Some e ->
  (Str.upper (Str.strip conf) <> YES ->
     delete_employee w (typed :: conf :: enter :: rest)
     = Done tt (emit (emit w (Details e)) (Print cancelled)) rest /\
     employees (emit (emit w (Details e)) (Print cancelled)) = employees w /\
     disk (emit (emit w (Details e)) (Print cancelled)) = disk w) /\
  (Str.upper (Str.strip conf) = YES ->
     exists w',
       delete_employee w (typed :: conf :: enter :: rest) = Done tt w' rest /\
       employees w' = Dict.del (employees w) (Str.strip typed) /\
       Dict.get (employees w') (Str.strip typed) = None /\
       forall typed' enter' rest',
         Str.strip typed' = Str.strip typed ->
         exists text,
           world_of (search_employee w' (typed' :: enter' :: rest'))
           = emit w' (Print text) /\
           (text = not_found (Str.strip typed) \/ text = no_employees)) /\
  Str.upper (Str.strip "YES") = YES /\
  Str.upper (Str.strip "yes") = YES /\
  Str.upper (Str.strip " Yes ") = YES.
Proof.
  intros H. split; [|split].
  - intros N. split; [apply (delete_cancelled _ _ _ _ _ e H N) | split; reflexivity].
  - intros Y. eexists. split; [apply (delete_confirmed _ _ _ _ _ e H Y)|].
    cbn [employees emit]. rewrite save_employees. cbn [employees set_employees].
    split; [reflexivity|]. split; [apply get_del_same|].
    intros typed' enter' rest' Ht.
    match goal with |- context [search_employee ?w0 _] => set (w' := w0) end.
    assert (E : employees w' = Dict.del (employees w) (Str.strip typed)).
    { subst w'. cbn [employees emit]. now rewrite save_employees. }
    destruct (Dict.is_empty (employees w')) eqn:Em.
    + exists no_employees. split; [|now right].
      now rewrite (search_empty w' typed' (enter' :: rest') Em).
    + exists (not_found (Str.strip typed)). split; [|now left].
      rewrite (search_missing w' typed' enter' rest' Em).
      * now rewrite Ht.
      * rewrite Ht, E. apply get_del_same.
  - vm_compute. auto.
Qed.

Lemma delete_needs_confirmation_witness :
  exists w',
    delete_employee one_record ["E1"; " Yes "; ""] = Done tt w' [] /\
    Dict.get (employees w') "E1" = None.
Proof.
  destruct (delete_needs_confirmation one_record "E1" " Yes " "" [] ana)
    as (_ & H & _); [vm_compute; reflexivity|].
  destruct H as (w' & H1 & _ & H3 & _); [vm_compute; reflexivity|].
  exists w'. split; [exact H1 | exact H3].
Defined.

Lemma strip_blank (s : string) : all_whitespace s -> Str.strip s = "".
Proof.
  intros H. apply blank_iff in H. rewrite blank_strip in H.
  destruct (Str.strip s); [reflexivity | discriminate].
Qed.

Lemma strip_not_blank (s : string) : ~ all_whitespace s -> Str.strip s <> "".
Proof.
  intros H E. apply H. apply blank_iff. rewrite blank_strip. now rewrite E.
Qed.

Lemma accepts_blank {A} (current : A) validator line :
  all_whitespace line -> accepts current validator line current.
Proof. intros H. left. split; [now apply strip_blank | reflexivity]. Qed.

Lemma validate_required_field_valid value field_name :
  ~ all_whitespace value ->
  validate_required_field (Str.strip value) field_name = Valid tt.
Proof.
  intros H. unfold validate_required_field. rewrite blank_strip_idem.
  destruct (Str.blank value) eqn:B; [|reflexivity].
  exfalso. apply H. now apply blank_iff.
Qed.

Lemma validate_unique_email_iff email emails :
  validate_unique_email email emails = Valid tt <->
  validate_email email = Valid tt /\ ~ In (Some (Str.strip email)) emails.
Proof.
  split; [apply validate_unique_email_valid|].
  intros [V N]. unfold validate_unique_email. rewrite V.
  destruct (existsb _ _) eqn:E; [|reflexivity].
  apply existsb_email in E. contradiction.
Qed.

Lemma In_other_emails (d : Dict.t Employee) (k : string) (x : option string) :
  In x (other_emails d k) <->
  exists item, In item d /\ fst item <> k /\ Email (snd item) = x.
Proof.
  unfold other_emails. rewrite in_map_iff. split.
  - intros (item & E & H). apply filter_In in H. destruct H as [H N].
    apply negb_true_iff, String.eqb_neq in N. eauto.
  - intros (item & H & N & E). exists item. split; [assumption|].
    apply filter_In. split; [assumption|].
    now apply negb_true_iff, String.eqb_neq.
Qed.

Lemma employee_eta (e : Employee) :
  {| ID := ID e; Name := Name e; Position := Position e; Salary := Salary e;
     Email := Email e |} = e.
Proof. now destruct e. Qed.

(** C7.  For a record stored under the identifier typed (its own [ID]):
    an update with the four fields left blank leaves the mapping, hence
    every field of the record, as it was; an update with only a name that
    is not blank changes the [Name] to the trimmed text typed and leaves
    [ID], [Position], [Salary] and [Email]; and the email typed is only
    compared with the emails of the other records, so that typing the
    record's own (well-formed) email, which no other record has, is
    accepted without an error and changes nothing. *)
Theorem update_changes_only_what_is_typed (w : world)
    (typed b1 b2 b3 b4 enter : string) (rest : list string) (e : Employee) :
  Dict.get (employees w) (Str.strip typed) = Some e ->
  ID e = Str.strip typed ->
  all_whitespace b1 -> all_whitespace b2 -> all_whitespace b3 ->
  all_whitespace b4 ->
  (exists w',
     update_employee w (typed :: b1 :: b2 :: b3 :: b4 :: enter :: rest)
     = Done tt w' rest /\
     employees w' = employees w) /\
  (forall name, ~ all_whitespace name ->
     exists w',
       update_employee w (typed :: name :: b2 :: b3 :: b4 :: enter :: rest)
       = Done tt w' rest /\
       employees w'
       = Dict.set (employees w) (Str.strip typed)
           {| ID := ID e; Name := Some (Str.strip name); Position := Position e;
              Salary := Salary e; Email := Email e |} /\
       Dict.get (employees w') (Str.strip typed)
       = Some {| ID := ID e; Name := Some (Str.strip name);
                 Position := Position e; Salary := Salary e;
                 Email := Email e |}) /\
  (forall email,
     Email e = Some (Str.strip email) ->
     validate_email (Str.strip email) = Valid tt ->
     (forall item, In item (employees w) -> fst item <> Str.strip typed ->
                   Email (snd item) <> Some (Str.strip email)) ->
     validate_unique_email (Str.strip email)
       (other_emails (employees w) (Str.strip typed)) = Valid tt /\
     update_employee w (typed :: b1 :: b2 :: b3 :: email :: enter :: rest)
     = Done tt
         (emit (fst (_save_to_csv (set_employees (emit w (Details e)) (employees w))))
               (Print (updated (Str.strip typed))))
         rest).
Proof.
  intros H I B1 B2 B3 B4.
  assert (Same : Dict.set (employees w) (Str.strip typed)
                   {| ID := Str.strip typed; Name := Name e; Position := Position e;
                      Salary := Salary e; Email := Email e |} = employees w).
  { rewrite <- I, employee_eta. rewrite I. now apply set_same. }
  split; [|split].
  - eexists. split.
    + apply (update_run w typed b1 b2 b3 b4 enter rest e); try assumption;
        now apply accepts_blank.
    + cbn [employees emit]. rewrite save_employees. cbn [employees set_employees].
      exact Same.
  - intros name N. eexists. split; [|split].
    + apply (update_run w typed name b2 b3 b4 enter rest e); try assumption;
        try now apply accepts_blank.
      right. split; [now apply strip_not_blank|].
      apply returning_some_valid. now apply validate_required_field_valid.
    + cbn [employees emit]. rewrite save_employees. cbn [employees set_employees].
      now rewrite I.
    + cbn [employees emit]. rewrite save_employees. cbn [employees set_employees].
      rewrite I. apply get_set_same.
  - intros email Own V Others.
    assert (U : validate_unique_email (Str.strip email)
                  (other_emails (employees w) (Str.strip typed)) = Valid tt).
    { apply validate_unique_email_iff. split; [assumption|].
      rewrite strip_idem. intros In1. apply In_other_emails in In1.
      destruct In1 as (item & Hin & Hk & He). exact (Others item Hin Hk He). }
    split; [exact U|].
    rewrite (update_run w typed b1 b2 b3 email enter rest e (Name e) (Position e)
               (Salary e) (Some (Str.strip email))); try assumption;
      try now apply accepts_blank.
    + rewrite <- Own, Same. reflexivity.
    + right. split.
      * intros E. rewrite E in V. vm_compute in V. discriminate.
      * now apply returning_some_valid.
Qed.

Lemma update_changes_only_what_is_typed_witness :
  exists w',
    update_employee one_record ["E1"; "Ana Maria"; ""; " "; ""; ""] = Done tt w' [] /\
    Dict.get (employees w') "E1"
    = Some {| ID := "E1"; Name := Some "Ana Maria"; Position := Some "Engineer";
              Salary := S754_finite false 5153960755200000 (-36);
              Email := Some "ana@x.com" |}.
Proof.
  assert (W : forall s, s = "" \/ s = " " -> all_whitespace s).
  { intros s [->| ->]; apply blank_iff; reflexivity. }
  destruct (update_changes_only_what_is_typed one_record "E1" "" "" " " "" "" [] ana)
    as (_ & H & _); try (apply W; auto); try (vm_compute; reflexivity).
  destruct (H "Ana Maria") as (w' & H1 & _ & H3).
  { intros N. apply blank_iff in N. vm_compute in N. discriminate. }
  exists w'. split; [exact H1 | exact H3].
Defined.

Lemma save_fails (w : world) :
  writable (disk w) = false ->
  _save_to_csv w = (emit w (ErrorSaving PermissionError), false).
Proof. intros H. unfold _save_to_csv, open_write. now rewrite H. Qed.

(** C10.  When the file cannot be written, [_save_to_csv] prints its
    diagnostic and returns [False], which no caller looks at: [add],
    [update] and [delete] keep their change of the mapping, leave the
    file as it was, and print their message of success after the
    diagnostic of the save. *)
Theorem failed_save_is_ignored (w : world) :
  writable (disk w) = false ->
  (forall d, _save_to_csv (set_employees w d)
             = (emit (set_employees w d) (ErrorSaving PermissionError), false)) /\
  (forall i n p s m enter rest v,
     validate_employee_id (Str.strip i) (Dict.keys (employees w)) = Valid tt ->
     validate_required_field (Str.strip n) "Name" = Valid tt ->
     validate_required_field (Str.strip p) "Position" = Valid tt ->
     validate_salary (Str.strip s) = Valid v ->
     validate_unique_email (Str.strip m) (map Email (Dict.values (employees w)))
     = Valid tt ->
     add_employee w (i :: n :: p :: s :: m :: enter :: rest)
     = Done tt
         {| employees :=
              Dict.set (employees w) (Str.strip i)
                {| ID := Str.strip i; Name := Some (Str.strip n);
                   Position := Some (Str.strip p); Salary := v;
                   Email := Some (Str.strip m) |};
            disk := disk w;
            output := (output w ++ [ErrorSaving PermissionError]
                       ++ [Print (added (Str.strip n))])%list |}
         rest) /\
  (forall typed l1 l2 l3 l4 enter rest e name position salary email,
     Dict.get (employees w) (Str.strip typed) = Some e ->
     accepts (Name e) (returning Some (fun v => validate_required_field v "Name"))
       l1 name ->
     accepts (Position e)
       (returning Some (fun v => validate_required_field v "Position"))
       l2 position ->
     accepts (Salary e) validate_salary l3 salary ->
     accepts (Email e)
       (returning Some
          (fun v => validate_unique_email v
                      (other_emails (employees w) (Str.strip typed)))) l4 email ->
     update_employee w (typed :: l1 :: l2 :: l3 :: l4 :: enter :: rest)
     = Done tt
         {| employees :=
              Dict.set (employees w) (Str.strip typed)
                {| ID := Str.strip typed; Name := name; Position := position;
                   Salary := salary; Email := email |};
            disk := disk w;
            output := (output w ++ [Details e] ++ [ErrorSaving PermissionError]
                       ++ [Print (updated (Str.strip typed))])%list |}
         rest) /\
  (forall typed conf enter rest e,
     Dict.get (employees w) (Str.strip typed) = Some e ->
     Str.upper (Str.strip conf) = YES ->
     delete_employee w (typed :: conf :: enter :: rest)
     = Done tt
         {| employees := Dict.del (employees w) (Str.strip typed);
            disk := disk w;
            output := (output w ++ [Details e] ++ [ErrorSaving PermissionError]
                       ++ [Print (deleted (Str.strip typed))])%list |}
         rest).
Proof.
  intros W. split; [|split; [|split]].
  - intros d. now apply save_fails.
  - intros i n p s m enter rest v Hi Hn Hp Hs Hm.
    rewrite (add_run w i n p s m enter rest v Hi Hn Hp Hs Hm).
    rewrite save_fails by exact W. unfold emit. simpl.
    now rewrite <- !app_assoc.
  - intros typed l1 l2 l3 l4 enter rest e name position salary email H A1 A2 A3 A4.
    rewrite (update_run w typed l1 l2 l3 l4 enter rest e name position salary email
               H A1 A2 A3 A4).
    rewrite save_fails by exact W. unfold emit. simpl.
    now rewrite <- !app_assoc.
  - intros typed conf enter rest e H Y.
    rewrite (delete_confirmed w typed conf enter rest e H Y).
    rewrite save_fails by exact W. unfold emit. simpl.
    now rewrite <- !app_assoc.
Qed.

Lemma failed_save_is_ignored_witness :
  delete_employee (read_only one_record) ["E1"; "YES"; ""]
  = Done tt
      {| employees := [];
         disk := disk (read_only one_record);
         output := (output one_record
                    ++ [Details ana; ErrorSaving PermissionError;
                        Print (deleted "E1")])%list |}
      [].
Proof.
  destruct (failed_save_is_ignored (read_only one_record) eq_refl)
    as (_ & _ & _ & H).
  apply (H "E1" "YES" "" [] ana); vm_compute; reflexivity.
Defined.

(** ** The CSV reader on the text of the writer *)

Module CsvFacts.
Import Csv CsvAux.

Lemma read_nil_line p ls :
  read_lines p ("" :: ls)
  = step p EOL (fun p' =>
      if state_eqb (st p') START_RECORD
      then cons_row (fields p') (read_lines parse_reset ls)
      else read_lines p' ls).
Proof.
  unfold step. simpl. destruct (parse_process_char p EOL) as [p'|e]; [|reflexivity].
  destruct (state_eqb (st p') START_RECORD); [|reflexivity].
  unfold cons_row. now destruct (read_lines parse_reset ls).
Qed.

Lemma read_cons_char p c l ls :
  read_lines p (String c l :: ls)
  = step p (Ch c) (fun p' => read_lines p' (l :: ls)).
Proof.
  unfold step. simpl. destruct (parse_process_char p (Ch c)); reflexivity.
Qed.

Lemma open_lines_cons c s : open_lines (String c s) = lines_of (String c s).
Proof.
  unfold open_lines. simpl.
  destruct (Ascii.eqb c LF); [reflexivity|].
  destruct (Ascii.eqb c CR).
  - destruct s as [|c' s']; [reflexivity|]. now destruct (Ascii.eqb c' LF).
  - now destruct (lines_of s).
Qed.

Lemma read_open_nil p : read_lines p (open_lines "") = eol p "".
Proof. unfold open_lines, eol. simpl lines_of. apply read_nil_line. Qed.

Lemma read_open_LF p s :
  read_lines p (open_lines (String LF s))
  = step p (Ch LF) (fun p' => eol p' s).
Proof.
  rewrite open_lines_cons.
  change (lines_of (String LF s)) with (String LF "" :: lines_of s).
  rewrite read_cons_char. unfold step at 1 2.
  destruct (parse_process_char p (Ch LF)) as [p'|e]; [|reflexivity].
  apply read_nil_line.
Qed.

Lemma read_open_CR p s :
  read_lines p (open_lines (String CR s))
  = step p (Ch CR) (fun p' => read_lines p' (cr_lines s)).
Proof.
  rewrite open_lines_cons.
  change (lines_of (String CR s))
    with (match s with
          | String c' s'' =>
              if Ascii.eqb c' LF then lineterminator :: lines_of s''
              else String CR "" :: lines_of s
          | EmptyString => [String CR ""]
          end).
  unfold cr_lines. destruct s as [|c s'].
  - apply read_cons_char.
  - destruct (Ascii.eqb c LF) eqn:E.
    + apply Ascii.eqb_eq in E. subst c. unfold lineterminator.
      apply read_cons_char.
    + apply read_cons_char.
Qed.

Lemma read_open_char p c s :
  is_newline c = false ->
  read_lines p (open_lines (String c s))
  = step p (Ch c) (fun p' => read_lines p' (open_lines s)).
Proof.
  intros N. unfold is_newline in N. apply orb_false_iff in N. destruct N as [N1 N2].
  rewrite open_lines_cons. simpl lines_of. rewrite N1, N2.
  unfold open_lines. destruct (lines_of s); apply read_cons_char.
Qed.

Lemma read_cr_LF p s :
  read_lines p (cr_lines (String LF s)) = step p (Ch LF) (fun p' => eol p' s).
Proof.
  change (cr_lines (String LF s)) with (String LF "" :: lines_of s).
  rewrite read_cons_char.
  unfold step at 1 2. destruct (parse_process_char p (Ch LF)) as [p'|e]; [|reflexivity].
  apply read_nil_line.
Qed.

Lemma read_cr_other p s :
  (forall s', s <> String LF s') ->
  read_lines p (cr_lines s) = eol p s.
Proof.
  intros N. unfold cr_lines, eol. destruct s as [|c s'].
  - apply read_nil_line.
  - destruct (Ascii.eqb c LF) eqn:E.
    + apply Ascii.eqb_eq in E. subst c. now elim (N s').
    + apply read_nil_line.
Qed.

Lemma lines_open s : s <> "" -> lines_of s = open_lines s.
Proof. destruct s; [congruence|]. intros _. now rewrite open_lines_cons. Qed.

(** *** Fields *)

Lemma length_snoc (s : string) (c : ascii) :
  String.length (s ++ String c "") = S (String.length s).
Proof. rewrite length_append. simpl. lia. Qed.

Lemma snoc_append (s t : string) (c : ascii) :
  (s ++ String c "") ++ t = s ++ String c t.
Proof. now rewrite append_assoc. Qed.

Lemma add_char_ok p c :
  (N.of_nat (String.length (field p)) < field_limit)%N ->
  parse_add_char p c = inl (mk (st p) (fields p) (field p ++ String c "")).
Proof.
  intros H. unfold parse_add_char.
  destruct (N.leb_spec field_limit (N.of_nat (String.length (field p))));
    [lia | reflexivity].
Qed.

Lemma add_char_full p c :
  (field_limit <= N.of_nat (String.length (field p)))%N ->
  parse_add_char p c = inr FieldTooLarge.
Proof.
  intros H. unfold parse_add_char.
  destruct (N.leb_spec field_limit (N.of_nat (String.length (field p))));
    [reflexivity | lia].
Qed.

Lemma fits_cons buf c body :
  fits (buf ++ String c body) ->
  (N.of_nat (String.length buf) < field_limit)%N /\
  fits ((buf ++ String c "") ++ body).
Proof.
  unfold fits. rewrite snoc_append, !length_append. simpl. lia.
Qed.

Lemma special_false c :
  special c = false ->
  Ascii.eqb c comma = false /\ Ascii.eqb c quote = false /\ is_newline c = false.
Proof.
  unfold special. intros H. apply orb_false_iff in H. destruct H as [H H3].
  apply orb_false_iff in H. tauto.
Qed.

Lemma newline_cases c :
  is_newline c = true -> c = CR \/ c = LF.
Proof.
  unfold is_newline. intros H. apply orb_true_iff in H.
  destruct H as [H|H]; apply Ascii.eqb_eq in H; auto.
Qed.

(** In a quoted field the end of a line changes nothing. *)
Lemma eol_in_quoted fs buf s :
  eol (mk IN_QUOTED_FIELD fs buf) s
  = read_lines (mk IN_QUOTED_FIELD fs buf) (lines_of s).
Proof. reflexivity. Qed.

Lemma step_in_quoted fs buf c k :
  Ascii.eqb c quote = false ->
  (N.of_nat (String.length buf) < field_limit)%N ->
  step (mk IN_QUOTED_FIELD fs buf) (Ch c) k
  = k (mk IN_QUOTED_FIELD fs (buf ++ String c "")).
Proof.
  intros Q R. unfold step, parse_process_char. cbn [st mk]. rewrite Q.
  now rewrite add_char_ok.
Qed.

Lemma body_quote_nonempty body rest :
  double_quotes body ++ String quote rest <> "".
Proof.
  destruct body as [|c body]; simpl; [discriminate|].
  destruct (Ascii.eqb c quote); discriminate.
Qed.

(** The body of a quoted field, up to the closing quote. *)
Lemma quoted_body fs rest body : forall buf,
  fits (buf ++ body) ->
  read_lines (mk IN_QUOTED_FIELD fs buf)
    (open_lines (double_quotes body ++ String quote rest))
  = read_lines (mk QUOTE_IN_QUOTED_FIELD fs (buf ++ body)) (open_lines rest)
  /\
  read_lines (mk IN_QUOTED_FIELD fs buf)
    (cr_lines (double_quotes body ++ String quote rest))
  = read_lines (mk QUOTE_IN_QUOTED_FIELD fs (buf ++ body)) (open_lines rest).
Proof.
  induction body as [|c body IH]; intros buf F.
  - assert (O : read_lines (mk IN_QUOTED_FIELD fs buf)
                  (open_lines (String quote rest))
                = read_lines (mk QUOTE_IN_QUOTED_FIELD fs (buf ++ ""))
                    (open_lines rest)).
    { rewrite read_open_char by reflexivity. rewrite append_nil_r. reflexivity. }
    split; [exact O|].
    simpl double_quotes. simpl append.
    rewrite read_cr_other by (intros s' E; discriminate E).
    rewrite eol_in_quoted, lines_open by discriminate. exact O.
  - apply fits_cons in F. destruct F as [R F].
    destruct (IH (buf ++ String c "") F) as [IHo IHc].
    rewrite snoc_append in IHo, IHc.
    assert (O : read_lines (mk IN_QUOTED_FIELD fs buf)
                  (open_lines (double_quotes (String c body) ++ String quote rest))
                = read_lines (mk QUOTE_IN_QUOTED_FIELD fs (buf ++ String c body))
                    (open_lines rest)).
    { simpl double_quotes. destruct (Ascii.eqb c quote) eqn:Q.
      - apply Ascii.eqb_eq in Q. subst c. simpl append.
        rewrite read_open_char by reflexivity.
        change (step (mk IN_QUOTED_FIELD fs buf) (Ch quote)
                  (fun p' => read_lines p'
                     (open_lines (String quote (double_quotes body ++ String quote rest)))))
          with (read_lines (mk QUOTE_IN_QUOTED_FIELD fs buf)
                  (open_lines (String quote (double_quotes body ++ String quote rest)))).
        rewrite read_open_char by reflexivity.
        unfold step, parse_process_char. cbn [st mk]. rewrite Ascii.eqb_refl.
        rewrite add_char_ok by exact R. cbn [then_state set_state mk st fields field].
        exact IHo.
      - simpl append. destruct (is_newline c) eqn:N.
        + apply newline_cases in N. destruct N as [-> | ->].
          * rewrite read_open_CR, step_in_quoted by assumption. exact IHc.
          * rewrite read_open_LF, step_in_quoted by assumption.
            rewrite eol_in_quoted, lines_open; [exact IHo|].
            apply body_quote_nonempty.
        + rewrite read_open_char, step_in_quoted by assumption. exact IHo. }
    split; [exact O|].
    destruct (Ascii.eqb c LF) eqn:L.
    + apply Ascii.eqb_eq in L. subst c. simpl double_quotes. simpl append.
      rewrite read_cr_LF, step_in_quoted by (reflexivity || assumption).
      rewrite eol_in_quoted, lines_open; [exact IHo|].
      apply body_quote_nonempty.
    + rewrite read_cr_other.
      * rewrite eol_in_quoted, lines_open; [exact O|].
        apply body_quote_nonempty.
      * intros s' E. simpl double_quotes in E.
        destruct (Ascii.eqb c quote) eqn:Q.
        -- apply Ascii.eqb_eq in Q. subst c. discriminate E.
        -- simpl in E. injection E as E _. subst c.
           rewrite Ascii.eqb_refl in L. discriminate.
Qed.

Lemma step_start_char s0 fs c k :
  starting s0 -> special c = false ->
  step (mk s0 fs "") (Ch c) k = k (mk IN_FIELD fs (String c "")).
Proof.
  intros S H. apply special_false in H. destruct H as (H1 & H2 & H3).
  unfold step, parse_process_char, start_field.
  destruct S as [-> | ->]; cbn [st mk]; rewrite H3, H2, H1; reflexivity.
Qed.

Lemma step_start_quote s0 fs k :
  starting s0 ->
  step (mk s0 fs "") (Ch quote) k = k (mk IN_QUOTED_FIELD fs "").
Proof. intros [-> | ->]; reflexivity. Qed.

Lemma step_start_comma s0 fs k :
  starting s0 ->
  step (mk s0 fs "") (Ch comma) k = k (mk START_FIELD (fs ++ [""]) "").
Proof. intros [-> | ->]; reflexivity. Qed.

Lemma step_in_field fs buf c k :
  special c = false ->
  (N.of_nat (String.length buf) < field_limit)%N ->
  step (mk IN_FIELD fs buf) (Ch c) k = k (mk IN_FIELD fs (buf ++ String c "")).
Proof.
  intros H R. apply special_false in H. destruct H as (H1 & H2 & H3).
  unfold step, parse_process_char. cbn [st mk]. rewrite H3, H1.
  now rewrite add_char_ok.
Qed.

Lemma step_end_comma s0 fs buf k :
  ending s0 ->
  step (mk s0 fs buf) (Ch comma) k = k (mk START_FIELD (fs ++ [buf]) "").
Proof. intros [-> | [-> | ->]]; reflexivity. Qed.

Lemma row_end s0 fs buf rest :
  ending s0 ->
  read_lines (mk s0 fs buf) (open_lines (lineterminator ++ rest))
  = cons_row (fs ++ [buf]) (read_lines parse_reset (lines_of rest)).
Proof.
  intros E. change (lineterminator ++ rest) with (String CR (String LF rest)).
  rewrite read_open_CR.
  assert (S : step (mk s0 fs buf) (Ch CR)
                (fun p' => read_lines p' (cr_lines (String LF rest)))
              = read_lines (mk EAT_CRNL (fs ++ [buf]) "") (cr_lines (String LF rest))).
  { destruct E as [-> | [-> | ->]]; reflexivity. }
  rewrite S, read_cr_LF. reflexivity.
Qed.

Lemma unquoted_body fs rest body : forall buf,
  needs_quotes body = false -> fits (buf ++ body) ->
  read_lines (mk IN_FIELD fs buf) (open_lines (body ++ rest))
  = read_lines (mk IN_FIELD fs (buf ++ body)) (open_lines rest).
Proof.
  induction body as [|c body IH]; intros buf Q F.
  - now rewrite append_nil_r.
  - simpl in Q. apply orb_false_iff in Q. destruct Q as [Qc Q].
    apply fits_cons in F. destruct F as [R F].
    simpl append. rewrite read_open_char by now apply special_false in Qc.
    rewrite step_in_field by assumption.
    rewrite (IH _ Q F). now rewrite snoc_append.
Qed.

(** A field longer than the limit stops the reader. *)
Lemma unquoted_overflow fs rest body : forall buf,
  needs_quotes body = false ->
  (N.of_nat (String.length buf) <= field_limit)%N ->
  (field_limit < N.of_nat (String.length buf + String.length body))%N ->
  read_lines (mk IN_FIELD fs buf) (open_lines (body ++ rest))
  = ([], Some FieldTooLarge).
Proof.
  induction body as [|c body IH]; intros buf Q B L.
  - simpl in L. lia.
  - simpl in Q. apply orb_false_iff in Q. destruct Q as [Qc Q].
    simpl append. rewrite read_open_char by now apply special_false in Qc.
    destruct (N.ltb_spec (N.of_nat (String.length buf)) field_limit) as [R|R].
    + rewrite step_in_field by assumption. apply (IH _ Q).
      * rewrite length_snoc. lia.
      * rewrite length_snoc. simpl in L. lia.
    + apply special_false in Qc. destruct Qc as (H1 & H2 & H3).
      unfold step, parse_process_char. cbn [st mk]. rewrite H3, H1.
      now rewrite add_char_full.
Qed.

Lemma quoted_read s0 fs f rest :
  starting s0 -> fits f ->
  read_lines (mk s0 fs "") (open_lines (quoted f ++ rest))
  = read_lines (mk QUOTE_IN_QUOTED_FIELD fs f) (open_lines rest).
Proof.
  intros S F. unfold quoted. simpl append. rewrite append_assoc. simpl append.
  rewrite read_open_char by reflexivity.
  rewrite step_start_quote by assumption.
  now apply (quoted_body fs rest f "").
Qed.

Lemma unquoted_read s0 fs c f rest :
  starting s0 -> needs_quotes (String c f) = false -> fits (String c f) ->
  read_lines (mk s0 fs "") (open_lines (String c f ++ rest))
  = read_lines (mk IN_FIELD fs (String c f)) (open_lines rest).
Proof.
  intros S Q F. simpl in Q. apply orb_false_iff in Q. destruct Q as [Qc Q].
  simpl append. rewrite read_open_char by now apply special_false in Qc.
  rewrite step_start_char by assumption.
  now apply (unquoted_body fs rest f (String c "")).
Qed.

Lemma field_comma s0 fs f rest :
  starting s0 -> fits f ->
  read_lines (mk s0 fs "") (open_lines (write_field f ++ String comma rest))
  = read_lines (mk START_FIELD (fs ++ [f]) "") (open_lines rest).
Proof.
  intros S F. unfold write_field. destruct (needs_quotes f) eqn:Q.
  - fold (quoted f). rewrite quoted_read by assumption.
    rewrite read_open_char by reflexivity.
    apply step_end_comma. right. now left.
  - destruct f as [|c f].
    + simpl append. rewrite read_open_char by reflexivity.
      now apply step_start_comma.
    + rewrite unquoted_read by assumption.
      rewrite read_open_char by reflexivity.
      apply step_end_comma. now left.
Qed.

Lemma field_end s0 fs f rest :
  starting s0 -> fits f -> (s0 = START_RECORD -> f <> "") ->
  read_lines (mk s0 fs "") (open_lines (write_field f ++ lineterminator ++ rest))
  = cons_row (fs ++ [f]) (read_lines parse_reset (lines_of rest)).
Proof.
  intros S F N. unfold write_field. destruct (needs_quotes f) eqn:Q.
  - fold (quoted f). rewrite quoted_read by assumption.
    apply row_end. right. now left.
  - destruct f as [|c f].
    + destruct S as [-> | ->]; [|now elim N].
      simpl append. apply row_end. right. now right.
    + rewrite unquoted_read by assumption. apply row_end. now left.
Qed.

Lemma read_join rest fields : forall s0 fs,
  fields <> [] -> Forall fits fields ->
  starting s0 -> (s0 = START_RECORD -> fields <> [""]) ->
  read_lines (mk s0 fs "") (open_lines (join fields ++ lineterminator ++ rest))
  = cons_row (fs ++ fields) (read_lines parse_reset (lines_of rest)).
Proof.
  induction fields as [|f fields IH]; intros s0 fs N F S R; [congruence|].
  inversion F as [|? ? Ff Ffs]; subst.
  destruct fields as [|g fields].
  - simpl join. apply field_end; try assumption.
    intros E Ef. subst. now apply R.
  - change (join (f :: g :: fields))
      with (write_field f ++ String comma (join (g :: fields))).
    rewrite append_assoc.
    change (String comma (join (g :: fields)) ++ lineterminator ++ rest)
      with (String comma (join (g :: fields) ++ lineterminator ++ rest)).
    rewrite field_comma by assumption.
    rewrite (IH START_FIELD (fs ++ [f])%list); try assumption.
    + now rewrite <- app_assoc.
    + discriminate.
    + now left.
    + discriminate.
Qed.

(** A row that the writer wrote is read back as it was. *)
Lemma read_writerow fields rest :
  fields <> [] -> Forall fits fields ->
  read_lines parse_reset (lines_of (writerow fields ++ rest))
  = cons_row fields (read_lines parse_reset (lines_of rest)).
Proof.
  intros N F.
  assert (T : writerow fields ++ rest <> "").
  { unfold writerow. destruct fields as [|[|c f] [|g fs]]; try discriminate;
      try congruence.
    - simpl. unfold write_field. destruct (needs_quotes _); discriminate.
    - simpl. unfold write_field. destruct (needs_quotes _); discriminate. }
  rewrite (lines_open _ T).
  destruct (list_eq_dec string_dec fields [""]) as [E|E].
  - subst fields. change (writerow [""]) with (quoted "" ++ lineterminator).
    rewrite append_assoc.
    change parse_reset with (mk START_RECORD [] "").
    rewrite quoted_read; [|now right | unfold fits; simpl; unfold field_limit; lia].
    apply row_end. right. now left.
  - assert (W : writerow fields = join fields ++ lineterminator).
    { unfold writerow. destruct fields as [|[|c f] [|g fs]]; try reflexivity.
      congruence. }
    rewrite W, append_assoc.
    apply (read_join rest fields START_RECORD []); try assumption.
    + now right.
    + intros _. exact E.
Qed.

(** The reader gives back the rows that the writer wrote, when no field
    is longer than the limit. *)
Lemma reader_write_rows rows :
  Forall (fun r => r <> [] /\ Forall fits r) rows ->
  reader (write_rows rows) = (rows, None).
Proof.
  unfold reader. induction rows as [|r rows IH]; intros F; [reflexivity|].
  inversion F as [|? ? [N Fr] Frs]; subst. simpl write_rows.
  rewrite read_writerow by assumption. rewrite (IH Frs). reflexivity.
Qed.

End CsvFacts.

(** ** Floats: rounding *)

Module FloatFacts.
Import PyFloat FloatAux.
Local Open Scope Z_scope.

Lemma same_eq (x y : float) : same x y = true -> x = y.
Proof.
  destruct x as [a|a| |a m e], y as [b|b| |b m' e']; simpl; try discriminate.
  - intros H. apply Bool.eqb_prop in H. now subst.
  - intros H. apply Bool.eqb_prop in H. now subst.
  - reflexivity.
  - rewrite !andb_true_iff. intros [[H1 H2] H3].
    apply Bool.eqb_prop in H1. apply Pos.eqb_eq in H2. apply Z.eqb_eq in H3.
    now subst.
Qed.

Lemma same_refl (x : float) : same x x = true.
Proof.
  destruct x as [a|a| |a m e]; simpl; rewrite ?Bool.eqb_reflx; try reflexivity.
  now rewrite Pos.eqb_refl, Z.eqb_refl.
Qed.

Lemma compare_scale (c a b : Z) : 0 < c -> (c * a ?= c * b) = (a ?= b).
Proof.
  intros H. destruct (Z.compare_spec a b) as [E|L|G].
  - subst. apply Z.compare_refl.
  - apply Z.compare_lt_iff. nia.
  - apply Z.compare_gt_iff. nia.
Qed.

(** [round_ratio] depends on the ratio only. *)
Lemma round_ratio_scale (c p q : Z) :
  0 < c -> 0 < q ->
  round_ratio (c * p) (c * q) = round_ratio p q.
Proof.
  intros Hc Hq. unfold round_ratio.
  rewrite <- !Z.mul_assoc.
  rewrite (Z.div_mul_cancel_l (p * 2 ^ 1074) q c) by lia.
  set (s := Z.max 0 (Z.log2 (p * 2 ^ 1074 / q) - 52)).
  assert (Hd : 0 < q * 2 ^ s) by (apply Z.mul_pos_pos; [lia|]; apply Z.pow_pos_nonneg; lia).
  rewrite (Z.div_mul_cancel_l (p * 2 ^ 1074) (q * 2 ^ s) c) by lia.
  rewrite (Z.mul_mod_distr_l (p * 2 ^ 1074) (q * 2 ^ s) c) by lia.
  replace (2 * (c * ((p * 2 ^ 1074) mod (q * 2 ^ s))))
    with (c * (2 * ((p * 2 ^ 1074) mod (q * 2 ^ s)))) by ring.
  rewrite (Z.mul_assoc c q (2 ^ s)) at 1.
  rewrite <- (Z.mul_assoc c q (2 ^ s)).
  rewrite (compare_scale c _ _ Hc). reflexivity.
Qed.

Lemma round_ratio_ext (p q p' q' : Z) :
  0 < q -> 0 < q' -> p * q' = p' * q ->
  round_ratio p q = round_ratio p' q'.
Proof.
  intros Hq Hq' E.
  rewrite <- (round_ratio_scale q' p q) by assumption.
  rewrite <- (round_ratio_scale q p' q') by assumption.
  f_equal; lia.
Qed.

(** *** The numbers that round to a given float *)

Lemma exponent_normal (n q t : Z) :
  0 < q -> 0 <= t -> 2 ^ 52 * 2 ^ t * q <= n < 2 ^ 53 * 2 ^ t * q ->
  Z.max 0 (Z.log2 (n / q) - 52) = t.
Proof.
  intros Hq Ht [L U].
  assert (P : 0 < 2 ^ t) by (apply Z.pow_pos_nonneg; lia).
  assert (E : Z.log2 (n / q) = 52 + t).
  { apply Z.log2_unique; [lia|]. rewrite Z.pow_succ_r by lia.
    rewrite Z.pow_add_r by lia. split.
    - apply Z.div_le_lower_bound; [lia|]. lia.
    - apply Z.div_lt_upper_bound; [lia|]. lia. }
  lia.
Qed.

Lemma exponent_subnormal (n q : Z) :
  0 < q -> 0 <= n < 2 ^ 53 * q ->
  Z.max 0 (Z.log2 (n / q) - 52) = 0.
Proof.
  intros Hq [L U].
  assert (Q : 0 <= n / q < 2 ^ 53).
  { split; [apply Z.div_pos; lia|]. apply Z.div_lt_upper_bound; lia. }
  destruct (Z.eq_dec (n / q) 0) as [E|E].
  - rewrite E. reflexivity.
  - assert (Z.log2 (n / q) < 53) by (apply Z.log2_lt_pow2; lia). lia.
Qed.

(** The quotient rounded to nearest is [M] for a number within half a
    unit of [M]. *)
Lemma nearest (n d M : Z) :
  0 < d -> (2 * M - 1) * d < 2 * n < (2 * M + 1) * d ->
  match 2 * (n mod d) ?= d with
  | Lt => n / d
  | Eq => if Z.even (n / d) then n / d else n / d + 1
  | Gt => n / d + 1
  end = M.
Proof.
  intros Hd [L U]. destruct (Z_le_gt_dec (M * d) n) as [G|G].
  - assert (Q : n / d = M).
    { symmetry. apply (Z.div_unique n d M (n - M * d)); [left|]; lia. }
    assert (R : n mod d = n - M * d).
    { symmetry. apply (Z.mod_unique n d M (n - M * d)); [left|]; lia. }
    rewrite Q, R. replace (2 * (n - M * d) ?= d) with Lt; [reflexivity|].
    symmetry. apply Z.compare_lt_iff. lia.
  - assert (Q : n / d = M - 1).
    { symmetry. apply (Z.div_unique n d (M - 1) (n - (M - 1) * d)); [left|]; lia. }
    assert (R : n mod d = n - (M - 1) * d).
    { symmetry. apply (Z.mod_unique n d (M - 1) (n - (M - 1) * d)); [left|]; lia. }
    rewrite Q, R. replace (2 * (n - (M - 1) * d) ?= d) with Gt; [lia|].
    symmetry. apply Z.compare_gt_iff. lia.
Qed.

(** A positive ratio [p / q] rounds to [M * 2^(s - 1074)] when it is
    nearer to it than to its two neighbours; the neighbour below
    [2^52 * 2^(s - 1074)] is at half the distance of the one above. *)
Lemma round_ratio_interval (m : positive) (s p q : Z) :
  canonical (Zpos m) s -> 0 < p -> 0 < q ->
  2 * (p * 2 ^ 1074) < (2 * Zpos m + 1) * (q * 2 ^ s) ->
  (2 * Zpos m - 1) * (q * 2 ^ s) < 2 * (p * 2 ^ 1074) ->
  (Zpos m = 2 ^ 52 -> 0 < s ->
     (4 * Zpos m - 1) * (q * 2 ^ s) < 4 * (p * 2 ^ 1074)) ->
  round_ratio p q = S754_finite false m (s - 1074).
Proof.
  intros (HM & Hs & Hc) Hp Hq U L L'.
  unfold round_ratio.
  set (n := p * 2 ^ 1074) in *.
  assert (Hn : 0 < n) by (apply Z.mul_pos_pos; [lia|]; apply Z.pow_pos_nonneg; lia).
  assert (P : 0 < 2 ^ s) by (apply Z.pow_pos_nonneg; lia).
  clearbody n.
  change (2 ^ 53) with 9007199254740992 in *.
  change (2 ^ 52) with 4503599627370496 in *.
  destruct (Z_le_gt_dec (4503599627370496 * (q * 2 ^ s)) n) as [A|A].
  - (* the binade of the float *)
    assert (E : Z.max 0 (Z.log2 (n / q) - 52) = s).
    { destruct (Z.eq_dec s 0) as [->|S0].
      - apply exponent_subnormal; [lia|].
        change (2 ^ 53) with 9007199254740992. rewrite Z.pow_0_r in *. nia.
      - apply exponent_normal; [lia | lia |].
        change (2 ^ 53) with 9007199254740992.
        change (2 ^ 52) with 4503599627370496. nia. }
    rewrite E.
    rewrite (nearest n (q * 2 ^ s) (Zpos m)) by (first [nia | split; nia]).
    replace (Zpos m =? 9007199254740992) with false
      by (symmetry; apply Z.eqb_neq; lia).
    replace (s <=? 2045) with true by (symmetry; apply Z.leb_le; lia).
    reflexivity.
  - destruct (Z.eq_dec s 0) as [->|S0].
    + (* a subnormal *)
      assert (E : Z.max 0 (Z.log2 (n / q) - 52) = 0).
      { apply exponent_subnormal; [lia|].
        change (2 ^ 53) with 9007199254740992. rewrite Z.pow_0_r in *. nia. }
      rewrite E.
      rewrite (nearest n (q * 2 ^ 0) (Zpos m)) by (first [nia | split; nia]).
      replace (Zpos m =? 9007199254740992) with false
        by (symmetry; apply Z.eqb_neq; lia).
      reflexivity.
    + (* just below a power of two *)
      assert (M52 : Zpos m = 4503599627370496) by nia.
      specialize (L' M52 ltac:(lia)).
      assert (P2 : 2 ^ s = 2 * 2 ^ (s - 1)).
      { rewrite <- Z.pow_succ_r by lia. f_equal. lia. }
      assert (P' : 0 < 2 ^ (s - 1)) by (apply Z.pow_pos_nonneg; lia).
      rewrite P2 in *. set (h := 2 ^ (s - 1)) in *.
      assert (E : Z.max 0 (Z.log2 (n / q) - 52) = s - 1).
      { destruct (Z.eq_dec s 1) as [->|S1].
        - apply exponent_subnormal; [lia|].
          change (2 ^ 53) with 9007199254740992.
          subst h. change (2 ^ (1 - 1)) with 1 in *. nia.
        - apply exponent_normal; [lia | lia |]. fold h.
          change (2 ^ 53) with 9007199254740992.
          change (2 ^ 52) with 4503599627370496. nia. }
      rewrite E. fold h.
      assert (Q : n / (q * h) = 9007199254740991).
      { symmetry.
        apply (Z.div_unique n (q * h) _ (n - 9007199254740991 * (q * h)));
          [left|]; nia. }
      assert (R : n mod (q * h) = n - 9007199254740991 * (q * h)).
      { symmetry.
        apply (Z.mod_unique n (q * h) 9007199254740991
                 (n - 9007199254740991 * (q * h))); [left|]; nia. }
      rewrite Q, R.
      replace (2 * (n - 9007199254740991 * (q * h)) ?= q * h) with Gt
        by (symmetry; apply Z.compare_gt_iff; nia).
      change (9007199254740991 + 1 =? 9007199254740992) with true. cbv iota.
      replace (s - 1 + 1 <=? 2045) with true by (symmetry; apply Z.leb_le; lia).
      replace (s - 1 + 1 - 1074) with (s - 1074) by lia.
      assert (Em : m = 4503599627370496%positive) by lia.
      now rewrite Em.
Qed.

Lemma digits2_bounds (m : positive) :
  2 ^ (Zpos (digits2_pos m) - 1) <= Zpos m < 2 ^ (Zpos (digits2_pos m)).
Proof.
  induction m as [m IH|m IH|]; cbn [digits2_pos].
  - rewrite Pos2Z.inj_succ.
    replace (Z.succ (Zpos (digits2_pos m)) - 1) with (Z.succ (Zpos (digits2_pos m) - 1)) by lia.
    rewrite !Z.pow_succ_r by lia. lia.
  - rewrite Pos2Z.inj_succ.
    replace (Z.succ (Zpos (digits2_pos m)) - 1) with (Z.succ (Zpos (digits2_pos m) - 1)) by lia.
    rewrite !Z.pow_succ_r by lia. lia.
  - simpl. lia.
Qed.

Lemma binary64_canonical (sg : bool) (m : positive) (e : Z) :
  is_binary64 (S754_finite sg m e) = true -> canonical (Zpos m) (e + 1074).
Proof.
  unfold is_binary64, valid_binary, bounded, canonical_mantissa, fexp, emin, prec, emax.
  rewrite andb_true_iff, Z.eqb_eq, Z.leb_le. intros [C B].
  pose proof (digits2_bounds m) as [D1 D2].
  set (dg := Zpos (digits2_pos m)) in *.
  assert (Hdg : 0 < dg) by (subst dg; lia).
  unfold canonical. change (2 ^ 53) with 9007199254740992.
  change (2 ^ 52) with 4503599627370496.
  destruct (Z_le_gt_dec (3 - 1024 - 53) (dg + e - 53)) as [G|G].
  - assert (dg = 53) by lia.
    replace dg with 53 in *. change (2 ^ (53 - 1)) with 4503599627370496 in D1.
    change (2 ^ 53) with 9007199254740992 in D2. lia.
  - assert (E : e = -1074) by lia.
    assert (dg <= 53) by lia.
    assert (2 ^ dg <= 2 ^ 53) by (apply Z.pow_le_mono_r; lia).
    change (2 ^ 53) with 9007199254740992 in *. lia.
Qed.

(** *** The decimals that read back *)

Lemma power_of_pos k : 0 < power_of k.
Proof.
  unfold power_of. destruct (Z.leb_spec 0 k); [lia|]. apply Z.pow_pos_nonneg; lia.
Qed.

Lemma scaled_pos a b k u v :
  0 < a -> 0 < b -> scaled a b k = (u, v) -> 0 < u /\ 0 < v /\ u = a * power_of k.
Proof.
  unfold scaled, power_of. intros Ha Hb.
  destruct (Z.leb_spec 0 k) as [K|K]; intros E; injection E as <- <-.
  - assert (0 < 10 ^ k) by (apply Z.pow_pos_nonneg; lia). nia.
  - assert (0 < 10 ^ (- k)) by (apply Z.pow_pos_nonneg; lia). nia.
Qed.

Lemma of_decimal_scaled a b k u v d :
  0 < d -> 0 < b -> scaled a b k = (u, v) ->
  of_decimal false d k = round_ratio (d * v) (b * power_of k).
Proof.
  intros Hd Hb. unfold scaled, of_decimal, power_of.
  replace (d =? 0) with false by (symmetry; apply Z.eqb_neq; lia).
  destruct (Z.leb_spec 0 k) as [K|K]; intros E; injection E as <- <-.
  - apply round_ratio_ext; lia.
  - assert (0 < 10 ^ (- k)) by (apply Z.pow_pos_nonneg; lia).
    apply round_ratio_ext; nia.
Qed.

(** The decimal of 17 digits below the number, or the one above it,
    reads back as the number. *)
Lemma reads_back_17 (m : positive) (e k u v : Z) :
  canonical (Zpos m) (e + 1074) ->
  scaled (Zpos m * 2 ^ (e + 1074)) (2 ^ 1074) k = (u, v) ->
  10 ^ 16 * v <= u ->
  reads_back (S754_finite false m e) (u / v) k = true \/
  reads_back (S754_finite false m e) (u / v + 1) k = true.
Proof.
  intros C S H16. pose proof C as (HM & Hs & Hc).
  set (s := e + 1074) in *. set (b := 2 ^ 1074) in *.
  assert (Hb : 0 < b) by (apply Z.pow_pos_nonneg; lia).
  assert (P : 0 < 2 ^ s) by (apply Z.pow_pos_nonneg; lia).
  assert (Ha : 0 < Zpos m * 2 ^ s) by (apply Z.mul_pos_pos; [reflexivity | exact P]).
  destruct (scaled_pos _ _ _ _ _ Ha Hb S) as (Hu & Hv & Eu).
  pose proof (power_of_pos k) as HT. set (T := power_of k) in *.
  set (W := T * 2 ^ s).
  assert (HW : 0 < W) by (apply Z.mul_pos_pos; assumption).
  assert (MW : Zpos m * W = u) by (subst W; rewrite Eu; ring).
  assert (Goal : forall d, 0 < d ->
            2 * (d * v) < (2 * Zpos m + 1) * W ->
            (2 * Zpos m - 1) * W < 2 * (d * v) ->
            (Zpos m = 2 ^ 52 -> (4 * Zpos m - 1) * W < 4 * (d * v)) ->
            reads_back (S754_finite false m e) d k = true).
  { intros d Hd U L L'. unfold reads_back.
    rewrite (of_decimal_scaled _ _ _ _ _ d Hd Hb S). fold T.
    rewrite (round_ratio_interval m s (d * v) (b * T)); try assumption.
    - replace (s - 1074) with e by (subst s; lia). apply same_refl.
    - apply Z.mul_pos_pos; assumption.
    - apply Z.mul_pos_pos; assumption.
    - fold b. replace (b * T * 2 ^ s) with (b * W) by (subst W; ring).
      replace (2 * (d * v * b)) with (b * (2 * (d * v))) by ring.
      replace ((2 * Zpos m + 1) * (b * W)) with (b * ((2 * Zpos m + 1) * W)) by ring.
      apply Z.mul_lt_mono_pos_l; assumption.
    - fold b. replace (b * T * 2 ^ s) with (b * W) by (subst W; ring).
      replace (2 * (d * v * b)) with (b * (2 * (d * v))) by ring.
      replace ((2 * Zpos m - 1) * (b * W)) with (b * ((2 * Zpos m - 1) * W)) by ring.
      apply Z.mul_lt_mono_pos_l; assumption.
    - intros E52 _. fold b. replace (b * T * 2 ^ s) with (b * W) by (subst W; ring).
      replace (4 * (d * v * b)) with (b * (4 * (d * v))) by ring.
      replace ((4 * Zpos m - 1) * (b * W)) with (b * ((4 * Zpos m - 1) * W)) by ring.
      apply Z.mul_lt_mono_pos_l; [assumption|]. apply L'. exact E52. }
  clear S Eu Ha Hb P HT. clearbody W. clear T b.
  change (10 ^ 16) with 10000000000000000 in H16.
  change (2 ^ 53) with 9007199254740992 in HM.
  change (2 ^ 52) with 4503599627370496 in Goal.
  assert (MB : Zpos m * W <= 9007199254740991 * W)
    by (apply Z.mul_le_mono_nonneg_r; lia).
  assert (VW : v < W) by lia.
  assert (VW2 : Zpos m = 4503599627370496 -> 2 * v < W).
  { intros E52. rewrite E52 in MW. lia. }
  assert (Hlo : 0 < u / v) by (apply Z.div_str_pos; lia).
  pose proof (Z.div_mod u v ltac:(lia)) as DM.
  pose proof (Z.mod_pos_bound u v Hv) as RB.
  set (lo := u / v) in *. set (r := u mod v) in *. clearbody lo r.
  destruct (Z_le_gt_dec (2 * r) v) as [Near|Far].
  - left. apply Goal; [assumption| | |].
    + replace ((2 * Zpos m + 1) * W) with (2 * u + W) by (rewrite <- MW; ring). lia.
    + replace ((2 * Zpos m - 1) * W) with (2 * u - W) by (rewrite <- MW; ring). lia.
    + intros E52. specialize (VW2 E52).
      replace ((4 * Zpos m - 1) * W) with (4 * u - W) by (rewrite <- MW; ring). lia.
  - right. apply Goal; [lia| | |].
    + replace ((2 * Zpos m + 1) * W) with (2 * u + W) by (rewrite <- MW; ring). lia.
    + replace ((2 * Zpos m - 1) * W) with (2 * u - W) by (rewrite <- MW; ring). lia.
    + intros E52.
      replace ((4 * Zpos m - 1) * W) with (4 * u - W) by (rewrite <- MW; ring). lia.
Qed.

End FloatFacts.

Module ReprFacts.
Import PyFloat FloatAux FloatFacts.
Local Open Scope Z_scope.

Lemma candidate_sound x a b k d kk :
  candidate x a b k = Some (d, kk) ->
  kk = k /\ reads_back x d k = true /\
  (d = fst (scaled a b k) / snd (scaled a b k) \/
   d = fst (scaled a b k) / snd (scaled a b k) + 1).
Proof.
  unfold candidate. destruct (scaled a b k) as [u v]. cbn [fst snd].
  destruct (reads_back x (u / v) k) eqn:Lo, (reads_back x (u / v + 1) k) eqn:Hi.
  - destruct (2 * (u mod v) ?= v); [destruct (Z.even (u / v))| |];
      intros E; injection E as <- <-; auto.
  - intros E; injection E as <- <-; auto.
  - intros E; injection E as <- <-; auto.
  - discriminate.
Qed.

Lemma candidate_some x a b k u v :
  scaled a b k = (u, v) ->
  reads_back x (u / v) k = true \/ reads_back x (u / v + 1) k = true ->
  candidate x a b k <> None.
Proof.
  intros S H. unfold candidate. rewrite S.
  destruct (reads_back x (u / v) k), (reads_back x (u / v + 1) k).
  - destruct (2 * (u mod v) ?= v); [destruct (Z.even (u / v))| |]; discriminate.
  - discriminate.
  - discriminate.
  - destruct H; discriminate.
Qed.

Lemma find_dexp_range a b (fuel : nat) : forall j,
  j - Z.of_nat fuel <= find_dexp fuel a b j <= j.
Proof.
  induction fuel as [|f IH]; intros j; cbn [find_dexp]; [lia|].
  destruct (scaled a b j) as [x y]. destruct (y <=? x); [lia|].
  specialize (IH (j - 1)). lia.
Qed.

Lemma find_dexp_ok a b (fuel : nat) : forall j,
  snd (scaled a b (j - Z.of_nat fuel)) <= fst (scaled a b (j - Z.of_nat fuel)) ->
  snd (scaled a b (find_dexp fuel a b j)) <= fst (scaled a b (find_dexp fuel a b j)).
Proof.
  induction fuel as [|f IH]; intros j H; cbn [find_dexp].
  - now replace (j - Z.of_nat 0) with j in H by lia.
  - destruct (scaled a b j) as [x y] eqn:Sc. destruct (Z.leb_spec y x) as [L|L].
    + now rewrite Sc.
    + apply IH. now replace (j - 1 - Z.of_nat f) with (j - Z.of_nat (S f)) by lia.
Qed.

(** Sixteen more digits make a number of 17 digits. *)
Lemma scaled_shift a b j :
  0 < a -> 0 < b ->
  snd (scaled a b j) <= fst (scaled a b j) ->
  10 ^ 16 * snd (scaled a b (j - 16)) <= fst (scaled a b (j - 16)).
Proof.
  intros Ha Hb. unfold scaled.
  destruct (Z.leb_spec 0 j) as [J|J], (Z.leb_spec 0 (j - 16)) as [K|K];
    cbn [fst snd]; intros H; try lia.
  - replace j with ((j - 16) + 16) in H at 1 by lia.
    rewrite Z.pow_add_r in H by lia. lia.
  - assert (E : 10 ^ j * 10 ^ (- (j - 16)) = 10 ^ 16).
    { rewrite <- Z.pow_add_r by lia. f_equal. lia. }
    assert (0 < 10 ^ (- (j - 16))) by (apply Z.pow_pos_nonneg; lia).
    assert (0 < 10 ^ j) by (apply Z.pow_pos_nonneg; lia).
    nia.
  - replace (- (j - 16)) with (- j + 16) by lia.
    rewrite Z.pow_add_r by lia.
    assert (0 < 10 ^ (- j)) by (apply Z.pow_pos_nonneg; lia).
    nia.
Qed.

Lemma shortest_sound x a b (fuel : nat) : forall k,
  candidate x a b (k - Z.of_nat fuel) <> None ->
  exists d kk, shortest fuel x a b k = (d, kk) /\
    reads_back x d kk = true /\ k - Z.of_nat fuel <= kk <= k /\
    (d = fst (scaled a b kk) / snd (scaled a b kk) \/
     d = fst (scaled a b kk) / snd (scaled a b kk) + 1).
Proof.
  induction fuel as [|f IH]; intros k H; cbn [shortest].
  - replace (k - Z.of_nat 0) with k in H by lia.
    destruct (candidate x a b k) as [[d kk]|] eqn:C; [|congruence].
    apply candidate_sound in C. destruct C as (-> & R & D).
    exists d, k. repeat split; try assumption; lia.
  - destruct (candidate x a b k) as [[d kk]|] eqn:C.
    + apply candidate_sound in C. destruct C as (-> & R & D).
      exists d, k. repeat split; try assumption; lia.
    + replace (k - Z.of_nat (S f)) with (k - 1 - Z.of_nat f) in H by lia.
      destruct (IH (k - 1) H) as (d & kk & E & R & B & D).
      exists d, kk. repeat split; try assumption; lia.
Qed.

(** Moving a factor ten from the digits to the exponent keeps the
    number. *)
Lemma of_decimal_shift (neg : bool) (d k j : Z) :
  0 < d -> 0 <= j ->
  of_decimal neg (d * 10 ^ j) (k - j) = of_decimal neg d k.
Proof.
  intros Hd Hj. unfold of_decimal.
  assert (P : 0 < 10 ^ j) by (apply Z.pow_pos_nonneg; lia).
  replace (d * 10 ^ j =? 0) with false by (symmetry; apply Z.eqb_neq; nia).
  replace (d =? 0) with false by (symmetry; apply Z.eqb_neq; lia).
  cbv zeta.
  assert (E : (if 0 <=? k - j then round_ratio (d * 10 ^ j * 10 ^ (k - j)) 1
               else round_ratio (d * 10 ^ j) (10 ^ (- (k - j))))
              = (if 0 <=? k then round_ratio (d * 10 ^ k) 1
                 else round_ratio d (10 ^ (- k)))).
  { destruct (Z.leb_spec 0 k) as [K|K], (Z.leb_spec 0 (k - j)) as [K'|K']; try lia.
    - assert (X : 10 ^ j * 10 ^ (k - j) = 10 ^ k)
        by (rewrite <- Z.pow_add_r by lia; f_equal; lia).
      apply round_ratio_ext; [lia | lia | rewrite <- X; ring].
    - assert (X : 10 ^ k * 10 ^ (- (k - j)) = 10 ^ j)
        by (rewrite <- Z.pow_add_r by lia; f_equal; lia).
      apply round_ratio_ext;
        [apply Z.pow_pos_nonneg; lia | lia | rewrite <- X; ring].
    - assert (X : 10 ^ j * 10 ^ (- k) = 10 ^ (- (k - j)))
        by (rewrite <- Z.pow_add_r by lia; f_equal; lia).
      apply round_ratio_ext;
        [apply Z.pow_pos_nonneg; lia | apply Z.pow_pos_nonneg; lia
        | rewrite <- X; ring]. }
  now rewrite E.
Qed.

Lemma strip_zeros_sound x (fuel : nat) : forall d k,
  0 < d -> reads_back x d k = true ->
  exists d' k', strip_zeros fuel d k = (d', k') /\
    0 < d' <= d /\ k <= k' <= k + Z.of_nat fuel /\ reads_back x d' k' = true.
Proof.
  induction fuel as [|f IH]; intros d k Hd R; cbn [strip_zeros].
  - exists d, k. repeat split; try assumption; lia.
  - destruct (Z.eqb_spec (d mod 10) 0) as [E|E]; cbn [andb].
    + replace (d =? 0) with false by (symmetry; apply Z.eqb_neq; lia).
      cbn [negb].
      pose proof (Z.div_mod d 10 ltac:(lia)) as DM. rewrite E in DM.
      assert (H10 : 0 < d / 10) by lia.
      destruct (IH (d / 10) (k + 1) H10) as (d' & k' & S & B1 & B2 & R').
      * unfold reads_back in *.
        rewrite <- (of_decimal_shift false (d / 10) (k + 1) 1) by lia.
        replace (d / 10 * 10 ^ 1) with d by lia.
        now replace (k + 1 - 1) with k by lia.
      * exists d', k'. repeat split; try assumption; lia.
    + exists d, k. repeat split; try assumption; lia.
Qed.

Lemma reads_back_nonzero m e k : reads_back (S754_finite false m e) 0 k = false.
Proof. reflexivity. Qed.

(** Bounds on the numbers that the search for the digits meets. *)
Lemma pow2_le_pow10 : 2 ^ 1074 <= 10 ^ 324.
Proof. vm_compute. discriminate. Qed.

Lemma pow_big : 2 ^ 2099 * 10 ^ 340 + 1 < 2 ^ 4000.
Proof. vm_compute. reflexivity. Qed.

Lemma scaled_lowest a b :
  0 < a -> 0 < b -> b <= 10 ^ 324 ->
  snd (scaled a b (-324)) <= fst (scaled a b (-324)).
Proof.
  intros Ha Hb H. change (scaled a b (-324)) with (a * 10 ^ 324, b).
  cbn [fst snd]. revert H. generalize (10 ^ 324). intros c H. nia.
Qed.

Lemma mantissa_bound (M s : Z) :
  0 < M < 2 ^ 53 -> 0 <= s <= 2045 -> M * 2 ^ s < 2 ^ 2099.
Proof.
  intros HM Hs. apply Z.lt_le_trans with (2 ^ 53 * 2 ^ s).
  - apply Z.mul_lt_mono_pos_r; [apply Z.pow_pos_nonneg; lia | apply HM].
  - rewrite <- Z.pow_add_r by lia. apply Z.pow_le_mono_r; lia.
Qed.

Lemma power_of_le k : -340 <= k -> power_of k <= 10 ^ 340.
Proof.
  intros K. unfold power_of. destruct (Z.leb_spec 0 k).
  - change 1 with (Z.succ 0). apply Z.le_succ_l. apply Z.pow_pos_nonneg; lia.
  - apply Z.pow_le_mono_r; lia.
Qed.

Lemma quotient_chain (a t u v d p1 p2 p3 : Z) :
  0 < a -> a < p1 -> 0 < t -> t <= p2 -> p1 * p2 + 1 < p3 ->
  0 < u -> 0 < v -> u = a * t ->
  d = u / v \/ d = u / v + 1 -> d < p3.
Proof.
  intros Ha A Ht T P Hu Hv E D.
  assert (Q : u / v <= u) by (apply Z.div_le_upper_bound; [lia|]; nia).
  assert (a * t <= a * p2) by (apply Z.mul_le_mono_nonneg_l; lia).
  assert (a * p2 < p1 * p2) by (apply Z.mul_lt_mono_pos_r; lia).
  lia.
Qed.

(** The digits and the exponent of [repr] give back the number, and
    are within bounds. *)
Lemma shortest_decimal_sound (m : positive) (e : Z) :
  is_binary64 (S754_finite false m e) = true ->
  exists d k, shortest_decimal m e = (d, k) /\
    of_decimal false d k = S754_finite false m e /\
    0 < d < 2 ^ 4000 /\ -340 <= k <= 325.
Proof.
  intros B. apply binary64_canonical in B. pose proof B as (HM & Hs & Hc).
  unfold shortest_decimal.
  set (a := Zpos m * 2 ^ (e + 1074)). set (b := 2 ^ 1074).
  set (x := S754_finite false m e).
  assert (Hb : 0 < b) by (apply Z.pow_pos_nonneg; lia).
  assert (Ha : 0 < a)
    by (apply Z.mul_pos_pos; [reflexivity | apply Z.pow_pos_nonneg; lia]).
  set (dexp := find_dexp 632 a b 308).
  pose proof (find_dexp_range a b 632 308) as DR. fold dexp in DR.
  assert (D0 : snd (scaled a b dexp) <= fst (scaled a b dexp)).
  { apply find_dexp_ok. change (308 - Z.of_nat 632) with (-324).
    apply scaled_lowest; [exact Ha | exact Hb | exact pow2_le_pow10]. }
  apply scaled_shift in D0; try assumption.
  destruct (scaled a b (dexp - 16)) as [u v] eqn:S. cbn [fst snd] in D0.
  assert (C : candidate x a b (dexp - Z.of_nat 16) <> None).
  { change (Z.of_nat 16) with 16. apply (candidate_some x a b _ u v S).
    apply reads_back_17; assumption. }
  destruct (shortest_sound x a b 16 dexp C) as (d & kk & E & R & Bk & Dd).
  rewrite E.
  change (Z.of_nat 632) with 632 in DR. change (Z.of_nat 16) with 16 in Bk.
  destruct (scaled_pos a b kk _ _ Ha Hb (surjective_pairing _)) as (Hu & Hv & Eu).
  assert (Hd : 0 < d).
  { assert (0 <= fst (scaled a b kk) / snd (scaled a b kk))
      by (apply Z.div_pos; lia).
    destruct (Z.eq_dec d 0) as [->|N]; [|lia].
    subst x. rewrite reads_back_nonzero in R. discriminate. }
  assert (Dmax : d < 2 ^ 4000).
  { apply (quotient_chain a (power_of kk) (fst (scaled a b kk))
             (snd (scaled a b kk)) d (2 ^ 2099) (10 ^ 340) (2 ^ 4000) Ha);
      [ apply mantissa_bound; [exact HM | lia]
      | apply power_of_pos
      | apply power_of_le; lia
      | exact pow_big
      | exact Hu | exact Hv | exact Eu | exact Dd ]. }
  destruct (strip_zeros_sound x 17 d kk Hd R) as (d' & k' & Z' & B1 & B2 & R').
  exists d', k'. split; [exact Z'|]. split; [now apply same_eq|].
  change (Z.of_nat 17) with 17 in B2.
  split.
  - split; [apply B1 | apply Z.le_lt_trans with d; [apply B1 | exact Dmax]].
  - clear Dmax. lia.
Qed.

End ReprFacts.

Module TextFacts.
Import PyFloat FloatAux FloatFacts ReprFacts.
Local Open Scope Z_scope.

Lemma replicate_length' n c : String.length (Str.replicate n c) = n.
Proof. induction n as [|n IH]; simpl; [reflexivity | now rewrite IH]. Qed.

Lemma forallb_append (p : ascii -> bool) (a b : string) :
  Str.forallb p (a ++ b) = Str.forallb p a && Str.forallb p b.
Proof.
  induction a as [|c a IH]; simpl; [reflexivity|].
  now rewrite IH, andb_assoc.
Qed.

Lemma forallb_replicate (p : ascii -> bool) (n : nat) (c : ascii) :
  p c = true -> Str.forallb p (Str.replicate n c) = true.
Proof. intros H. induction n as [|n IH]; simpl; [reflexivity | now rewrite H]. Qed.

Lemma forallb_impl (p q : ascii -> bool) (s : string) :
  (forall c, p c = true -> q c = true) ->
  Str.forallb p s = true -> Str.forallb q s = true.
Proof.
  intros H. induction s as [|c s IH]; simpl; [reflexivity|].
  rewrite !andb_true_iff. intros [Hc Hs]. auto.
Qed.

Lemma take_drop (n : nat) (s : string) : Str.take n s ++ Str.drop n s = s.
Proof.
  revert s. induction n as [|n IH]; intros [|c s]; simpl; try reflexivity.
  now rewrite IH.
Qed.

Lemma length_take (n : nat) (s : string) :
  (n <= String.length s)%nat -> String.length (Str.take n s) = n.
Proof.
  revert s. induction n as [|n IH]; intros [|c s]; simpl; try reflexivity; try lia.
  intros H. rewrite IH; lia.
Qed.

Lemma digit_char_spec (r : Z) :
  0 <= r <= 9 -> is_digit (digit_char r) = true /\ digit_value (digit_char r) = r.
Proof.
  intros H. unfold is_digit, digit_value, digit_char, Str.code.
  rewrite nat_ascii_embedding by lia.
  split; [|lia].
  apply andb_true_iff. split; apply Nat.leb_le; lia.
Qed.

Lemma digits_value_app (a b : string) : forall v,
  digits_value_acc (a ++ b) v = digits_value_acc b (digits_value_acc a v).
Proof. induction a as [|c a IH]; intros v; simpl; [reflexivity | apply IH]. Qed.

Lemma digits_value_zeros (n : nat) : forall v,
  digits_value_acc (Str.replicate n "0") v = v * 10 ^ Z.of_nat n.
Proof.
  induction n as [|n IH]; intros v.
  - simpl. lia.
  - cbn [Str.replicate digits_value_acc]. rewrite IH.
    change (digit_value "0") with 0.
    rewrite Nat2Z.inj_succ, Z.pow_succ_r by lia. ring.
Qed.

Lemma digits_of_app (f : nat) : forall n acc,
  digits_of f n acc = digits_of f n "" ++ acc.
Proof.
  induction f as [|f IH]; intros n acc; cbn [digits_of]; [reflexivity|].
  destruct (n <? 10); [reflexivity|].
  rewrite (IH (n / 10) (String _ acc)), (IH (n / 10) (String _ "")).
  now rewrite append_assoc.
Qed.

Lemma digits_of_spec (f : nat) : forall n,
  0 <= n < 10 ^ (Z.of_nat f + 1) ->
  all_digits (digits_of f n "") /\ digits_value (digits_of f n "") = n /\
  digits_of f n "" <> "" /\
  (String.length (digits_of f n "") <= f + 1)%nat.
Proof.
  unfold all_digits, digits_value.
  induction f as [|f IH]; intros n H; cbn [digits_of].
  - change (10 ^ (Z.of_nat 0 + 1)) with 10 in H.
    rewrite Z.mod_small by lia.
    destruct (digit_char_spec n ltac:(lia)) as [D V].
    cbn [Str.forallb digits_value_acc String.length]. rewrite D, V.
    repeat split; try lia. discriminate.
  - destruct (Z.ltb_spec n 10) as [L|L].
    + rewrite Z.mod_small by lia.
      destruct (digit_char_spec n ltac:(lia)) as [D V].
      cbn [Str.forallb digits_value_acc String.length]. rewrite D, V.
      repeat split; try lia. discriminate.
    + rewrite digits_of_app.
      assert (Hq : 0 <= n / 10 < 10 ^ (Z.of_nat f + 1)).
      { split; [apply Z.div_pos; lia|].
        apply Z.div_lt_upper_bound; [lia|].
        rewrite Nat2Z.inj_succ in H.
        replace (Z.succ (Z.of_nat f) + 1) with (Z.succ (Z.of_nat f + 1)) in H by lia.
        rewrite Z.pow_succ_r in H by lia. lia. }
      destruct (IH (n / 10) Hq) as (A & V & N & Len).
      pose proof (Z.mod_pos_bound n 10 ltac:(lia)) as MB.
      destruct (digit_char_spec (n mod 10) ltac:(lia)) as [D Vd].
      rewrite forallb_append, A, digits_value_app, V, length_append.
      cbn [Str.forallb digits_value_acc String.length]. rewrite D, Vd.
      repeat split; try lia.
      * pose proof (Z.div_mod n 10 ltac:(lia)). lia.
      * destruct (digits_of f (n / 10) ""); [congruence | discriminate].
Qed.

Lemma str_of_nat_spec (n : Z) :
  0 <= n ->
  all_digits (str_of_nat n) /\ digits_value (str_of_nat n) = n /\
  str_of_nat n <> "" /\
  (String.length (str_of_nat n) <= Z.to_nat (Z.log2 n) + 1)%nat.
Proof.
  intros H. unfold str_of_nat. apply digits_of_spec.
  split; [assumption|]. rewrite Z2Nat.id by apply Z.log2_nonneg.
  destruct (Z.eq_dec n 0) as [->|N].
  - change (Z.log2 0) with 0. simpl. lia.
  - pose proof (Z.log2_spec n ltac:(lia)) as [_ U].
    assert (2 ^ Z.succ (Z.log2 n) <= 10 ^ Z.succ (Z.log2 n)).
    { apply Z.pow_le_mono_l. lia. }
    unfold Z.succ in *. lia.
Qed.

(** *** Reading digits *)

Lemma span_digits_app (ds rest : string) :
  all_digits ds -> no_digit_head rest ->
  span_digits (ds ++ rest) = (ds, rest).
Proof.
  unfold all_digits. induction ds as [|c ds IH]; cbn [append Str.forallb].
  - intros _ H. destruct rest as [|c rest]; [reflexivity|].
    cbn [no_digit_head] in H. cbn [span_digits]. now rewrite H.
  - rewrite andb_true_iff. intros [Hc Hd] H. cbn [span_digits].
    rewrite Hc, (IH Hd H). reflexivity.
Qed.

Lemma span_digits_all (ds : string) :
  all_digits ds -> span_digits ds = (ds, "").
Proof.
  intros H. rewrite <- (append_nil_r ds) at 1. now apply span_digits_app.
Qed.

Lemma parse_format_exp (e : Z) :
  parse_exponent (String "e" (format_exp e)) = Some e.
Proof.
  destruct (str_of_nat_spec (Z.abs e) ltac:(lia)) as (A & V & N & _).
  unfold format_exp. set (a := str_of_nat (Z.abs e)) in *.
  set (body := if Z.abs e <? 10 then String "0" a else a).
  assert (Ab : all_digits body).
  { subst body. destruct (Z.abs e <? 10); [|exact A].
    unfold all_digits. simpl. exact A. }
  assert (Vb : digits_value body = Z.abs e).
  { subst body. destruct (Z.abs e <? 10); [|exact V]. exact V. }
  assert (Nb : body <> "").
  { subst body. destruct (Z.abs e <? 10); [discriminate | exact N]. }
  unfold parse_exponent.
  change (Ascii.eqb "e" "e" || Ascii.eqb "e" "E")%bool with true. cbv iota.
  destruct (Z.ltb_spec e 0) as [L|L].
  - cbn [take_sign]. rewrite (span_digits_all body Ab).
    destruct body; [congruence|]. rewrite Vb. f_equal. lia.
  - cbn [take_sign]. rewrite (span_digits_all body Ab).
    destruct body; [congruence|]. rewrite Vb. f_equal. lia.
Qed.

Lemma parse_decimal_point (ip fp r2 : string) (e : Z) :
  all_digits ip -> ip <> "" -> all_digits fp -> no_digit_head r2 ->
  parse_exponent r2 = Some e ->
  parse_decimal (ip ++ String "." (fp ++ r2))
  = Some (digits_value (ip ++ fp), e - Z.of_nat (String.length fp)).
Proof.
  intros Ai Ni Af Hr He. unfold parse_decimal.
  rewrite (span_digits_app ip (String "." (fp ++ r2)) Ai) by reflexivity.
  rewrite (span_digits_app fp r2 Af Hr), He.
  destruct ip; [congruence | reflexivity].
Qed.

Lemma parse_decimal_exp (ip r : string) (e : Z) :
  all_digits ip -> ip <> "" ->
  parse_exponent (String "e" r) = Some e ->
  parse_decimal (ip ++ String "e" r) = Some (digits_value ip, e).
Proof.
  intros Ai Ni He. unfold parse_decimal.
  rewrite (span_digits_app ip (String "e" r) Ai) by reflexivity.
  rewrite He, append_nil_r. cbn [String.length Z.of_nat].
  rewrite Z.sub_0_r. destruct ip; [congruence | reflexivity].
Qed.

Lemma all_digits_cons c s : all_digits (String c s) -> is_digit c = true /\ all_digits s.
Proof. unfold all_digits. simpl. now rewrite andb_true_iff. Qed.

(** What [repr] prints is read as the digits and the exponent it was
    printed from, or as a number equal to theirs. *)
Lemma parse_format (ds : string) (d decpt : Z) :
  all_digits ds -> ds <> "" -> digits_value ds = d -> 0 < d ->
  exists d' k',
    parse_decimal (format_repr ds decpt) = Some (d', k') /\
    of_decimal false d' k'
    = of_decimal false d (decpt - Z.of_nat (String.length ds)).
Proof.
  intros A N V Hd. unfold format_repr.
  set (n := Z.of_nat (String.length ds)).
  destruct ((decpt <=? -4) || (16 <? decpt))%bool eqn:Ex.
  - (* scientific notation *)
    destruct ds as [|c rest]; [congruence|].
    destruct (all_digits_cons _ _ A) as [Ac Ar].
    assert (A1 : all_digits (String c "")).
    { unfold all_digits. simpl. now rewrite Ac. }
    destruct rest as [|c2 rest].
    + change (String c ("e" ++ format_exp (decpt - 1)))
        with (String c "" ++ String "e" (format_exp (decpt - 1))).
      rewrite (parse_decimal_exp _ _ (decpt - 1) A1) by
        (discriminate || apply parse_format_exp).
      exists d, (decpt - 1). split; [now rewrite V|].
      subst n. f_equal.
    + set (r := String c2 rest) in *.
      change (String c ("." ++ r ++ "e" ++ format_exp (decpt - 1)))
        with (String c "" ++ String "." (r ++ String "e" (format_exp (decpt - 1)))).
      rewrite (parse_decimal_point _ _ _ (decpt - 1) A1)
        by (discriminate || assumption || reflexivity || apply parse_format_exp).
      exists d, (decpt - 1 - Z.of_nat (String.length r)).
      split; [now rewrite <- V|].
      subst n. f_equal. cbn [String.length]. lia.
  - apply orb_false_iff in Ex. destruct Ex as [E1 E2].
    apply Z.leb_gt in E1. apply Z.ltb_ge in E2.
    destruct (Z.leb_spec decpt 0) as [L0|L0].
    + (* 0.000ddd *)
      set (z := Z.to_nat (- decpt)).
      change ("0." ++ Str.replicate z "0" ++ ds)
        with ("0" ++ String "." (Str.replicate z "0" ++ ds)).
      rewrite <- (append_nil_r (Str.replicate z "0" ++ ds)).
      assert (Az : all_digits (Str.replicate z "0" ++ ds)).
      { unfold all_digits. rewrite forallb_append.
        rewrite forallb_replicate by reflexivity. exact A. }
      rewrite (parse_decimal_point "0" _ "" 0)
        by (reflexivity || discriminate || assumption || exact I).
      eexists _, _. split; [reflexivity|].
      f_equal.
      * unfold digits_value. rewrite !digits_value_app.
        rewrite digits_value_zeros. cbn [digits_value_acc].
        change (digit_value "0") with 0. exact V.
      * rewrite length_append, replicate_length'. subst n z. lia.
    + destruct (Z.ltb_spec decpt n) as [Ln|Ln].
      * (* ddd.ddd *)
        set (t := Z.to_nat decpt).
        assert (TD : Str.take t ds ++ Str.drop t ds = ds) by apply take_drop.
        assert (At : all_digits (Str.take t ds) /\ all_digits (Str.drop t ds)).
        { unfold all_digits in *. rewrite <- TD, forallb_append in A.
          now apply andb_true_iff in A. }
        destruct At as [At Ad].
        assert (Lt : String.length (Str.take t ds) = t)
          by (apply length_take; subst t n; lia).
        change (Str.take t ds ++ "." ++ Str.drop t ds)
          with (Str.take t ds ++ String "." (Str.drop t ds)).
        replace (String "." (Str.drop t ds))
          with (String "." (Str.drop t ds ++ "")) by now rewrite append_nil_r.
        rewrite (parse_decimal_point (Str.take t ds) (Str.drop t ds) "" 0);
          try assumption; try reflexivity; try exact I.
        -- eexists _, _. split; [reflexivity|]. rewrite TD, V. f_equal.
           assert (String.length ds = (t + String.length (Str.drop t ds))%nat).
           { rewrite <- TD at 1. rewrite length_append. lia. }
           subst n t. lia.
        -- intros E. rewrite E in Lt. simpl in Lt. subst t. lia.
      * (* ddd000.0 *)
        set (z := Z.to_nat (decpt - n)).
        change (ds ++ Str.replicate z "0" ++ ".0")
          with (ds ++ Str.replicate z "0" ++ String "." ("0" ++ "")).
        rewrite <- append_assoc.
        assert (Az : all_digits (ds ++ Str.replicate z "0")).
        { unfold all_digits. rewrite forallb_append.
          rewrite forallb_replicate by reflexivity. now rewrite A. }
        rewrite (parse_decimal_point _ "0" "" 0);
          try assumption; try reflexivity; try exact I.
        -- eexists _, _. split; [reflexivity|].
           unfold digits_value. rewrite !digits_value_app.
           fold (digits_value ds). rewrite V, digits_value_zeros.
           cbn [digits_value_acc String.length]. change (digit_value "0") with 0.
           rewrite <- (of_decimal_shift false d (decpt - n) (Z.of_nat z + 1))
             by lia.
           f_equal.
           ++ rewrite Z.pow_add_r by lia. ring.
           ++ subst z. rewrite Z2Nat.id by lia. lia.
        -- destruct ds; [congruence | discriminate].
Qed.

(** *** [float] on what [repr] prints *)

Lemma digit_plain (c : ascii) : is_digit c = true -> plain c = true.
Proof.
  destruct c as [[] [] [] [] [] [] [] []]; vm_compute; intros H;
    first [reflexivity | discriminate H].
Qed.

Lemma digit_no_sign (c : ascii) :
  is_digit c = true ->
  c <> "-"%char /\ c <> "+"%char /\ lower_char c <> "i"%char /\
  lower_char c <> "n"%char.
Proof.
  destruct c as [[] [] [] [] [] [] [] []]; vm_compute; intros H;
    first [discriminate H | repeat split; discriminate].
Qed.

Lemma rstrip_plain (p : ascii -> bool) (s : string) :
  Str.forallb (fun c => negb (p c)) s = true -> Str.rstrip_with p s = s.
Proof.
  induction s as [|c s IH]; cbn [Str.forallb Str.rstrip_with]; [reflexivity|].
  rewrite andb_true_iff, negb_true_iff. intros [Hc Hs].
  rewrite (IH Hs). destruct s; [now rewrite Hc | reflexivity].
Qed.

Lemma strip_plain (p : ascii -> bool) (s : string) :
  Str.forallb (fun c => negb (p c)) s = true -> Str.strip_with p s = s.
Proof.
  intros H. unfold Str.strip_with.
  assert (L : Str.lstrip_with p s = s).
  { destruct s as [|c s]; [reflexivity|]. cbn [Str.forallb] in H.
    apply andb_true_iff in H. destruct H as [Hc _].
    apply negb_true_iff in Hc. cbn [Str.lstrip_with]. now rewrite Hc. }
  rewrite L. now apply rstrip_plain.
Qed.

Lemma drop_underscores_plain (s : string) : forall prev,
  Ascii.eqb prev "_" = false ->
  Str.forallb (fun c => negb (Ascii.eqb c "_")) s = true ->
  drop_underscores prev s = Some s.
Proof.
  induction s as [|c s IH]; intros prev Hp; cbn [Str.forallb drop_underscores].
  - now rewrite Hp.
  - rewrite andb_true_iff, negb_true_iff. intros [Hc Hs].
    rewrite Hc, Hp. cbn [andb]. now rewrite (IH c Hc Hs).
Qed.

Lemma of_string_plain (c : ascii) (s : string) :
  is_digit c = true -> Str.forallb plain (String c s) = true ->
  of_string (String c s)
  = match parse_decimal (String c s) with
    | Some (d, e) => Some (of_decimal false d e)
    | None => None
    end.
Proof.
  intros D P. unfold of_string.
  rewrite strip_plain
    by (apply (forallb_impl plain); [|exact P];
        intros x Hx; unfold plain in Hx; now apply andb_true_iff in Hx).
  rewrite drop_underscores_plain;
    [|reflexivity
     |apply (forallb_impl plain); [|exact P];
      intros x Hx; unfold plain in Hx; now apply andb_true_iff in Hx].
  destruct (digit_no_sign c D) as (N1 & N2 & N3 & N4).
  assert (T : take_sign (String c s) = (false, String c s)).
  { unfold take_sign.
    destruct (Ascii.eqb_spec c "-"); [congruence|].
    destruct (Ascii.eqb_spec c "+"); [congruence|].
    destruct c as [[] [] [] [] [] [] [] []]; try reflexivity; congruence. }
  rewrite T. unfold parse_abs. cbn [lower].
  assert (E1 : String.eqb (String (lower_char c) (lower s)) "inf" = false).
  { cbn [String.eqb]. destruct (Ascii.eqb_spec (lower_char c) "i"); [congruence|].
    reflexivity. }
  assert (E2 : String.eqb (String (lower_char c) (lower s)) "infinity" = false).
  { cbn [String.eqb]. destruct (Ascii.eqb_spec (lower_char c) "i"); [congruence|].
    reflexivity. }
  assert (E3 : String.eqb (String (lower_char c) (lower s)) "nan" = false).
  { cbn [String.eqb]. destruct (Ascii.eqb_spec (lower_char c) "n"); [congruence|].
    reflexivity. }
  rewrite E1, E2, E3. reflexivity.
Qed.

Lemma plain_format_exp (e : Z) : Str.forallb plain (format_exp e) = true.
Proof.
  destruct (str_of_nat_spec (Z.abs e) ltac:(lia)) as (A & _).
  assert (P : Str.forallb plain (str_of_nat (Z.abs e)) = true)
    by (apply (forallb_impl is_digit); [apply digit_plain | exact A]).
  unfold format_exp. cbn [Str.forallb].
  destruct (e <? 0), (Z.abs e <? 10); cbn [Str.forallb]; rewrite P; reflexivity.
Qed.

Lemma length_format_exp (e : Z) :
  (String.length (format_exp e) <= Z.to_nat (Z.abs e) + 4)%nat.
Proof.
  destruct (str_of_nat_spec (Z.abs e) ltac:(lia)) as (_ & _ & _ & L).
  pose proof (Z.log2_le_lin (Z.abs e) ltac:(lia)).
  pose proof (Z.log2_nonneg (Z.abs e)).
  unfold format_exp. cbn [String.length].
  destruct (Z.abs e <? 10); cbn [String.length]; lia.
Qed.

Lemma format_repr_shape (ds : string) (decpt : Z) :
  all_digits ds -> ds <> "" ->
  (exists c s, format_repr ds decpt = String c s /\ is_digit c = true) /\
  Str.forallb plain (format_repr ds decpt) = true /\
  (String.length (format_repr ds decpt)
   <= String.length ds + Z.to_nat (Z.abs decpt) + 10)%nat.
Proof.
  intros A N.
  assert (P : Str.forallb plain ds = true)
    by (apply (forallb_impl is_digit); [apply digit_plain | exact A]).
  unfold format_repr. set (n := Z.of_nat (String.length ds)).
  destruct ((decpt <=? -4) || (16 <? decpt))%bool eqn:Ex.
  - destruct ds as [|c rest]; [congruence|].
    destruct (all_digits_cons _ _ A) as [Ac Ar].
    pose proof (plain_format_exp (decpt - 1)) as Pe.
    pose proof (length_format_exp (decpt - 1)) as Le.
    cbn [Str.forallb] in P. apply andb_true_iff in P. destruct P as [Pc Pr].
    destruct rest as [|c2 rest].
    + split; [eauto|]. split.
      * cbn [Str.forallb append]. now rewrite Pc, Pe.
      * cbn [String.length append]. lia.
    + split; [eauto|]. split.
      * cbn [Str.forallb append]. rewrite Pc. cbn [andb].
        change (plain ".") with true. cbn [andb].
        cbn [Str.forallb] in Pr. apply andb_true_iff in Pr.
        destruct Pr as [Pc2 Pr]. rewrite Pc2. cbn [andb].
        rewrite forallb_append, Pr. cbn [andb Str.forallb].
        change (plain "e") with true. exact Pe.
      * cbn [String.length append]. rewrite length_append.
        cbn [String.length append]. lia.
  - apply orb_false_iff in Ex. destruct Ex as [E1 E2].
    apply Z.leb_gt in E1. apply Z.ltb_ge in E2.
    destruct (Z.leb_spec decpt 0) as [L0|L0].
    + split; [exists "0"%char; eexists; split; reflexivity|]. split.
      * change ("0." ++ Str.replicate (Z.to_nat (- decpt)) "0" ++ ds)
          with (String "0" (String "." (Str.replicate (Z.to_nat (- decpt)) "0" ++ ds))).
        cbn [Str.forallb]. change (plain "0") with true. change (plain ".") with true.
        cbn [andb]. rewrite forallb_append, forallb_replicate by reflexivity.
        exact P.
      * change ("0." ++ Str.replicate (Z.to_nat (- decpt)) "0" ++ ds)
          with (String "0" (String "." (Str.replicate (Z.to_nat (- decpt)) "0" ++ ds))).
        cbn [String.length]. rewrite length_append, replicate_length'. lia.
    + destruct (Z.ltb_spec decpt n) as [Ln|Ln].
      * set (t := Z.to_nat decpt).
        assert (TD : Str.take t ds ++ Str.drop t ds = ds) by apply take_drop.
        assert (Lt : String.length (Str.take t ds) = t)
          by (apply length_take; subst t n; lia).
        assert (Pt : Str.forallb plain (Str.take t ds) = true /\
                     Str.forallb plain (Str.drop t ds) = true).
        { rewrite <- TD, forallb_append in P. now apply andb_true_iff in P. }
        destruct Pt as [Pt Pd].
        assert (At : all_digits (Str.take t ds)).
        { unfold all_digits in *. rewrite <- TD, forallb_append in A.
          now apply andb_true_iff in A. }
        split; [|split].
        -- destruct (Str.take t ds) as [|c s] eqn:E.
           ++ simpl in Lt. subst t. lia.
           ++ apply all_digits_cons in At. destruct At as [Ac _].
              exists c. eexists. split; [reflexivity | exact Ac].
        -- rewrite forallb_append, Pt.
           change ("." ++ Str.drop t ds) with (String "." (Str.drop t ds)).
           cbn [Str.forallb]. change (plain ".") with true. exact Pd.
        -- rewrite length_append.
           change ("." ++ Str.drop t ds) with (String "." (Str.drop t ds)).
           cbn [String.length].
           assert (String.length ds = (t + String.length (Str.drop t ds))%nat).
           { rewrite <- TD at 1. rewrite length_append. lia. }
           lia.
      * split; [|split].
        -- destruct ds as [|c s]; [congruence|].
           apply all_digits_cons in A. destruct A as [Ac _].
           exists c. eexists. split; [reflexivity | exact Ac].
        -- rewrite !forallb_append, P, forallb_replicate by reflexivity.
           reflexivity.
        -- rewrite !length_append, replicate_length'.
           change (String.length ".0") with 2%nat. subst n. lia.
Qed.

(** [float(repr(x))] is [x] for a binary64 number greater than zero
    (infinity included). *)
Lemma repr_roundtrip (x : float) :
  is_binary64 x = true -> gt_zero x = true -> of_string (repr x) = Some x.
Proof.
  intros B G. destruct x as [sg|sg| |sg m e]; try discriminate G.
  - destruct sg; [discriminate G|]. vm_compute. reflexivity.
  - destruct sg; [discriminate G|].
    destruct (shortest_decimal_sound m e B) as (d & k & S & R & [Hd _] & _).
    unfold repr, repr_abs. rewrite S.
    destruct (str_of_nat_spec d ltac:(lia)) as (A & V & N & _).
    set (ds := str_of_nat d) in *.
    set (decpt := Z.of_nat (String.length ds) + k).
    destruct (format_repr_shape ds decpt A N) as ((c & s & E & D) & P & _).
    destruct (parse_format ds d decpt A N V Hd) as (d' & k' & Pd & Od).
    rewrite E in *. rewrite (of_string_plain c s D P), Pd, Od.
    subst decpt.
    replace (Z.of_nat (String.length ds) + k - Z.of_nat (String.length ds))
      with k by lia.
    now rewrite R.
Qed.

Lemma repr_length (x : float) :
  is_binary64 x = true -> gt_zero x = true ->
  Z.of_nat (String.length (repr x)) <= 20000.
Proof.
  intros B G. destruct x as [sg|sg| |sg m e]; try discriminate G.
  - destruct sg; [discriminate G|]. vm_compute. discriminate.
  - destruct sg; [discriminate G|].
    destruct (shortest_decimal_sound m e B) as (d & k & S & R & [Hd Dmax] & Bk).
    unfold repr, repr_abs. rewrite S.
    destruct (str_of_nat_spec d ltac:(lia)) as (A & V & N & L).
    set (ds := str_of_nat d) in *.
    set (decpt := Z.of_nat (String.length ds) + k).
    destruct (format_repr_shape ds decpt A N) as (_ & _ & Len).
    assert (Z.log2 d < 4000) by (apply Z.log2_lt_pow2; [exact Hd | exact Dmax]).
    pose proof (Z.log2_nonneg d). clear Dmax.
    subst decpt. lia.
Qed.

Lemma repr_fits (x : float) :
  is_binary64 x = true -> gt_zero x = true ->
  (N.of_nat (String.length (repr x)) <= Csv.field_limit)%N.
Proof.
  intros B G. pose proof (repr_length x B G) as L.
  unfold Csv.field_limit. lia.
Qed.

End TextFacts.

(** ** Saving and loading *)

Lemma insert_sorted_perm k l : Permutation (insert_sorted k l) (k :: l).
Proof.
  induction l as [|x l IH]; simpl; [reflexivity|].
  destruct (String.leb k x); [reflexivity|].
  rewrite IH. apply perm_swap.
Qed.

Lemma sorted_perm l : Permutation (sorted l) l.
Proof.
  induction l as [|x l IH]; simpl; [reflexivity|].
  rewrite insert_sorted_perm. now constructor.
Qed.

Lemma rows_text_records d ids :
  rows_text d ids = CsvAux.write_rows (map row_of (records d ids)).
Proof.
  induction ids as [|k ids IH]; simpl; [reflexivity|].
  destruct (Dict.get d k); simpl; now rewrite IH.
Qed.

Lemma csv_text_rows d :
  csv_text d
  = CsvAux.write_rows (FIELDNAMES :: map row_of (records d (sorted (Dict.keys d)))).
Proof. unfold csv_text. now rewrite rows_text_records. Qed.

Lemma distinct_NoDup (l : list string) : distinct String.eqb l = true -> NoDup l.
Proof.
  induction l as [|x l IH]; simpl; [constructor|].
  rewrite andb_true_iff, negb_true_iff. intros [H1 H2]. constructor; [|auto].
  intros Hin. apply inb_In in Hin. unfold Str.inb in Hin. congruence.
Qed.

Lemma load_rows_ok (es : list Employee) (f : Employee -> Csv.row) : forall d0,
  (forall e, In e es -> load_row (f e) = inl (Some e)) ->
  load_rows (map f es) d0
  = (fold_left (fun d e => Dict.set d (ID e) e) es d0, None).
Proof.
  induction es as [|e es IH]; intros d0 H; simpl; [reflexivity|].
  rewrite (H e) by now left. apply IH. intros e' He'. apply H. now right.
Qed.

Lemma get_fold_other (es : list Employee) k : forall d0,
  (forall e, In e es -> ID e <> k) ->
  Dict.get (fold_left (fun d e => Dict.set d (ID e) e) es d0) k = Dict.get d0 k.
Proof.
  induction es as [|e es IH]; intros d0 H; simpl; [reflexivity|].
  rewrite IH by (intros e' He'; apply H; now right).
  apply get_set_other. apply H. now left.
Qed.

Lemma get_fold_in (es : list Employee) e : forall d0,
  NoDup (map ID es) -> In e es ->
  Dict.get (fold_left (fun d e => Dict.set d (ID e) e) es d0) (ID e) = Some e.
Proof.
  induction es as [|a es IH]; intros d0 N Hin; [destruct Hin|].
  simpl in N. inversion N as [|? ? Na Nes]; subst. simpl.
  destruct Hin as [->|Hin].
  - rewrite get_fold_other; [apply get_set_same|].
    intros e' He' E. apply Na. rewrite <- E. now apply in_map.
  - now apply IH.
Qed.

Lemma set_new {V} (d : Dict.t V) k v :
  ~ In k (Dict.keys d) -> Dict.set d k v = (d ++ [(k, v)])%list.
Proof.
  induction d as [|[k0 v0] d IH]; simpl; [reflexivity|].
  intros N. destruct (String.eqb k k0) eqn:E.
  - apply String.eqb_eq in E. subst. tauto.
  - rewrite IH; tauto.
Qed.

Lemma fold_set_new (es : list Employee) : forall d0,
  NoDup (map ID es) -> (forall e, In e es -> ~ In (ID e) (Dict.keys d0)) ->
  fold_left (fun d e => Dict.set d (ID e) e) es d0
  = (d0 ++ map (fun e => (ID e, e)) es)%list.
Proof.
  induction es as [|a es IH]; intros d0 N H; simpl; [now rewrite app_nil_r|].
  inversion N as [|? ? Na Nes]; subst.
  rewrite set_new by (apply H; now left).
  rewrite IH; [now rewrite <- app_assoc| assumption |].
  intros e He Hin. unfold Dict.keys in Hin. rewrite map_app in Hin.
  apply in_app_or in Hin. destruct Hin as [Hin|[Hin|[]]].
  - apply (H e); [now right | exact Hin].
  - simpl in Hin. apply Na. rewrite Hin. now apply in_map.
Qed.

Lemma records_in d ids e :
  In e (records d ids) <-> exists k, In k ids /\ Dict.get d k = Some e.
Proof.
  unfold records. rewrite in_flat_map. split.
  - intros (k & Hk & H). destruct (Dict.get d k) as [e'|] eqn:G; [|destruct H].
    destruct H as [->|[]]. eauto.
  - intros (k & Hk & G). exists k. split; [assumption|]. rewrite G. now left.
Qed.

Lemma records_ids d ids :
  (forall k, In k ids -> exists e, Dict.get d k = Some e /\ ID e = k) ->
  map ID (records d ids) = ids.
Proof.
  induction ids as [|k ids IH]; intros H; simpl; [reflexivity|].
  destruct (H k) as (e & G & E); [now left|]. rewrite G. simpl.
  rewrite E, IH; [reflexivity|]. intros k' Hk'. apply H. now right.
Qed.

Lemma valid_store_item d k e :
  valid_store d = true -> Dict.get d k = Some e ->
  ID e = k /\ valid_record e = true.
Proof.
  unfold valid_store. rewrite !andb_true_iff. intros [[F _] _] G.
  apply get_In in G. destruct G as (k' & Hin & ->).
  rewrite forallb_forall in F. specialize (F _ Hin). simpl in F.
  apply andb_true_iff in F. destruct F as [F1 F2].
  apply String.eqb_eq in F1. auto.
Qed.

Lemma limit_item d k e :
  fields_within_limit d = true -> Dict.get d k = Some e ->
  CsvAux.fits (ID e) /\ CsvAux.fits (cell (Name e)) /\
  CsvAux.fits (cell (Position e)) /\ CsvAux.fits (cell (Email e)).
Proof.
  unfold fields_within_limit. intros F G.
  apply get_In in G. destruct G as (k' & Hin & ->).
  rewrite forallb_forall in F. specialize (F _ Hin). simpl in F.
  rewrite !andb_true_iff in F. unfold within_limit in F.
  rewrite !N.leb_le in F. unfold CsvAux.fits. tauto.
Qed.

Lemma load_row_of (e : Employee) :
  valid_record e = true ->
  load_row (Csv.zip_row FIELDNAMES (row_of e)) = inl (Some e).
Proof.
  unfold valid_record. rewrite !andb_true_iff.
  intros [[[[[Hid Hn] Hp] Hb] Hg] Hm].
  destruct e as [i [n|] [p|] s [m|]]; simpl in *; try discriminate.
  unfold load_row. cbn [Csv.row_lookup Csv.zip_row FIELDNAMES row_of String.eqb
                        ID Name Position Salary Email cell].
  simpl String.eqb. cbn iota.
  destruct i as [|c i]; [discriminate|].
  simpl. rewrite (TextFacts.repr_roundtrip s Hb Hg). reflexivity.
Qed.

Lemma reload (d : Dict.t Employee) :
  valid_store d = true -> fields_within_limit d = true ->
  let es := records d (sorted (Dict.keys d)) in
  Csv.reader (csv_text d) = (FIELDNAMES :: map row_of es, None) /\
  load_rows (Csv.dict_rows (FIELDNAMES :: map row_of es)) []
  = (map (fun e => (ID e, e)) es, None) /\
  map ID es = sorted (Dict.keys d) /\
  same_records d (map (fun e => (ID e, e)) es).
Proof.
  intros V L es.
  assert (K : forall k, In k (sorted (Dict.keys d)) ->
                exists e, Dict.get d k = Some e /\ ID e = k).
  { intros k Hk. apply (Permutation_in _ (sorted_perm _)) in Hk.
    apply get_In_keys in Hk. destruct (Dict.get d k) as [e|] eqn:G; [|congruence].
    exists e. split; [reflexivity|]. now apply (valid_store_item d k e V). }
  assert (I : map ID es = sorted (Dict.keys d)) by now apply records_ids.
  assert (Ves : forall e, In e es -> valid_record e = true /\
                  Dict.get d (ID e) = Some e).
  { intros e He. apply records_in in He. destruct He as (k & _ & G).
    destruct (valid_store_item d k e V G) as [<- Ve]. auto. }
  assert (N : NoDup (map ID es)).
  { rewrite I. apply (Permutation_NoDup (Permutation_sym (sorted_perm _))).
    apply distinct_NoDup. unfold valid_store in V.
    rewrite !andb_true_iff in V. tauto. }
  split; [|split; [|split]].
  - rewrite csv_text_rows. apply CsvFacts.reader_write_rows.
    constructor.
    + split; [discriminate|].
      repeat constructor; unfold CsvAux.fits, Csv.field_limit; simpl; lia.
    + apply Forall_forall. intros r Hr. apply in_map_iff in Hr.
      destruct Hr as (e & <- & He). destruct (Ves e He) as [Ve G].
      destruct (limit_item d _ e L G) as (F1 & F2 & F3 & F4).
      split; [discriminate|]. unfold row_of.
      repeat constructor; try assumption.
      unfold valid_record in Ve. rewrite !andb_true_iff in Ve.
      apply TextFacts.repr_fits; tauto.
  - unfold Csv.dict_rows.
    assert (Fl : filter (fun r => negb (Csv.is_empty_row r)) (map row_of es)
                 = map row_of es).
    { clear. induction es as [|e es IH]; simpl; [reflexivity | now rewrite IH]. }
    rewrite Fl, map_map.
    rewrite (load_rows_ok es (fun e => Csv.zip_row FIELDNAMES (row_of e)) [])
      by (intros e He; apply load_row_of; now apply Ves).
    rewrite (fold_set_new es [] N (fun _ _ H => H)). reflexivity.
  - exact I.
  - intros k.
    pose proof (fold_set_new es [] N (fun _ _ H => H)) as FS.
    simpl app in FS. rewrite <- FS.
    destruct (Dict.get d k) as [e|] eqn:G.
    + destruct (valid_store_item d k e V G) as [<- _].
      apply get_fold_in; [assumption|].
      apply records_in. exists (ID e). split; [|assumption].
      apply (Permutation_in _ (Permutation_sym (sorted_perm _))).
      apply get_In_keys. congruence.
    + rewrite get_fold_other; [reflexivity|].
      intros e He E. destruct (Ves e He) as [_ G']. congruence.
Qed.

(** C2, amended.  For a store of the data model (valid records stored
    under their non-blank identifiers, identifiers and emails unique)
    none of whose texts is longer than 131072 characters, the field
    size limit of the CSV reader, and a file that can be written and
    read: saving succeeds, and a store initialised from the file saved
    holds the same records under the same identifiers, in the order of
    the sorted identifiers, and reports no error. *)
Theorem save_then_load (w : world) :
  valid_store (employees w) = true ->
  fields_within_limit (employees w) = true ->
  writable (disk w) = true -> readable (disk w) = true ->
  exists w1,
    _save_to_csv w = (w1, true) /\
    content (disk w1) = Some (csv_text (employees w)) /\
    same_records (employees w) (employees (init (disk w1))) /\
    Dict.keys (employees (init (disk w1))) = sorted (Dict.keys (employees w)) /\
    output (init (disk w1)) = [] /\
    disk (init (disk w1)) = disk w1.
Proof.
  intros V L W R.
  destruct (reload (employees w) V L) as (H1 & H2 & H3 & H4).
  unfold _save_to_csv, open_write. rewrite W.
  eexists. split; [reflexivity|]. cbn [disk set_disk content].
  split; [reflexivity|].
  unfold init, _load_from_csv, open_read.
  cbn [disk set_employees content readable employees output]. rewrite R, H1, H2.
  cbn [employees set_employees output disk].
  split; [exact H4|]. split; [|split; reflexivity].
  unfold Dict.keys. rewrite map_map. simpl. exact H3.
Qed.

(** The theorem for the store of the example. *)
Lemma save_then_load_witness :
  exists w1,
    _save_to_csv one_record = (w1, true) /\
    same_records (employees one_record) (employees (init (disk w1))).
Proof.
  destruct (save_then_load one_record) as (w1 & H1 & _ & H3 & _);
    [vm_compute; reflexivity | vm_compute; reflexivity
    | vm_compute; reflexivity | vm_compute; reflexivity |].
  exists w1. split; [exact H1 | exact H3].
Defined.


(** *** A field longer than the limit *)

Lemma replicate_plain n :
  Csv.needs_quotes (Str.replicate n "a") = false.
Proof. induction n as [|n IH]; [reflexivity | exact IH]. Qed.

Lemma replicate_length n c : String.length (Str.replicate n c) = n.
Proof. induction n as [|n IH]; simpl; [reflexivity | now rewrite IH]. Qed.

Lemma blank_cons c s : Str.isspace c = false -> Str.blank (String c s) = false.
Proof.
  intros H. rewrite blank_strip. unfold Str.strip, Str.strip_with. simpl.
  rewrite H. simpl. destruct (Str.rstrip_with Str.isspace s); [now rewrite H | reflexivity].
Qed.

Lemma long_name_valid n : 0 < n -> valid_store [("E1", long_name n)] = true.
Proof.
  intros H. destruct n as [|n]; [lia|].
  unfold valid_store, valid_record.
  cbn [forallb fst snd long_name ID Name Position Salary Email text_ok Str.replicate].
  rewrite (blank_cons "a" (Str.replicate n "a")) by reflexivity.
  vm_compute. reflexivity.
Qed.

Lemma long_name_reader n rest :
  (Csv.field_limit < N.of_nat n)%N ->
  Csv.reader (header_text ++ Csv.writerow (row_of (long_name n)) ++ rest)
  = ([FIELDNAMES], Some Csv.FieldTooLarge).
Proof.
  intros H. unfold Csv.reader, header_text.
  rewrite CsvFacts.read_writerow;
    [|discriminate
     |repeat constructor; unfold CsvAux.fits, Csv.field_limit; simpl; lia].
  enough (E : Csv.read_lines Csv.parse_reset
                (Csv.lines_of (Csv.writerow (row_of (long_name n)) ++ rest))
              = ([], Some Csv.FieldTooLarge)) by now rewrite E.
  destruct n as [|n]; [unfold Csv.field_limit in H; lia|].
  set (tail := Csv.join ["Engineer"; PyFloat.repr (Salary (long_name (S n)));
                         "ana@x.com"]).
  assert (T : Csv.writerow (row_of (long_name (S n))) ++ rest
              = Csv.write_field "E1"
                ++ String Csv.comma
                     (String "a" (Str.replicate n "a"
                        ++ (String Csv.comma tail ++ Csv.lineterminator ++ rest)))).
  { unfold Csv.writerow, row_of. cbn [long_name ID Name Position Email cell].
    change (Csv.join ["E1"; Str.replicate (S n) "a"; "Engineer";
                      PyFloat.repr (Salary (long_name (S n))); "ana@x.com"])
      with (Csv.write_field "E1"
            ++ String Csv.comma
                 (Csv.write_field (Str.replicate (S n) "a") ++ String Csv.comma tail)).
    unfold Csv.write_field at 2. rewrite replicate_plain.
    cbn [Str.replicate].
    repeat (rewrite append_assoc || cbn [append]). reflexivity. }
  rewrite T, CsvFacts.lines_open by discriminate.
  change Csv.parse_reset with (CsvAux.mk Csv.START_RECORD [] "").
  rewrite CsvFacts.field_comma;
    [|now right | unfold CsvAux.fits, Csv.field_limit; simpl; lia].
  rewrite CsvFacts.read_open_char by reflexivity.
  rewrite CsvFacts.step_start_char by (reflexivity || now left).
  apply CsvFacts.unquoted_overflow.
  - apply replicate_plain.
  - unfold Csv.field_limit. simpl. lia.
  - rewrite replicate_length. simpl String.length. lia.
Qed.

(** C2, as stated, fails: a record whose name has 131073 characters is a
    valid record, the store is saved, and the store initialised from the
    file saved is empty, the reader having stopped at the name with the
    error "field larger than field limit". *)
Lemma long_field_is_not_reloaded :
  let d := [("E1", long_name (N.to_nat 131073))] in
  let w := {| employees := d; disk := empty_disk; output := [] |} in
  valid_store d = true /\
  exists w1,
    _save_to_csv w = (w1, true) /\
    employees (init (disk w1)) = [] /\
    Dict.get (employees (init (disk w1))) "E1" <> Dict.get d "E1" /\
    output (init (disk w1)) = [ErrorLoading (CsvError Csv.FieldTooLarge)].
Proof.
  intros d w. split; [apply long_name_valid; lia|].
  set (f := {| content := Some (csv_text d); readable := true; writable := true |}).
  exists (set_disk w f). split; [reflexivity|].
  change (disk (set_disk w f)) with f.
  assert (L : (Csv.field_limit < N.of_nat (N.to_nat 131073))%N)
    by (unfold Csv.field_limit; lia).
  assert (I : init f
              = {| employees := []; disk := f;
                   output := [ErrorLoading (CsvError Csv.FieldTooLarge)] |}).
  { unfold init, _load_from_csv, open_read.
    cbn [f disk set_employees content readable employees].
    unfold csv_text, d. cbn [Dict.keys map fst sorted fold_right insert_sorted].
    cbn [rows_text Dict.get]. rewrite String.eqb_refl.
    cbn [rows_text].
    rewrite (long_name_reader _ "" L). reflexivity. }
  rewrite I. cbn [employees output]. split; [reflexivity|].
  split; [|reflexivity]. unfold d. cbn [Dict.get]. rewrite String.eqb_refl. discriminate.
Qed.

(** ** Loading *)

Lemma load_rows_all rows : forall d,
  Forall row_loads rows ->
  load_rows rows d = (fold_left load_step rows d, None).
Proof.
  induction rows as [|r rows IH]; intros d F; [reflexivity|].
  inversion F as [|? ? [oe Hr] Frs]; subst. simpl. unfold load_step at 2.
  rewrite Hr. destruct oe; now apply IH.
Qed.

Lemma load_rows_fail pre bad post ex : forall d,
  Forall row_loads pre -> load_row bad = inr ex ->
  load_rows (pre ++ bad :: post) d = (fold_left load_step pre d, Some ex).
Proof.
  induction pre as [|r pre IH]; intros d F B; simpl.
  - now rewrite B.
  - inversion F as [|? ? [oe Hr] Frs]; subst. unfold load_step at 2.
    rewrite Hr. destruct oe; now apply IH.
Qed.

Lemma load_row_skips r : load_row r = inl None <-> has_no_id r.
Proof.
  unfold load_row, has_no_id.
  destruct (Csv.row_lookup r "ID") as [[[|c i]|]|]; try (split; [auto | reflexivity]).
  split.
  - destruct (Csv.row_lookup r "Name"); [|discriminate].
    destruct (Csv.row_lookup r "Position"); [|discriminate].
    destruct (Csv.row_lookup r "Salary") as [[t|]|]; try discriminate.
    destruct (PyFloat.of_string t); [|discriminate].
    destruct (Csv.row_lookup r "Email"); discriminate.
  - intros [H|[H|H]]; discriminate.
Qed.

Lemma load_row_loaded r e :
  load_row r = inl (Some e) ->
  Csv.row_lookup r "ID" = Some (Some (ID e)) /\ ID e <> "" /\
  Csv.row_lookup r "Name" = Some (Name e) /\
  Csv.row_lookup r "Position" = Some (Position e) /\
  Csv.row_lookup r "Email" = Some (Email e) /\
  exists text, Csv.row_lookup r "Salary" = Some (Some text) /\
               PyFloat.of_string text = Some (Salary e).
Proof.
  unfold load_row.
  destruct (Csv.row_lookup r "ID") as [[[|c i]|]|]; try discriminate.
  destruct (Csv.row_lookup r "Name"); [|discriminate].
  destruct (Csv.row_lookup r "Position"); [|discriminate].
  destruct (Csv.row_lookup r "Salary") as [[t|]|]; try discriminate.
  destruct (PyFloat.of_string t) eqn:P; [|discriminate].
  destruct (Csv.row_lookup r "Email"); [|discriminate].
  intros H. injection H as <-. simpl. repeat split; try discriminate. eauto.
Qed.

Lemma load_row_bad_salary r name position text :
  ~ has_no_id r ->
  Csv.row_lookup r "Name" = Some name ->
  Csv.row_lookup r "Position" = Some position ->
  Csv.row_lookup r "Salary" = Some (Some text) ->
  PyFloat.of_string text = None ->
  load_row r = inr (ValueError text).
Proof.
  intros N Hn Hp Hs P. unfold load_row, has_no_id in *.
  destruct (Csv.row_lookup r "ID") as [[[|c i]|]|]; try tauto.
  now rewrite Hn, Hp, Hs, P.
Qed.

Lemma get_fold_load (post : list Csv.row) (k : string) : forall d,
  Forall (fun r => forall e', load_row r = inl (Some e') -> ID e' <> k) post ->
  Dict.get (fold_left load_step post d) k = Dict.get d k.
Proof.
  induction post as [|r post IH]; intros d F; simpl; [reflexivity|].
  inversion F as [|? ? Hr F']; subst. rewrite (IH _ F').
  unfold load_step. destruct (load_row r) as [[e'|]|]; try reflexivity.
  apply get_set_other. intros E. now apply (Hr e').
Qed.

Lemma load_row_record r e : load_row r = inl (Some e) <-> loads_as r e.
Proof.
  split; [apply load_row_loaded|].
  intros (Hi & Ne & Hn & Hp & Hm & text & Hs & P). unfold load_row.
  rewrite Hi, Hn, Hp, Hs, P, Hm.
  destruct (ID e) eqn:I; [congruence|]. rewrite <- I. now rewrite employee_eta.
Qed.

Lemma load_row_fails r ex : load_row r = inr ex <-> row_fails r ex.
Proof.
  split.
  - unfold load_row.
    destruct (Csv.row_lookup r "ID") as [[[|c i]|]|] eqn:Hi; try discriminate.
    assert (N : ~ has_no_id r).
    { unfold has_no_id. rewrite Hi. intros [H|[H|H]]; discriminate. }
    destruct (Csv.row_lookup r "Name") as [name|] eqn:Hn.
    2: { intros H. injection H as <-. now apply no_name_column. }
    destruct (Csv.row_lookup r "Position") as [position|] eqn:Hp.
    2: { intros H. injection H as <-. now apply (no_position_column r name). }
    destruct (Csv.row_lookup r "Salary") as [[text|]|] eqn:Hs.
    2: { intros H. injection H as <-. now apply (salary_is_none r name position). }
    2: { intros H. injection H as <-. now apply (no_salary_column r name position). }
    destruct (PyFloat.of_string text) as [salary|] eqn:P.
    2: { intros H. injection H as <-.
         now apply (salary_is_no_number r name position text). }
    destruct (Csv.row_lookup r "Email") as [email|] eqn:Hm; [discriminate|].
    intros H. injection H as <-.
    now apply (no_email_column r name position text salary).
  - intros F. unfold load_row.
    assert (I : exists c i, Csv.row_lookup r "ID" = Some (Some (String c i))).
    { assert (N : ~ has_no_id r) by now destruct F.
      unfold has_no_id in N.
      destruct (Csv.row_lookup r "ID") as [[[|c i]|]|]; try tauto. eauto. }
    destruct I as (c & i & ->).
    destruct F as [_ Hn|name _ Hn Hp|name position _ Hn Hp Hs
                  |name position _ Hn Hp Hs|name position text _ Hn Hp Hs P
                  |name position text salary _ Hn Hp Hs P Hm].
    + now rewrite Hn.
    + now rewrite Hn, Hp.
    + now rewrite Hn, Hp, Hs.
    + now rewrite Hn, Hp, Hs.
    + now rewrite Hn, Hp, Hs, P.
    + now rewrite Hn, Hp, Hs, P, Hm.
Qed.

Lemma passes_loads r : passes r <-> row_loads r.
Proof.
  unfold passes, row_loads. split.
  - intros [H|[e H]].
    + exists None. now apply load_row_skips.
    + exists (Some e). now apply load_row_record.
  - intros [[e|] H].
    + right. exists e. now apply load_row_record.
    + left. now apply load_row_skips.
Qed.

Lemma records_of_fold rows : records_of rows = fold_left load_step rows [].
Proof. reflexivity. Qed.

(** Of the rows that the loop gets through, the mapping holds for each
    identifier the record of the last row that has it. *)
Lemma get_last_record rows k e :
  Forall passes rows ->
  (Dict.get (fold_left load_step rows []) k = Some e <-> last_record rows k e).
Proof.
  intros F. split.
  - revert F k e. induction rows as [|r rows IH] using rev_ind; intros F k e.
    + discriminate.
    + apply Forall_app in F. destruct F as [F Fr]. inversion Fr as [|? ? Pr _]; subst.
      rewrite fold_left_app. simpl. unfold load_step at 1.
      assert (Old : Dict.get (fold_left load_step rows []) k = Some e ->
                    Csv.row_lookup r "ID" <> Some (Some k) ->
                    last_record (rows ++ [r]) k e).
      { intros G N. destruct (IH F k e G) as (pre & r0 & post & E & L & I & P).
        exists pre, r0, (post ++ [r])%list. subst rows.
        rewrite <- app_assoc. simpl.
        split; [reflexivity|]. split; [exact L|]. split; [exact I|].
        apply Forall_app. split; [exact P | now constructor]. }
      destruct Pr as [Hs|[e' He']].
      * apply load_row_skips in Hs as Hl. rewrite Hl. intros G. apply Old; [exact G|].
        destruct (IH F k e G) as (_ & _ & _ & _ & (_ & Ne & _) & I & _).
        destruct Hs as [H|[H|H]]; rewrite H; congruence.
      * apply load_row_record in He' as Hl. rewrite Hl.
        destruct (String.eqb k (ID e')) eqn:Q.
        -- apply String.eqb_eq in Q. subst k. rewrite get_set_same.
           intros G. injection G as <-.
           exists rows, r, [].
           split; [reflexivity|]. split; [exact He'|].
           split; [reflexivity | constructor].
        -- apply String.eqb_neq in Q. rewrite get_set_other by congruence.
           intros G. apply Old; [exact G|].
           destruct He' as (Hi & _). rewrite Hi. congruence.
  - intros (pre & r & post & E & L & I & P). subst rows k.
    rewrite fold_left_app. simpl. rewrite get_fold_load.
    + unfold load_step at 1. apply load_row_record in L as Hl. rewrite Hl.
      apply get_set_same.
    + eapply Forall_impl; [|exact P]. intros r' N e' L' I'. apply N.
      apply load_row_loaded in L'. destruct L' as (Hi & _). now rewrite Hi, I'.
Qed.

(** C3, as stated, fails: when the salary of the second row is not a
    number the error is reported but the mapping is not left empty, it
    keeps the record of the first row; and when the file does not exist
    and cannot be created, no file is created, and nothing is printed. *)
Lemma load_keeps_rows_before_failure :
  let text := header_text
              ++ Csv.writerow ["E1"; "Ana"; "Engineer"; "75000.0"; "ana@x.com"]
              ++ Csv.writerow ["E2"; "Bob"; "Developer"; "abc"; "bob@x.com"] in
  let w := init {| content := Some text; readable := true; writable := true |} in
  output w = [ErrorLoading (ValueError "abc")] /\
  employees w = [("E1", ana)] /\
  employees w <> [] /\
  init {| content := None; readable := true; writable := false |}
  = {| employees := [];
       disk := {| content := None; readable := true; writable := false |};
       output := [] |}.
Proof. vm_compute. repeat split; discriminate. Qed.

(** C3, amended.  On initialisation:
    - if the file does not exist, the mapping is empty and nothing is
      printed; the file is created with the header alone when it can be
      written, and no file is created when it cannot;
    - if the file exists and cannot be read, the error is printed and the
      mapping is empty;
    - if the file is read, a row without an identifier, or with an empty
      one, is skipped, and every other row whose columns are there and
      whose salary reads as a float is loaded: it gives the record with
      the texts of the row and that float.  When every row is of these
      two kinds, the mapping holds the records of all the rows, for each
      identifier the record of the last row that has it (and an error of
      the CSV reader, if any, is printed after them).  When a row with
      an identifier gives no record, as a row does whose salary is not a
      number, the load stops there: the error is printed and the mapping
      keeps the records of the rows before it.
    What a row gives is stated on the columns of the row: skipped exactly
    when it has no identifier, loaded exactly when [loads_as], failing
    exactly when [row_fails]. *)
Theorem load_from_csv_spec (f : file) :
  (content f = None -> writable f = true ->
     init f = {| employees := [];
                 disk := {| content := Some header_text;
                            readable := readable f; writable := true |};
                 output := [] |}) /\
  (content f = None -> writable f = false ->
     init f = {| employees := []; disk := f; output := [] |}) /\
  (forall text, content f = Some text -> readable f = false ->
     init f = {| employees := []; disk := f;
                 output := [ErrorLoading PermissionError] |}) /\
  (forall text, content f = Some text -> readable f = true ->
     let rows := Csv.dict_rows (fst (Csv.reader text)) in
     disk (init f) = f /\
     (Forall passes rows ->
        employees (init f) = records_of rows /\
        (forall k e,
           Dict.get (employees (init f)) k = Some e <-> last_record rows k e) /\
        output (init f) = match snd (Csv.reader text) with
                          | None => []
                          | Some e => [ErrorLoading (CsvError e)]
                          end) /\
     (forall pre bad post ex,
        rows = (pre ++ bad :: post)%list -> Forall passes pre ->
        row_fails bad ex ->
        employees (init f) = records_of pre /\
        (forall k e,
           Dict.get (employees (init f)) k = Some e <-> last_record pre k e) /\
        output (init f) = [ErrorLoading ex])) /\
  (forall r, load_row r = inl None <-> has_no_id r) /\
  (forall r e, load_row r = inl (Some e) <-> loads_as r e) /\
  (forall r ex, load_row r = inr ex <-> row_fails r ex) /\
  (forall r, row_loads r <-> passes r) /\
  (forall r name position text,
     ~ has_no_id r ->
     Csv.row_lookup r "Name" = Some name ->
     Csv.row_lookup r "Position" = Some position ->
     Csv.row_lookup r "Salary" = Some (Some text) ->
     PyFloat.of_string text = None ->
     load_row r = inr (ValueError text)).
Proof.
  split; [|split; [|split; [|split; [|split; [|split; [|split; [|split]]]]]]].
  - intros C W. unfold init, _load_from_csv, open_read, _create_csv_file, open_write.
    simpl. now rewrite C, W.
  - intros C W. unfold init, _load_from_csv, open_read, _create_csv_file, open_write.
    simpl. rewrite C, W. now destruct f.
  - intros text C R. unfold init, _load_from_csv, open_read. simpl.
    rewrite C, R. now destruct f.
  - intros text C R rows. unfold init, _load_from_csv, open_read. simpl.
    rewrite C, R. subst rows.
    destruct (Csv.reader text) as [rs ce]. cbn [fst snd].
    split; [|split].
    + destruct (load_rows (Csv.dict_rows rs) []) as [d [ex|]];
        [|destruct ce]; now destruct f.
    + intros F.
      assert (F' : Forall row_loads (Csv.dict_rows rs)).
      { eapply Forall_impl; [|exact F]. intros r. apply passes_loads. }
      rewrite (load_rows_all _ [] F').
      assert (G : forall k e,
                Dict.get (fold_left load_step (Csv.dict_rows rs) []) k = Some e
                <-> last_record (Csv.dict_rows rs) k e)
        by (intros k e; now apply get_last_record).
      destruct ce; (split; [reflexivity | split; [exact G | reflexivity]]).
    + intros pre bad post ex E F B.
      assert (F' : Forall row_loads pre).
      { eapply Forall_impl; [|exact F]. intros r. apply passes_loads. }
      apply load_row_fails in B.
      rewrite E, (load_rows_fail pre bad post ex [] F' B).
      split; [reflexivity | split; [|reflexivity]].
      intros k e. now apply get_last_record.
  - apply load_row_skips.
  - apply load_row_record.
  - apply load_row_fails.
  - intros r. split; apply passes_loads.
  - apply load_row_bad_salary.
Qed.

Lemma load_from_csv_spec_witness :
  let f := {| content :=
                Some (header_text
                      ++ Csv.writerow [""; "Nobody"; "Clerk"; "10"; "nobody@x.com"]
                      ++ Csv.writerow ["E1"; "Bob"; "Clerk"; "10"; "bob@x.com"]
                      ++ Csv.writerow ["E1"; "Ana"; "Engineer"; "75000.0"; "ana@x.com"]);
              readable := true; writable := true |} in
  Dict.get (employees (init f)) "E1" = Some ana /\
  output (init f) = [] /\
  init {| content := None; readable := true; writable := true |}
  = {| employees := [];
       disk := {| content := Some header_text; readable := true; writable := true |};
       output := [] |}.
Proof.
  intros f.
  destruct (load_from_csv_spec f) as (_ & _ & _ & H & _).
  destruct (load_from_csv_spec
              {| content := None; readable := true; writable := true |}) as (H0 & _).
  specialize (H _ eq_refl eq_refl). cbv zeta in H. destruct H as (_ & H & _).
  assert (E : Csv.dict_rows
                (fst (Csv.reader
                        (header_text
                         ++ Csv.writerow [""; "Nobody"; "Clerk"; "10"; "nobody@x.com"]
                         ++ Csv.writerow ["E1"; "Bob"; "Clerk"; "10"; "bob@x.com"]
                         ++ Csv.writerow ["E1"; "Ana"; "Engineer"; "75000.0"; "ana@x.com"])))
              = [Csv.zip_row FIELDNAMES [""; "Nobody"; "Clerk"; "10"; "nobody@x.com"];
                 Csv.zip_row FIELDNAMES ["E1"; "Bob"; "Clerk"; "10"; "bob@x.com"];
                 Csv.zip_row FIELDNAMES ["E1"; "Ana"; "Engineer"; "75000.0"; "ana@x.com"]])
    by (vm_compute; reflexivity).
  rewrite E in H.
  assert (A : loads_as
                (Csv.zip_row FIELDNAMES ["E1"; "Ana"; "Engineer"; "75000.0"; "ana@x.com"])
                ana).
  { split; [reflexivity|]. split; [discriminate|]. split; [reflexivity|].
    split; [reflexivity|]. split; [reflexivity|].
    exists "75000.0". split; vm_compute; reflexivity. }
  destruct H as (_ & G & O).
  - constructor; [left; right; right; reflexivity|].
    constructor.
    + right.
      exists {| ID := "E1"; Name := Some "Bob"; Position := Some "Clerk";
                Salary := S754_finite false 5629499534213120 (-49);
                Email := Some "bob@x.com" |}.
      split; [reflexivity|]. split; [discriminate|]. split; [reflexivity|].
      split; [reflexivity|]. split; [reflexivity|].
      exists "10". split; vm_compute; reflexivity.
    + constructor; [right; exists ana; exact A | constructor].
  - split; [|split].
    + apply G.
      exists [Csv.zip_row FIELDNAMES [""; "Nobody"; "Clerk"; "10"; "nobody@x.com"];
              Csv.zip_row FIELDNAMES ["E1"; "Bob"; "Clerk"; "10"; "bob@x.com"]],
             (Csv.zip_row FIELDNAMES ["E1"; "Ana"; "Engineer"; "75000.0"; "ana@x.com"]),
             [].
      split; [reflexivity|]. split; [exact A|]. split; [reflexivity | constructor].
    + rewrite O. vm_compute. reflexivity.
    + apply H0; reflexivity.
Defined.

(* ================================================================= *)
(** * More properties: the validators, the helpers, the operations and
      the menu, whatever is typed *)

(** ** The validators of the identifier, of the required fields and of
       the unique email *)

Lemma not_blank (s : string) : ~ all_whitespace s <-> Str.blank s = false.
Proof.
  rewrite <- blank_iff. destruct (Str.blank s); split; congruence.
Qed.

(** X1.  [validate_required_field] rejects exactly the values that are
    empty or made of white space, with a message that names the field,
    and its verdict is the same on a value and on the value trimmed. *)
Theorem validate_required_field_spec (value field_name : string) :
  (all_whitespace value <->
   validate_required_field value field_name
   = Invalid (field_name ++ " cannot be empty")) /\
  (~ all_whitespace value <-> validate_required_field value field_name = Valid tt) /\
  validate_required_field (Str.strip value) field_name
  = validate_required_field value field_name.
Proof.
  unfold validate_required_field. rewrite blank_strip_idem, not_blank, <- blank_iff.
  destruct (Str.blank value); repeat split; congruence.
Qed.

(** X2.  [validate_employee_id] accepts exactly the identifiers that are
    not blank and whose trimmed text is not in the list; a blank one is
    rejected as empty, and one in the list by a message that quotes the
    identifier as it was given. *)
Theorem validate_employee_id_spec (emp_id : string) (existing_ids : list string) :
  (validate_employee_id emp_id existing_ids = Valid tt <->
   ~ all_whitespace emp_id /\ ~ In (Str.strip emp_id) existing_ids) /\
  (all_whitespace emp_id ->
   validate_employee_id emp_id existing_ids = Invalid "Employee ID cannot be empty") /\
  (~ all_whitespace emp_id -> In (Str.strip emp_id) existing_ids ->
   validate_employee_id emp_id existing_ids
   = Invalid ("Employee with ID '" ++ emp_id ++ "' already exists")).
Proof.
  unfold validate_employee_id. rewrite not_blank, <- blank_iff, <- inb_In.
  destruct (Str.blank emp_id), (Str.inb (Str.strip emp_id) existing_ids);
    repeat split; try congruence; intros; try tauto;
    match goal with H : _ /\ _ |- _ => destruct H; congruence end.
Qed.

Lemma validate_employee_id_spec_witness :
  validate_employee_id " E2 " ["E1"] = Valid tt /\
  validate_employee_id " E1 " ["E1"]
  = Invalid "Employee with ID ' E1 ' already exists".
Proof.
  destruct (validate_employee_id_spec " E2 " ["E1"]) as (H1 & _).
  destruct (validate_employee_id_spec " E1 " ["E1"]) as (_ & _ & H3).
  split.
  - apply H1. split.
    + intros H. apply blank_iff in H. discriminate H.
    + vm_compute. intros [H|[]]. discriminate H.
  - apply H3.
    + intros H. apply blank_iff in H. discriminate H.
    + vm_compute. left. reflexivity.
Defined.

(** X3.  [validate_unique_email] accepts exactly the emails that
    [validate_email] accepts and whose trimmed text is the email of no
    record of the list; it passes on the error of [validate_email], and
    rejects an email in use by a message that quotes it as given. *)
Theorem validate_unique_email_spec (email : string)
    (existing_emails : list (option string)) :
  (validate_unique_email email existing_emails = Valid tt <->
   validate_email email = Valid tt /\
   ~ In (Some (Str.strip email)) existing_emails) /\
  (forall error, validate_email email = Invalid error ->
   validate_unique_email email existing_emails = Invalid error) /\
  (validate_email email = Valid tt ->
   In (Some (Str.strip email)) existing_emails ->
   validate_unique_email email existing_emails
   = Invalid ("Email '" ++ email ++ "' is already registered to another employee")).
Proof.
  unfold validate_unique_email. rewrite <- existsb_email.
  destruct (validate_email email) as [[]|error];
    destruct (existsb _ existing_emails); repeat split;
    try congruence; intros; try tauto;
    try match goal with H : _ /\ _ |- _ => destruct H; congruence end.
Qed.

Lemma validate_unique_email_spec_witness :
  validate_unique_email "a@b.com" [None; Some "c@d.org"] = Valid tt /\
  validate_unique_email "a@b" [] = Invalid "Invalid email format" /\
  validate_unique_email " c@d.org" [None; Some "c@d.org"]
  = Invalid "Email ' c@d.org' is already registered to another employee".
Proof.
  destruct (validate_unique_email_spec "a@b.com" [None; Some "c@d.org"]) as (H1 & _).
  destruct (validate_unique_email_spec "a@b" []) as (_ & H2 & _).
  destruct (validate_unique_email_spec " c@d.org" [None; Some "c@d.org"])
    as (_ & _ & H3).
  split; [|split].
  - apply H1. split; [vm_compute; reflexivity|].
    vm_compute. intros [H|[H|[]]]; discriminate H.
  - apply H2. vm_compute. reflexivity.
  - apply H3; [vm_compute; reflexivity|]. vm_compute. right. left. reflexivity.
Defined.
(** ** The helpers that prompt *)

Lemma complain_cons w error errors :
  complain w (error :: errors) = complain (emit w (Print ("Error: " ++ error))) errors.
Proof. reflexivity. Qed.

Lemma complain_store w errors :
  employees (complain w errors) = employees w /\ disk (complain w errors) = disk w /\
  output (complain w errors)
  = (output w ++ map (fun error => Print ("Error: " ++ error)) errors)%list.
Proof.
  revert w. induction errors as [|error errors IH]; intros w.
  - simpl. now rewrite app_nil_r.
  - rewrite complain_cons. destruct (IH (emit w (Print ("Error: " ++ error))))
      as (E & D & O).
    rewrite E, D, O. simpl. now rewrite <- app_assoc.
Qed.

Lemma truthy_false (s : string) : Str.truthy s = false <-> s = "".
Proof. destruct s; simpl; split; congruence. Qed.

Lemma prompt_rejected {A} (validator : string -> verdict A) bad errors :
  Forall2 (rejects validator) bad errors ->
  forall w,
    _prompt_until_valid validator w bad = EOFError (complain w errors) /\
    forall tail,
      _prompt_until_valid validator w (bad ++ tail)
      = _prompt_until_valid validator (complain w errors) tail.
Proof.
  induction 1 as [|line error bad errors R _ IH]; intros w.
  - split; reflexivity.
  - unfold rejects in R. simpl. rewrite R.
    destruct (IH (emit w (Print ("Error: " ++ error)))) as [I1 I2].
    split; [exact I1 | exact I2].
Qed.

Lemma optional_rejected {A} (current : A) (validator : string -> verdict A)
    bad errors :
  Forall2 (fun line error => Str.strip line <> "" /\ rejects validator line error)
    bad errors ->
  forall w,
    _get_optional_input current validator w bad = EOFError (complain w errors) /\
    forall tail,
      _get_optional_input current validator w (bad ++ tail)
      = _get_optional_input current validator (complain w errors) tail.
Proof.
  induction 1 as [|line error bad errors [N R] _ IH]; intros w.
  - split; reflexivity.
  - unfold rejects in R. simpl.
    destruct (Str.truthy (Str.strip line)) eqn:T;
      [|apply truthy_false in T; contradiction].
    simpl. rewrite R.
    destruct (IH (emit w (Print ("Error: " ++ error)))) as [I1 I2].
    split; [exact I1 | exact I2].
Qed.

(** What [_prompt_until_valid] does on any input: it returns at the first
    line that the validator accepts, and stops at the end of the input if
    there is none. *)
Lemma prompt_split {A} (validator : string -> verdict A) (inp : list string) :
  forall w,
    match _prompt_until_valid validator w inp with
    | Done a w' rest =>
        exists bad good errors,
          inp = (bad ++ good :: rest)%list /\
          Forall2 (rejects validator) bad errors /\
          validator (Str.strip good) = Valid a /\ w' = complain w errors
    | EOFError w' =>
        exists errors, Forall2 (rejects validator) inp errors /\ w' = complain w errors
    end.
Proof.
  induction inp as [|line inp IH]; intros w; simpl.
  - exists []. split; [constructor | reflexivity].
  - destruct (validator (Str.strip line)) as [a|error] eqn:E.
    + exists [], line, []. repeat split; [constructor | exact E].
    + specialize (IH (emit w (Print ("Error: " ++ error)))).
      destruct (_prompt_until_valid _ _ inp) as [a w' rest|w'].
      * destruct IH as (bad & good & errors & -> & F & V & ->).
        exists (line :: bad), good, (error :: errors).
        repeat split; [now constructor | exact V].
      * destruct IH as (errors & F & ->). exists (error :: errors).
        split; [now constructor | reflexivity].
Qed.

Lemma optional_split {A} (current : A) (validator : string -> verdict A)
    (inp : list string) :
  forall w,
    match _get_optional_input current validator w inp with
    | Done x w' rest =>
        exists bad good errors,
          inp = (bad ++ good :: rest)%list /\
          Forall2 (fun line error =>
                     Str.strip line <> "" /\ rejects validator line error)
            bad errors /\
          accepts current validator good x /\ w' = complain w errors
    | EOFError w' =>
        exists errors,
          Forall2 (fun line error =>
                     Str.strip line <> "" /\ rejects validator line error)
            inp errors /\
          w' = complain w errors
    end.
Proof.
  induction inp as [|line inp IH]; intros w; simpl.
  - exists []. split; [constructor | reflexivity].
  - destruct (Str.truthy (Str.strip line)) eqn:T; simpl.
    + assert (N : Str.strip line <> "")
        by (intros E; apply truthy_false in E; congruence).
      destruct (validator (Str.strip line)) as [a|error] eqn:E.
      * exists [], line, []. repeat split; [constructor|]. right. now split.
      * specialize (IH (emit w (Print ("Error: " ++ error)))).
        destruct (_get_optional_input _ _ _ inp) as [a w' rest|w'].
        -- destruct IH as (bad & good & errors & -> & F & V & ->).
           exists (line :: bad), good, (error :: errors).
           repeat split; [constructor; [now split | exact F] | exact V].
        -- destruct IH as (errors & F & ->). exists (error :: errors).
           split; [constructor; [now split | exact F] | reflexivity].
    + apply truthy_false in T.
      exists [], line, []. repeat split; [constructor|]. left. now split.
Qed.

(** X4.  [_prompt_until_valid] answers every line that the validator
    rejects with the error of that line and asks again: after such lines
    it returns the value of the first line accepted, having printed the
    errors in order and nothing else, with the lines after it left to be
    read; if the input ends first, the [EOFError] of [input()] ends the
    method.  The mapping and the file are not touched. *)
Theorem prompt_until_valid_spec {A} (validator : string -> verdict A)
    (w : world) (bad errors : list string) :
  Forall2 (rejects validator) bad errors ->
  _prompt_until_valid validator w bad = EOFError (complain w errors) /\
  (forall good a rest,
     validator (Str.strip good) = Valid a ->
     _prompt_until_valid validator w (bad ++ good :: rest)
     = Done a (complain w errors) rest) /\
  employees (complain w errors) = employees w /\
  disk (complain w errors) = disk w /\
  output (complain w errors)
  = (output w ++ map (fun error => Print ("Error: " ++ error)) errors)%list.
Proof.
  intros F. destruct (prompt_rejected validator bad errors F w) as [H1 H2].
  split; [exact H1|]. split; [|apply complain_store].
  intros good a rest V. rewrite H2. now apply prompt_valid.
Qed.

Lemma prompt_until_valid_spec_witness :
  _prompt_until_valid validate_salary (init empty_disk) ["abc"; " -5"; "12.5 "; "x"]
  = Done (S754_finite false 7036874417766400 (-49))
      (complain (init empty_disk)
         ["Salary must be a valid number"; "Salary must be greater than 0"])
      ["x"].
Proof.
  destruct (prompt_until_valid_spec validate_salary (init empty_disk)
              ["abc"; " -5"]
              ["Salary must be a valid number"; "Salary must be greater than 0"])
    as (_ & H & _).
  - repeat constructor.
  - apply (H "12.5 "). vm_compute. reflexivity.
Defined.

(** X5.  [_get_optional_input] answers every line that is not blank and
    that the validator rejects with the error of that line and asks
    again; it returns the current value at the first blank line, without
    calling the validator, or the value of the first line accepted. *)
Theorem get_optional_input_spec {A} (current : A)
    (validator : string -> verdict A) (w : world) (bad errors : list string) :
  Forall2 (fun line error => Str.strip line <> "" /\ rejects validator line error)
    bad errors ->
  _get_optional_input current validator w bad = EOFError (complain w errors) /\
  (forall blank rest,
     all_whitespace blank ->
     _get_optional_input current validator w (bad ++ blank :: rest)
     = Done current (complain w errors) rest) /\
  (forall good a rest,
     ~ all_whitespace good -> validator (Str.strip good) = Valid a ->
     _get_optional_input current validator w (bad ++ good :: rest)
     = Done a (complain w errors) rest).
Proof.
  intros F. destruct (optional_rejected current validator bad errors F w) as [H1 H2].
  split; [exact H1|]. split.
  - intros blank rest B. rewrite H2. apply optional_blank. now apply strip_blank.
  - intros good a rest N V. rewrite H2. apply optional_valid; [|exact V].
    now apply strip_not_blank.
Qed.

Lemma get_optional_input_spec_witness :
  _get_optional_input (Some "old@x.com")
    (returning Some (fun v => validate_unique_email v [Some "b@x.com"]))
    (init empty_disk) ["b@x.com"; "  "; "x"]
  = Done (Some "old@x.com")
      (complain (init empty_disk)
         ["Email 'b@x.com' is already registered to another employee"])
      ["x"].
Proof.
  destruct (get_optional_input_spec (Some "old@x.com")
              (returning Some (fun v => validate_unique_email v [Some "b@x.com"]))
              (init empty_disk) ["b@x.com"]
              ["Email 'b@x.com' is already registered to another employee"])
    as (_ & H & _).
  - repeat constructor. vm_compute. discriminate.
  - apply (H "  "). apply blank_iff. reflexivity.
Defined.

(** X6.  Whatever is typed, a helper only returns what the validator
    accepted for the trimmed text of a line (or, for the optional input,
    the current value at a blank line), every line before that one was
    rejected, and only the errors of these lines were printed; when the
    input ends without such a line the method ends there. *)
Theorem helpers_return_accepted {A} (current : A)
    (validator : string -> verdict A) (w : world) (inp : list string) :
  match _prompt_until_valid validator w inp with
  | Done a w' rest =>
      exists bad good errors,
        inp = (bad ++ good :: rest)%list /\
        Forall2 (rejects validator) bad errors /\
        validator (Str.strip good) = Valid a /\ w' = complain w errors
  | EOFError w' =>
      exists errors, Forall2 (rejects validator) inp errors /\ w' = complain w errors
  end /\
  match _get_optional_input current validator w inp with
  | Done x w' rest =>
      exists bad good errors,
        inp = (bad ++ good :: rest)%list /\
        Forall2 (fun line error =>
                   Str.strip line <> "" /\ rejects validator line error)
          bad errors /\
        accepts current validator good x /\ w' = complain w errors
  | EOFError w' =>
      exists errors,
        Forall2 (fun line error =>
                   Str.strip line <> "" /\ rejects validator line error)
          inp errors /\
        w' = complain w errors
  end.
Proof. split; [apply prompt_split | apply optional_split]. Qed.
(** ** The operations on any input *)

Lemma same_store_complain w errors : same_store w (complain w errors).
Proof. destruct (complain_store w errors) as (E & D & _). now split. Qed.

Lemma same_store_trans w1 w2 w3 :
  same_store w1 w2 -> same_store w2 w3 -> same_store w1 w3.
Proof. intros [A B] [C D]. split; congruence. Qed.

Lemma returning_inv {A} (f : string -> A) validator value a :
  returning f validator value = Valid a ->
  validator value = Valid tt /\ a = f value.
Proof.
  unfold returning. destruct (validator value) as [[]|]; [|discriminate].
  intros H. injection H as <-. now split.
Qed.

Lemma prompt_done {A} (validator : string -> verdict A) w inp :
  match _prompt_until_valid validator w inp with
  | Done a w' rest =>
      same_store w w' /\ List.length rest < List.length inp /\
      exists line, validator (Str.strip line) = Valid a
  | EOFError w' => same_store w w'
  end.
Proof.
  pose proof (prompt_split validator inp w) as P.
  destruct (_prompt_until_valid validator w inp) as [a w' rest|w'].
  - destruct P as (bad & good & errors & -> & _ & V & ->).
    split; [apply same_store_complain|]. split; [|eauto].
    rewrite length_app. simpl. lia.
  - destruct P as (errors & _ & ->). apply same_store_complain.
Qed.

Lemma optional_done {A} (current : A) (validator : string -> verdict A) w inp :
  match _get_optional_input current validator w inp with
  | Done x w' rest =>
      same_store w w' /\ List.length rest < List.length inp /\
      exists line, accepts current validator line x
  | EOFError w' => same_store w w'
  end.
Proof.
  pose proof (optional_split current validator inp w) as P.
  destruct (_get_optional_input current validator w inp) as [a w' rest|w'].
  - destruct P as (bad & good & errors & -> & _ & V & ->).
    split; [apply same_store_complain|]. split; [|eauto].
    rewrite length_app. simpl. lia.
  - destruct P as (errors & _ & ->). apply same_store_complain.
Qed.

Lemma save_world w :
  employees (fst (_save_to_csv w)) = employees w /\
  disk (fst (_save_to_csv w)) = saved_disk (disk w) (employees w).
Proof.
  unfold _save_to_csv, saved_disk. destruct (open_write _ _); split; reflexivity.
Qed.

(** [add] on any input: nothing is changed before the five values are
    accepted, and the end of the input can only come before that or at
    the last prompt. *)
Lemma add_cases (w : world) (inp : list string) :
  match add_employee w inp with
  | Done _ w' rest => add_effect w w' /\ List.length rest < List.length inp
  | EOFError w' => same_store w w' \/ add_effect w w'
  end.
Proof.
  unfold add_employee, bind, get_employees.
  pose proof (prompt_done
    (returning id (fun v => validate_employee_id v (Dict.keys (employees w)))) w inp)
    as P1.
  destruct (_prompt_until_valid _ w inp) as [emp_id w1 inp1|w1]; [|now left].
  destruct P1 as (S1 & L1 & l1 & V1).
  pose proof (prompt_done
    (returning id (fun v => validate_required_field v "Name")) w1 inp1) as P2.
  destruct (_prompt_until_valid _ w1 inp1) as [name w2 inp2|w2];
    [|left; eapply same_store_trans; eassumption].
  destruct P2 as (S2 & L2 & l2 & V2).
  pose proof (prompt_done
    (returning id (fun v => validate_required_field v "Position")) w2 inp2) as P3.
  destruct (_prompt_until_valid _ w2 inp2) as [position w3 inp3|w3];
    [|left; eapply same_store_trans; [|eassumption];
      eapply same_store_trans; eassumption].
  destruct P3 as (S3 & L3 & l3 & V3).
  pose proof (prompt_done validate_salary w3 inp3) as P4.
  destruct (_prompt_until_valid _ w3 inp3) as [salary w4 inp4|w4];
    [|left; eapply same_store_trans; [|eassumption];
      eapply same_store_trans; [|eassumption];
      eapply same_store_trans; eassumption].
  destruct P4 as (S4 & L4 & l4 & V4).
  assert (S04 : same_store w w4).
  { eapply same_store_trans; [|eassumption].
    eapply same_store_trans; [|eassumption].
    eapply same_store_trans; eassumption. }
  destruct S04 as [E4 D4]. rewrite E4.
  pose proof (prompt_done
    (returning id (fun v => validate_unique_email v
                              (map Email (Dict.values (employees w))))) w4 inp4)
    as P5.
  destruct (_prompt_until_valid _ w4 inp4) as [email w5 inp5|w5];
    [|left; destruct P5; split; congruence].
  destruct P5 as ([E5 D5] & L5 & l5 & V5).
  apply returning_inv in V1, V2, V3, V5.
  destruct V1 as [V1 ->], V2 as [V2 ->], V3 as [V3 ->], V5 as [V5 ->].
  unfold put_employees, save_to_csv, print, input, ret, id.
  match goal with |- context [_save_to_csv ?x] =>
    pose proof (save_world x) as [SE SD]; destruct (_save_to_csv x) as [w6 ok]
  end.
  cbn [fst employees disk set_employees] in SE, SD.
  assert (Eff : forall ev, add_effect w (emit w6 ev)).
  { intros ev. exists l1, l2, l3, l4, l5, salary.
    cbn [employees disk emit]. rewrite SE, SD.
    repeat split; try assumption. congruence. }
  destruct inp5 as [|enter rest].
  - right. apply Eff.
  - split; [apply Eff|]. simpl in *. lia.
Qed.

Lemma update_cases (w : world) (inp : list string) :
  match update_employee w inp with
  | Done _ w' rest =>
      (same_store w w' \/ update_effect w w') /\ List.length rest < List.length inp
  | EOFError w' => same_store w w' \/ update_effect w w'
  end.
Proof.
  unfold update_employee, bind, get_employees.
  destruct (Dict.is_empty (employees w)).
  { unfold print, input, ret. destruct inp as [|enter rest].
    - left. now split.
    - split; [left; now split | simpl; lia]. }
  unfold input at 1. destruct inp as [|typed inp0]; [left; apply same_store_refl|].
  destruct (Dict.get (employees w) (Str.strip typed)) as [e|] eqn:G.
  2: { unfold print, input, ret. destruct inp0 as [|enter rest].
       - left. now split.
       - split; [left; now split | simpl; lia]. }
  unfold show.
  set (w0 := emit w (Details e)).
  assert (S0 : same_store w w0) by now split.
  clearbody w0.
  pose proof (optional_done (Name e)
    (returning Some (fun v => validate_required_field v "Name")) w0 inp0) as P1.
  destruct (_get_optional_input _ _ w0 inp0) as [name w1 inp1|w1];
    [|left; eapply same_store_trans; eassumption].
  destruct P1 as (S1 & L1 & l1 & A1).
  pose proof (optional_done (Position e)
    (returning Some (fun v => validate_required_field v "Position")) w1 inp1) as P2.
  destruct (_get_optional_input _ _ w1 inp1) as [position w2 inp2|w2];
    [|left; eapply same_store_trans; [|eassumption];
      eapply same_store_trans; eassumption].
  destruct P2 as (S2 & L2 & l2 & A2).
  pose proof (optional_done (Salary e) validate_salary w2 inp2) as P3.
  destruct (_get_optional_input _ _ w2 inp2) as [salary w3 inp3|w3];
    [|left; eapply same_store_trans; [|eassumption];
      eapply same_store_trans; [|eassumption];
      eapply same_store_trans; eassumption].
  destruct P3 as (S3 & L3 & l3 & A3).
  assert (S03 : same_store w w3).
  { eapply same_store_trans; [|eassumption].
    eapply same_store_trans; [|eassumption].
    eapply same_store_trans; eassumption. }
  destruct S03 as [E3 D3]. rewrite E3.
  change (map (fun item => Email (snd item))
            (filter (fun item => negb (fst item =? Str.strip typed)%string)
               (employees w)))
    with (other_emails (employees w) (Str.strip typed)).
  pose proof (optional_done (Email e)
    (returning Some
       (fun v => validate_unique_email v
                   (other_emails (employees w) (Str.strip typed)))) w3 inp3) as P4.
  destruct (_get_optional_input _ _ w3 inp3) as [email w4 inp4|w4];
    [|left; destruct P4; split; congruence].
  destruct P4 as ([E4 D4] & L4 & l4 & A4).
  unfold put_employees, save_to_csv, print, input, ret.
  match goal with |- context [_save_to_csv ?x] =>
    pose proof (save_world x) as [SE SD]; destruct (_save_to_csv x) as [w6 ok]
  end.
  cbn [fst employees disk set_employees] in SE, SD.
  assert (Eff : forall ev, update_effect w (emit w6 ev)).
  { intros ev. exists typed, e, l1, l2, l3, l4, name, position, salary, email.
    cbn [employees disk emit]. rewrite SE, SD.
    repeat split; try assumption. congruence. }
  destruct inp4 as [|enter rest].
  - right. apply Eff.
  - split; [right; apply Eff|]. simpl in *. lia.
Qed.

Lemma delete_cases (w : world) (inp : list string) :
  match delete_employee w inp with
  | Done _ w' rest =>
      (same_store w w' \/ delete_effect w w') /\ List.length rest < List.length inp
  | EOFError w' => same_store w w' \/ delete_effect w w'
  end.
Proof.
  unfold delete_employee, bind, get_employees.
  destruct (Dict.is_empty (employees w)).
  { unfold print, input, ret. destruct inp as [|enter rest].
    - left. now split.
    - split; [left; now split | simpl; lia]. }
  unfold input at 1. destruct inp as [|typed inp0]; [left; apply same_store_refl|].
  destruct (Dict.get (employees w) (Str.strip typed)) as [e|] eqn:G.
  2: { unfold print, input, ret. destruct inp0 as [|enter rest].
       - left. now split.
       - split; [left; now split | simpl; lia]. }
  unfold show, input at 1.
  destruct inp0 as [|conf inp1]; [left; now split|].
  destruct (list_eq_dec Nat.eq_dec (Str.upper (Str.strip conf)) YES) as [Y|N].
  - unfold put_employees, save_to_csv, print, input, ret.
    match goal with |- context [_save_to_csv ?x] =>
      pose proof (save_world x) as [SE SD]; destruct (_save_to_csv x) as [w6 ok]
    end.
    cbn [fst employees disk set_employees emit] in SE, SD.
    assert (Eff : forall ev, delete_effect w (emit w6 ev)).
    { intros ev. exists typed, e. cbn [employees disk emit]. rewrite SE, SD.
      repeat split; assumption. }
    destruct inp1 as [|enter rest].
    + right. apply Eff.
    + split; [right; apply Eff | simpl; lia].
  - unfold print, input, ret. destruct inp1 as [|enter rest].
    + left. now split.
    + split; [left; now split | simpl; lia].
Qed.

Lemma search_cases (w : world) (inp : list string) :
  match search_employee w inp with
  | Done _ w' rest => same_store w w' /\ List.length rest < List.length inp
  | EOFError w' => same_store w w'
  end.
Proof.
  unfold search_employee, bind, get_employees.
  destruct (Dict.is_empty (employees w)).
  { unfold print, input, ret. destruct inp as [|enter rest].
    - now split.
    - split; [now split | simpl; lia]. }
  unfold input at 1. destruct inp as [|typed inp0]; [apply same_store_refl|].
  destruct (Dict.get (employees w) (Str.strip typed)) as [e|];
    unfold show, print, input, ret; destruct inp0 as [|enter rest];
    try (now split); split; try (now split); simpl; lia.
Qed.
(** ** What the operations leave as it is *)

Section DictMore.
Context {V : Type}.
Implicit Types (d : Dict.t V) (k : string) (v : V).

Lemma keys_set_present d k v :
  In k (Dict.keys d) -> Dict.keys (Dict.set d k v) = Dict.keys d.
Proof.
  induction d as [|[k0 v0] d IH]; simpl; [tauto|].
  destruct (String.eqb k k0) eqn:E; [reflexivity|].
  apply String.eqb_neq in E. intros [H|H]; [congruence|].
  simpl. now rewrite IH.
Qed.

Lemma keys_del d k :
  Dict.keys (Dict.del d k)
  = filter (fun k' => negb (String.eqb k k')) (Dict.keys d).
Proof.
  induction d as [|[k0 v0] d IH]; simpl; [reflexivity|].
  destruct (String.eqb k k0); simpl; now rewrite IH.
Qed.

Lemma get_some_In_keys d k v : Dict.get d k = Some v -> In k (Dict.keys d).
Proof. intros H. apply get_In_keys. congruence. Qed.

End DictMore.

(** X7.  [search_employee] changes neither the mapping nor the file,
    whatever is typed and however it ends. *)
Theorem search_is_read_only (w : world) (inp : list string) :
  employees (world_of (search_employee w inp)) = employees w /\
  disk (world_of (search_employee w inp)) = disk w.
Proof.
  pose proof (search_cases w inp) as H.
  destruct (search_employee w inp) as [[] w' rest|w']; simpl.
  - destruct H as [H _]. exact H.
  - exact H.
Qed.

(** X8.  On an empty store [update], [delete] and [search] ask for no
    identifier: they print that there are no employees and wait for
    Enter.  For an identifier that is not stored (trimmed, compared as
    it is) they print that it was not found and wait for Enter.  Nothing
    is changed in either case. *)
Theorem unknown_identifier (w : world) :
  (Dict.is_empty (employees w) = true ->
   forall enter rest,
     update_employee w (enter :: rest) = Done tt (emit w (Print no_employees)) rest /\
     delete_employee w (enter :: rest) = Done tt (emit w (Print no_employees)) rest /\
     search_employee w (enter :: rest) = Done tt (emit w (Print no_employees)) rest) /\
  (Dict.is_empty (employees w) = false ->
   forall typed enter rest,
     Dict.get (employees w) (Str.strip typed) = None ->
     update_employee w (typed :: enter :: rest)
     = Done tt (emit w (Print (not_found (Str.strip typed)))) rest /\
     delete_employee w (typed :: enter :: rest)
     = Done tt (emit w (Print (not_found (Str.strip typed)))) rest /\
     search_employee w (typed :: enter :: rest)
     = Done tt (emit w (Print (not_found (Str.strip typed)))) rest).
Proof.
  split.
  - intros E enter rest.
    unfold update_employee, delete_employee, search_employee, bind, get_employees.
    rewrite E. repeat split; reflexivity.
  - intros E typed enter rest G.
    unfold update_employee, delete_employee, search_employee, bind, get_employees.
    rewrite E. unfold input, print, ret. rewrite G. repeat split; reflexivity.
Qed.

Lemma unknown_identifier_witness :
  delete_employee (init empty_disk) ["E1"; "YES"]
  = Done tt (emit (init empty_disk) (Print no_employees)) ["YES"] /\
  update_employee one_record [" e1 "; ""; "x"]
  = Done tt (emit one_record (Print (not_found "e1"))) ["x"].
Proof.
  destruct (unknown_identifier (init empty_disk)) as [H1 _].
  destruct (unknown_identifier one_record) as [_ H2].
  split.
  - apply H1. vm_compute. reflexivity.
  - apply (H2 ltac:(vm_compute; reflexivity) " e1 " "" ["x"]).
    vm_compute. reflexivity.
Defined.

(** X9.  Whatever is typed, [update] keeps the identifiers of the store
    and their order; it changes the record of one identifier at most,
    and the record it stores has for [ID] the key it is stored under. *)
Theorem update_keeps_identifiers (w : world) (inp : list string) :
  Dict.keys (employees (world_of (update_employee w inp)))
  = Dict.keys (employees w) /\
  exists k0,
    (forall k, k <> k0 ->
       Dict.get (employees (world_of (update_employee w inp))) k
       = Dict.get (employees w) k) /\
    (forall e', Dict.get (employees (world_of (update_employee w inp))) k0 = Some e' ->
       Dict.get (employees w) k0 = Some e' \/ ID e' = k0).
Proof.
  assert (C : same_store w (world_of (update_employee w inp)) \/
              update_effect w (world_of (update_employee w inp))).
  { pose proof (update_cases w inp) as H.
    destruct (update_employee w inp) as [[] w' rest|w']; simpl; tauto. }
  destruct C as [[E _]|Eff].
  - rewrite E. split; [reflexivity|]. exists "". split; auto.
  - destruct Eff as (typed & e & l1 & l2 & l3 & l4 & name & position & salary
                     & email & G & _ & _ & _ & _ & E & _).
    rewrite E. split.
    + apply keys_set_present. now apply (get_some_In_keys _ _ e).
    + exists (Str.strip typed). split.
      * intros k N. now apply get_set_other.
      * intros e' H. rewrite get_set_same in H. injection H as <-. now right.
Qed.

(** X10.  Whatever is typed, [delete] leaves the mapping as it was or
    removes the record of one identifier that was stored: the other
    records stay, in their order. *)
Theorem delete_removes_one_or_nothing (w : world) (inp : list string) :
  employees (world_of (delete_employee w inp)) = employees w \/
  exists k,
    In k (Dict.keys (employees w)) /\
    employees (world_of (delete_employee w inp)) = Dict.del (employees w) k /\
    Dict.keys (employees (world_of (delete_employee w inp)))
    = filter (fun k' => negb (String.eqb k k')) (Dict.keys (employees w)) /\
    Dict.get (employees (world_of (delete_employee w inp))) k = None /\
    forall k', k' <> k ->
      Dict.get (employees (world_of (delete_employee w inp))) k'
      = Dict.get (employees w) k'.
Proof.
  assert (C : same_store w (world_of (delete_employee w inp)) \/
              delete_effect w (world_of (delete_employee w inp))).
  { pose proof (delete_cases w inp) as H.
    destruct (delete_employee w inp) as [[] w' rest|w']; simpl; tauto. }
  destruct C as [[E _]|(typed & e & G & E & _)]; [now left|].
  right. exists (Str.strip typed). rewrite E.
  split; [now apply (get_some_In_keys _ _ e)|]. split; [reflexivity|].
  split; [apply keys_del|]. split; [apply get_del_same|].
  intros k' N. now apply get_del_other.
Qed.

(** X11.  Whatever is typed, [add] leaves the mapping as it was or puts
    one record after the records of the store, under an identifier that
    was not there: no record is replaced and the order of the others is
    kept.  The record has its three texts. *)
Theorem add_only_appends (w : world) (inp : list string) :
  employees (world_of (add_employee w inp)) = employees w \/
  exists r,
    employees (world_of (add_employee w inp))
    = (employees w ++ [(ID r, r)])%list /\
    ~ In (ID r) (Dict.keys (employees w)) /\
    complete r = true.
Proof.
  assert (C : same_store w (world_of (add_employee w inp)) \/
              add_effect w (world_of (add_employee w inp))).
  { pose proof (add_cases w inp) as H.
    destruct (add_employee w inp) as [[] w' rest|w']; simpl; tauto. }
  destruct C as [[E _]|(i & n & p & s & m & v & Vi & _ & _ & _ & _ & E & _)];
    [now left|].
  right.
  exists {| ID := Str.strip i; Name := Some (Str.strip n);
            Position := Some (Str.strip p); Salary := v;
            Email := Some (Str.strip m) |}.
  rewrite E. apply validate_employee_id_valid in Vi. destruct Vi as [_ N].
  rewrite strip_idem in N. cbn [ID].
  split; [apply (set_new _ _ _ N)|]. split; [exact N | reflexivity].
Qed.
(** ** The invariant of the store *)

Lemma distinct_iff {A} (eqb : A -> A -> bool)
    (eqb_eq : forall a b, eqb a b = true <-> a = b) (l : list A) :
  distinct eqb l = true <-> NoDup l.
Proof.
  induction l as [|x l IH]; simpl.
  - split; [constructor | reflexivity].
  - rewrite andb_true_iff, negb_true_iff, IH. split.
    + intros [H1 H2]. constructor; [|exact H2].
      intros Hin. assert (existsb (eqb x) l = true); [|congruence].
      apply existsb_exists. exists x. split; [exact Hin | now apply eqb_eq].
    + intros H. inversion H as [|? ? N D]; subst. split; [|exact D].
      destruct (existsb (eqb x) l) eqn:E; [|reflexivity].
      apply existsb_exists in E. destruct E as (y & Hin & E).
      apply eqb_eq in E. subst. contradiction.
Qed.

Lemma option_string_eqb_eq (a b : option string) :
  option_string_eqb a b = true <-> a = b.
Proof.
  destruct a as [x|], b as [y|]; simpl; try (split; congruence).
  rewrite String.eqb_eq. split; congruence.
Qed.

Lemma keyed_iff (d : Dict.t Employee) :
  keyed d = true <->
  Forall (fun item => fst item = ID (snd item)) d /\ NoDup (Dict.keys d).
Proof.
  unfold keyed. rewrite andb_true_iff, forallb_forall, Forall_forall.
  rewrite (distinct_iff String.eqb String.eqb_eq).
  split; intros [H1 H2]; (split; [|exact H2]); intros item Hin;
    specialize (H1 item Hin); now apply String.eqb_eq.
Qed.

Lemma kept_store_iff (d : Dict.t Employee) :
  kept_store d = true <->
  (Forall (fun item => fst item = ID (snd item)) d /\ NoDup (Dict.keys d)) /\
  Forall (fun item => kept_record (snd item) = true) d /\
  NoDup (map Email (Dict.values d)).
Proof.
  unfold kept_store. rewrite !andb_true_iff, keyed_iff, forallb_forall.
  rewrite (distinct_iff option_string_eqb option_string_eqb_eq).
  rewrite (Forall_forall (fun item => kept_record (snd item) = true)). tauto.
Qed.

Lemma NoDup_snoc {A} (l : list A) (x : A) :
  NoDup l -> ~ In x l -> NoDup (l ++ [x]).
Proof.
  intros D N. apply (Permutation_NoDup (l := x :: l)).
  - apply Permutation_cons_append.
  - now constructor.
Qed.

Lemma NoDup_replace {A} (l1 l2 : list A) (x y : A) :
  NoDup (l1 ++ x :: l2) -> ~ In y (l1 ++ l2) -> NoDup (l1 ++ y :: l2).
Proof.
  intros D N. apply NoDup_remove_1 in D.
  apply (Permutation_NoDup (l := y :: l1 ++ l2)).
  - apply Permutation_middle.
  - now constructor.
Qed.

Lemma NoDup_map_filter {A B} (f : A -> B) (p : A -> bool) (l : list A) :
  NoDup (map f l) -> NoDup (map f (filter p l)).
Proof.
  induction l as [|x l IH]; simpl; [auto|].
  intros D. inversion D as [|? ? N D']; subst.
  destruct (p x); [|auto]. simpl. constructor; [|auto].
  intros Hin. apply N. apply in_map_iff in Hin. destruct Hin as (y & E & Hy).
  apply filter_In in Hy. apply in_map_iff. exists y. tauto.
Qed.

Lemma del_filter {V} (d : Dict.t V) k :
  Dict.del d k = filter (fun item => negb (String.eqb k (fst item))) d.
Proof.
  induction d as [|[k0 v0] d IH]; simpl; [reflexivity|].
  destruct (String.eqb k k0); simpl; now rewrite IH.
Qed.

(** The item of a key that is present, and what an assignment to the key
    does. *)
Lemma get_split {V} (d : Dict.t V) k v :
  Dict.get d k = Some v ->
  exists d1 d2,
    d = (d1 ++ (k, v) :: d2)%list /\ ~ In k (Dict.keys d1) /\
    forall v', Dict.set d k v' = (d1 ++ (k, v') :: d2)%list.
Proof.
  induction d as [|[k0 v0] d IH]; simpl; [discriminate|].
  destruct (String.eqb k k0) eqn:E.
  - apply String.eqb_eq in E. subst k0. intros H. injection H as ->.
    exists [], d. repeat split; auto.
  - intros H. destruct (IH H) as (d1 & d2 & -> & N & S).
    apply String.eqb_neq in E.
    exists ((k0, v0) :: d1), d2. repeat split.
    + simpl. intros [F|F]; [congruence | contradiction].
    + intros v'. simpl. now rewrite S.
Qed.

Lemma filter_other_keys {V} (d : Dict.t V) k :
  ~ In k (Dict.keys d) ->
  filter (fun item => negb (String.eqb (fst item) k)) d = d.
Proof.
  induction d as [|[k0 v0] d IH]; simpl; [reflexivity|].
  intros N. destruct (String.eqb k0 k) eqn:E.
  - apply String.eqb_eq in E. subst. tauto.
  - simpl. rewrite IH; tauto.
Qed.

Lemma other_emails_split (d1 d2 : Dict.t Employee) k e :
  ~ In k (Dict.keys d1) -> ~ In k (Dict.keys d2) ->
  other_emails (d1 ++ (k, e) :: d2)%list k
  = (map Email (Dict.values d1) ++ map Email (Dict.values d2))%list.
Proof.
  intros N1 N2. unfold other_emails, Dict.values.
  rewrite filter_app. simpl. rewrite String.eqb_refl. simpl.
  rewrite !filter_other_keys by assumption.
  now rewrite map_app, !map_map.
Qed.

Lemma accepts_required (current : option string) field line x :
  accepts current (returning Some (fun v => validate_required_field v field)) line x ->
  text_ok current = true -> text_ok x = true.
Proof.
  intros [[_ ->]|[_ V]] H; [exact H|].
  apply returning_inv in V. destruct V as [V ->].
  unfold validate_required_field in V. simpl.
  destruct (Str.blank (Str.strip line)); [discriminate | reflexivity].
Qed.

Lemma accepts_salary current line x :
  accepts current validate_salary line x ->
  PyFloat.le_zero current = false -> PyFloat.le_zero x = false.
Proof.
  intros [[_ ->]|[_ V]] H; [exact H|].
  apply validate_salary_valid in V. tauto.
Qed.

Lemma add_keeps (w w' : world) :
  add_effect w w' -> kept_store (employees w) = true ->
  kept_store (employees w') = true.
Proof.
  intros (i & n & p & s & m & v & Vi & Vn & Vp & Vs & Vm & E & _) K.
  apply kept_store_iff in K. destruct K as ((K1 & K2) & K3 & K4).
  apply validate_employee_id_valid in Vi. destruct Vi as [Bi Ni].
  rewrite strip_idem in Ni.
  apply validate_unique_email_valid in Vm. destruct Vm as [Vm Nm].
  rewrite strip_idem in Nm.
  apply validate_salary_valid in Vs. destruct Vs as (_ & _ & Ls).
  unfold validate_required_field in Vn, Vp.
  destruct (Str.blank (Str.strip n)) eqn:Bn; [discriminate|].
  destruct (Str.blank (Str.strip p)) eqn:Bp; [discriminate|].
  rewrite E, (set_new _ _ _ Ni). apply kept_store_iff.
  unfold Dict.keys, Dict.values. rewrite !map_app, !Forall_app. simpl.
  repeat split; try assumption.
  - repeat constructor.
  - now apply NoDup_snoc.
  - constructor; [|constructor]. unfold kept_record. simpl.
    now rewrite Bi, Bn, Bp, Ls, Vm.
  - now apply NoDup_snoc.
Qed.

Lemma update_keeps (w w' : world) :
  update_effect w w' -> kept_store (employees w) = true ->
  kept_store (employees w') = true.
Proof.
  intros (typed & e & l1 & l2 & l3 & l4 & name & position & salary & email
          & G & A1 & A2 & A3 & A4 & E & _) K.
  apply kept_store_iff in K. destruct K as ((K1 & K2) & K3 & K4).
  destruct (get_split _ _ _ G) as (d1 & d2 & D & N1 & S).
  set (k := Str.strip typed) in *.
  rewrite E, S. rewrite D in K1, K2, K3, K4, A4. clear E S D G.
  unfold Dict.keys, Dict.values in K2, K4 |- *.
  rewrite map_app in K2. simpl in K2.
  repeat (rewrite map_app in K4; simpl in K4).
  apply Forall_app in K1, K3. destruct K1 as [K1a K1b], K3 as [K3a K3b].
  inversion K1b as [|? ? Ke K1c]; subst. inversion K3b as [|? ? Re K3c]; subst.
  simpl in Ke, Re.
  assert (N2 : ~ In k (map fst d2)).
  { apply NoDup_remove_2 in K2. intros F. apply K2. apply in_or_app. now right. }
  unfold kept_record in Re. rewrite !andb_true_iff in Re.
  destruct Re as ((((Ri & Rn) & Rp) & Rs) & Rm).
  apply negb_true_iff in Rs.
  apply kept_store_iff. unfold Dict.keys, Dict.values.
  repeat (rewrite map_app; simpl). rewrite !Forall_app.
  repeat split; try assumption.
  - constructor; [reflexivity | assumption].
  - constructor; [|assumption]. unfold kept_record. simpl.
    rewrite Ke, Ri, (accepts_required _ _ _ _ A1 Rn),
      (accepts_required _ _ _ _ A2 Rp), (accepts_salary _ _ _ A3 Rs).
    simpl. destruct A4 as [[_ ->]|[_ V]]; [exact Rm|].
    apply returning_inv in V. destruct V as [V ->].
    apply validate_unique_email_valid in V. destruct V as [V _].
    now rewrite V.
  - destruct A4 as [[_ ->]|[_ V]]; [exact K4|].
    apply returning_inv in V. destruct V as [V ->].
    apply validate_unique_email_valid in V. destruct V as [_ V].
    rewrite strip_idem in V.
    rewrite (other_emails_split d1 d2 k e N1 N2) in V.
    unfold Dict.values in V. exact (NoDup_replace _ _ _ _ K4 V).
Qed.

Lemma delete_keeps (w w' : world) :
  delete_effect w w' -> kept_store (employees w) = true ->
  kept_store (employees w') = true.
Proof.
  intros (typed & e & _ & E & _) K.
  apply kept_store_iff in K. destruct K as ((K1 & K2) & K3 & K4).
  rewrite E, del_filter. apply kept_store_iff.
  unfold Dict.keys, Dict.values in *.
  repeat split.
  - apply Forall_forall. intros item Hin. apply filter_In in Hin.
    rewrite Forall_forall in K1. now apply K1.
  - now apply NoDup_map_filter.
  - apply Forall_forall. intros item Hin. apply filter_In in Hin.
    rewrite Forall_forall in K3. now apply K3.
  - rewrite map_map in K4 |- *. now apply NoDup_map_filter.
Qed.

(** X12.  The invariant of the store (every record under its own
    identifier, no identifier and no email twice, names and positions
    that are not blank, salaries that are not [<= 0], emails that
    [validate_email] accepts) is kept by [add], [update] and [delete],
    whatever is typed and however they end. *)
Theorem operations_keep_the_invariant (w : world) (inp : list string) :
  kept_store (employees w) = true ->
  kept_store (employees (world_of (add_employee w inp))) = true /\
  kept_store (employees (world_of (update_employee w inp))) = true /\
  kept_store (employees (world_of (delete_employee w inp))) = true.
Proof.
  intros K. split; [|split].
  - pose proof (add_cases w inp) as H.
    destruct (add_employee w inp) as [[] w' rest|w']; simpl;
      [destruct H as [H _]; now apply (add_keeps w)|].
    destruct H as [[E _]|H]; [now rewrite E | now apply (add_keeps w)].
  - pose proof (update_cases w inp) as H.
    assert (C : same_store w (world_of (update_employee w inp)) \/
                update_effect w (world_of (update_employee w inp)))
      by (destruct (update_employee w inp) as [[] w' rest|w']; simpl; tauto).
    destruct C as [[E _]|C]; [now rewrite E | now apply (update_keeps w)].
  - pose proof (delete_cases w inp) as H.
    assert (C : same_store w (world_of (delete_employee w inp)) \/
                delete_effect w (world_of (delete_employee w inp)))
      by (destruct (delete_employee w inp) as [[] w' rest|w']; simpl; tauto).
    destruct C as [[E _]|C]; [now rewrite E | now apply (delete_keeps w)].
Qed.

Lemma operations_keep_the_invariant_witness :
  kept_store (employees (world_of (update_employee one_record
     ["E1"; "Ana B"; ""; "nan"; "ana@y.org"; ""]))) = true.
Proof.
  apply (operations_keep_the_invariant one_record
           ["E1"; "Ana B"; ""; "nan"; "ana@y.org"; ""]).
  vm_compute. reflexivity.
Defined.
(** ** The file *)

Lemma saved_writable f d :
  writable f = true ->
  writable (saved_disk f d) = true /\ content (saved_disk f d) = Some (csv_text d).
Proof. intros W. unfold saved_disk, open_write. rewrite W. now split. Qed.

(** X13.  When the file can be written, [add], [update] and [delete]
    leave it writable, and leave it holding the text of the mapping if
    it held it before or if they have changed the mapping: a change is
    always followed by a save, and nothing is changed after the save. *)
Theorem file_follows_the_mapping (w : world) (inp : list string) :
  writable (disk w) = true ->
  forall w',
    w' = world_of (add_employee w inp) \/
    w' = world_of (update_employee w inp) \/
    w' = world_of (delete_employee w inp) ->
    writable (disk w') = true /\
    (in_sync w \/ employees w' <> employees w -> in_sync w').
Proof.
  intros W w' H.
  assert (C : same_store w w' \/ disk w' = saved_disk (disk w) (employees w')).
  { destruct H as [E | [E | E]]; subst w'.
    - pose proof (add_cases w inp) as H.
      destruct (add_employee w inp) as [[] w' rest|w']; simpl.
      + destruct H as [(i & n & p & s & m & v & _ & _ & _ & _ & _ & _ & D) _].
        now right.
      + destruct H as [H|(i & n & p & s & m & v & _ & _ & _ & _ & _ & _ & D)];
          [now left | now right].
    - pose proof (update_cases w inp) as H.
      assert (C : same_store w (world_of (update_employee w inp)) \/
                  update_effect w (world_of (update_employee w inp)))
        by (destruct (update_employee w inp) as [[] w' rest|w']; simpl; tauto).
      destruct C as [C|(typed & e & l1 & l2 & l3 & l4 & name & position & salary
                        & email & _ & _ & _ & _ & _ & _ & D)];
        [now left | now right].
    - pose proof (delete_cases w inp) as H.
      assert (C : same_store w (world_of (delete_employee w inp)) \/
                  delete_effect w (world_of (delete_employee w inp)))
        by (destruct (delete_employee w inp) as [[] w' rest|w']; simpl; tauto).
      destruct C as [C|(typed & e & _ & _ & D)]; [now left | now right]. }
  unfold in_sync. destruct C as [[E D]|D].
  - rewrite D, E. split; [exact W|]. intros [S|N]; [exact S | congruence].
  - rewrite D. destruct (saved_writable (disk w) (employees w') W) as [W' S].
    split; [exact W' | intros _; exact S].
Qed.

Lemma file_follows_the_mapping_witness :
  in_sync (world_of (delete_employee one_record ["E1"; "yes"])).
Proof.
  destruct (file_follows_the_mapping one_record ["E1"; "yes"]
              ltac:(vm_compute; reflexivity)
              (world_of (delete_employee one_record ["E1"; "yes"]))) as [_ H].
  - right. right. reflexivity.
  - apply H. right. vm_compute. discriminate.
Defined.

(** *** The order of the rows *)

Lemma compare_trans (a : string) : forall b c,
  String.compare a b <> Gt -> String.compare b c <> Gt -> String.compare a c <> Gt.
Proof.
  induction a as [|x a IH]; intros [|y b] [|z c]; simpl; try congruence.
  unfold Ascii.compare.
  destruct (N.compare_spec (N_of_ascii x) (N_of_ascii y)) as [E1|L1|G1];
    destruct (N.compare_spec (N_of_ascii y) (N_of_ascii z)) as [E2|L2|G2];
    destruct (N.compare_spec (N_of_ascii x) (N_of_ascii z)) as [E3|L3|G3];
    try congruence; try lia.
  apply IH.
Qed.

Lemma leb_trans (a b c : string) :
  String.leb a b = true -> String.leb b c = true -> String.leb a c = true.
Proof.
  unfold String.leb. intros H1 H2.
  pose proof (compare_trans a b c) as T.
  destruct (String.compare a b), (String.compare b c), (String.compare a c);
    try reflexivity; try discriminate; exfalso; apply T; congruence.
Qed.

Lemma ascending_insert k l :
  ascending l = true -> ascending (insert_sorted k l) = true.
Proof.
  induction l as [|x l IH]; simpl; [reflexivity|].
  rewrite andb_true_iff. intros [H1 H2].
  destruct (String.leb k x) eqn:E; simpl.
  - rewrite E, H1, H2. simpl. rewrite andb_true_r.
    rewrite forallb_forall in H1 |- *. intros y Hy.
    apply (leb_trans k x y E). now apply H1.
  - rewrite (IH H2), andb_true_r.
    apply forallb_forall. intros y Hy.
    apply (Permutation_in _ (insert_sorted_perm k l)) in Hy.
    destruct Hy as [<-|Hy].
    + destruct (String.leb_total k x) as [T|T]; congruence.
    + rewrite forallb_forall in H1. now apply H1.
Qed.

Lemma ascending_sorted l : ascending (sorted l) = true.
Proof.
  induction l as [|x l IH]; simpl; [reflexivity | now apply ascending_insert].
Qed.

(** X14.  For a store of the data model within the field limit and a file
    that can be written, [_save_to_csv] succeeds and the file it writes
    reads, through the CSV reader, as the header followed by one row per
    record, in ascending order of the identifiers (texts compared by
    code point). *)
Theorem saved_rows_are_sorted (w : world) :
  valid_store (employees w) = true ->
  fields_within_limit (employees w) = true ->
  writable (disk w) = true ->
  exists w' text es,
    _save_to_csv w = (w', true) /\
    content (disk w') = Some text /\
    Csv.reader text = (FIELDNAMES :: map row_of es, None) /\
    Permutation (map ID es) (Dict.keys (employees w)) /\
    (forall e, In e es <-> exists k, Dict.get (employees w) k = Some e) /\
    ascending (map ID es) = true.
Proof.
  intros V L W. destruct (reload (employees w) V L) as (R & _ & I & _).
  unfold _save_to_csv, open_write. rewrite W.
  eexists. exists (csv_text (employees w)).
  exists (records (employees w) (sorted (Dict.keys (employees w)))).
  split; [reflexivity|]. split; [reflexivity|]. split; [exact R|].
  rewrite I. split; [apply sorted_perm|]. split; [|apply ascending_sorted].
  intros e. rewrite records_in. split.
  - intros (k & _ & G). eauto.
  - intros (k & G). exists k. split; [|exact G].
    apply (Permutation_in _ (Permutation_sym (sorted_perm _))).
    now apply (get_some_In_keys _ _ e).
Qed.

Lemma saved_rows_are_sorted_witness :
  exists w' text es,
    _save_to_csv one_record = (w', true) /\
    content (disk w') = Some text /\
    Csv.reader text = (FIELDNAMES :: map row_of es, None) /\
    ascending (map ID es) = true.
Proof.
  destruct (saved_rows_are_sorted one_record) as (w' & text & es & H1 & H2 & H3 & _ & _ & H6);
    [vm_compute; reflexivity | vm_compute; reflexivity | vm_compute; reflexivity |].
  exists w', text, es. repeat split; assumption.
Defined.
(** ** Loading, on any file *)

Lemma set_shape {V} (d : Dict.t V) k v :
  (exists d1 v0 d2,
     d = (d1 ++ (k, v0) :: d2)%list /\ ~ In k (Dict.keys d1) /\
     Dict.set d k v = (d1 ++ (k, v) :: d2)%list) \/
  (~ In k (Dict.keys d) /\ Dict.set d k v = (d ++ [(k, v)])%list).
Proof.
  destruct (Dict.get d k) as [v0|] eqn:G.
  - left. destruct (get_split _ _ _ G) as (d1 & d2 & D & N & S).
    exists d1, v0, d2. auto.
  - right. assert (N : ~ In k (Dict.keys d)).
    { intros H. apply get_In_keys in H. congruence. }
    split; [exact N | now apply set_new].
Qed.

Lemma set_keyed (d : Dict.t Employee) (e : Employee) :
  ID e <> "" ->
  keyed d = true /\ Forall (fun item => fst item <> "") d ->
  keyed (Dict.set d (ID e) e) = true /\
  Forall (fun item => fst item <> "") (Dict.set d (ID e) e).
Proof.
  intros Ne [K F]. apply keyed_iff in K. destruct K as [K1 K2].
  rewrite keyed_iff.
  destruct (set_shape d (ID e) e) as [(d1 & v0 & d2 & D & N & S)|[N S]]; rewrite S.
  - subst d. unfold Dict.keys in *. rewrite map_app in K2 |- *. simpl in *.
    apply Forall_app in K1, F. destruct K1 as [K1a K1b], F as [Fa Fb].
    inversion K1b; subst. inversion Fb; subst.
    rewrite !Forall_app. repeat split; try assumption; now constructor.
  - unfold Dict.keys in *. rewrite map_app, !Forall_app. simpl.
    repeat split; try assumption; try (now repeat constructor).
    now apply NoDup_snoc.
Qed.

Lemma load_rows_keyed (rows : list Csv.row) : forall d,
  keyed d = true /\ Forall (fun item => fst item <> "") d ->
  keyed (fst (load_rows rows d)) = true /\
  Forall (fun item => fst item <> "") (fst (load_rows rows d)).
Proof.
  induction rows as [|r rows IH]; intros d K; simpl; [exact K|].
  destruct (load_row r) as [[e|]|ex] eqn:L; [| now apply IH | exact K].
  apply IH. apply set_keyed; [|exact K].
  apply load_row_loaded in L. tauto.
Qed.

(** X15.  Whatever the file holds, and whether it can be read or not,
    the mapping that [_load_from_csv] builds has every record under its
    own identifier, no identifier twice and no empty identifier. *)
Theorem loaded_store_is_keyed (f : file) :
  keyed (employees (init f)) = true /\
  Forall (fun item => fst item <> "") (employees (init f)).
Proof.
  assert (K0 : keyed [] = true /\ Forall (fun item : string * Employee => fst item <> "") [])
    by (split; [reflexivity | constructor]).
  unfold init, _load_from_csv, open_read, _create_csv_file, open_write.
  cbn [disk set_employees].
  destruct (content f) as [text|].
  - destruct (readable f); [|exact K0].
    destruct (Csv.reader text) as [rows ce].
    pose proof (load_rows_keyed (Csv.dict_rows rows) [] K0) as K.
    destruct (load_rows (Csv.dict_rows rows) []) as [d [ex|]]; [exact K|].
    destruct ce; exact K.
  - destruct (writable f); exact K0.
Qed.

(** X16.  When no row of the file fails to load, the record that the
    mapping holds for an identifier is the one of the last row that has
    this identifier: a later row replaces the record of an earlier one. *)
Theorem later_row_replaces_earlier (f : file) (text : string)
    (pre post : list Csv.row) (r : Csv.row) (e : Employee) :
  content f = Some text -> readable f = true ->
  Csv.dict_rows (fst (Csv.reader text)) = (pre ++ r :: post)%list ->
  Forall row_loads (pre ++ r :: post) ->
  load_row r = inl (Some e) ->
  Forall (fun r' => forall e', load_row r' = inl (Some e') -> ID e' <> ID e) post ->
  Dict.get (employees (init f)) (ID e) = Some e.
Proof.
  intros C R D F L P.
  unfold init, _load_from_csv, open_read. cbn [disk set_employees].
  rewrite C, R. destruct (Csv.reader text) as [rows ce]. cbn [fst] in D.
  rewrite D, (load_rows_all _ [] F).
  assert (G : Dict.get (fold_left load_step (pre ++ r :: post) []) (ID e) = Some e).
  { rewrite fold_left_app. simpl. rewrite (get_fold_load post (ID e) _ P).
    unfold load_step at 1. rewrite L. apply get_set_same. }
  destruct ce; exact G.
Qed.

Lemma later_row_replaces_earlier_witness :
  Dict.get
    (employees
       (init {| content :=
                  Some (header_text
                        ++ Csv.writerow ["E1"; "Ana"; "Engineer"; "75000.0"; "ana@x.com"]
                        ++ Csv.writerow ["E1"; "Bob"; "Clerk"; "10"; "bob@x.com"]);
                readable := true; writable := true |}))
    "E1"
  = Some {| ID := "E1"; Name := Some "Bob"; Position := Some "Clerk";
            Salary := S754_finite false 5629499534213120 (-49);
            Email := Some "bob@x.com" |}.
Proof.
  apply (later_row_replaces_earlier
           {| content :=
                Some (header_text
                      ++ Csv.writerow ["E1"; "Ana"; "Engineer"; "75000.0"; "ana@x.com"]
                      ++ Csv.writerow ["E1"; "Bob"; "Clerk"; "10"; "bob@x.com"]);
              readable := true; writable := true |}
           (header_text
            ++ Csv.writerow ["E1"; "Ana"; "Engineer"; "75000.0"; "ana@x.com"]
            ++ Csv.writerow ["E1"; "Bob"; "Clerk"; "10"; "bob@x.com"])
           [Csv.zip_row FIELDNAMES ["E1"; "Ana"; "Engineer"; "75000.0"; "ana@x.com"]]
           []
           (Csv.zip_row FIELDNAMES ["E1"; "Bob"; "Clerk"; "10"; "bob@x.com"])
           {| ID := "E1"; Name := Some "Bob"; Position := Some "Clerk";
              Salary := S754_finite false 5629499534213120 (-49);
              Email := Some "bob@x.com" |}
           eq_refl eq_refl).
  - vm_compute. reflexivity.
  - repeat constructor; eexists; vm_compute; reflexivity.
  - vm_compute. reflexivity.
  - constructor.
Defined.

(** X17.  When there is no file and one can be created, the first start
    creates a file that holds the header alone and leaves the mapping
    empty; a second start from that file, if it can be read, finds the
    same: an empty mapping, the file as it is, and nothing to report. *)
Theorem created_file_loads_empty (f : file) :
  content f = None -> writable f = true -> readable f = true ->
  employees (init f) = [] /\
  content (disk (init f)) = Some header_text /\
  init (disk (init f)) = init f.
Proof.
  intros C W R. destruct f as [c r wr]. simpl in C, W, R. subst.
  vm_compute. repeat split.
Qed.

Lemma created_file_loads_empty_witness :
  init (disk (init empty_disk)) = init empty_disk.
Proof.
  apply (created_file_loads_empty empty_disk); reflexivity.
Defined.
(** ** The table of the employees *)

Lemma print_all_cons line lines w :
  print_all (line :: lines) w = print_all lines (emit w (Print line)).
Proof. reflexivity. Qed.

Lemma print_all_app lines lines' w :
  print_all (lines ++ lines') w = print_all lines' (print_all lines w).
Proof. unfold print_all. apply fold_left_app. Qed.

Lemma print_all_store lines : forall w,
  employees (print_all lines w) = employees w /\
  disk (print_all lines w) = disk w /\
  output (print_all lines w) = (output w ++ map Print lines)%list.
Proof.
  induction lines as [|line lines IH]; intros w.
  - simpl. now rewrite app_nil_r.
  - rewrite print_all_cons. destruct (IH (emit w (Print line))) as (E & D & O).
    rewrite E, D, O. simpl. now rewrite <- app_assoc.
Qed.

Lemma same_store_print_all w lines : same_store w (print_all lines w).
Proof. destruct (print_all_store lines w) as (E & D & _). now split. Qed.

Lemma view_row_complete e :
  complete e = true -> exists line, view_row e = inl line.
Proof.
  unfold complete, view_row.
  destruct (Name e), (Position e), (Email e); try discriminate.
  intros _. simpl. eauto.
Qed.

Lemma view_row_incomplete e : complete e = false -> view_row e = inr TypeError.
Proof.
  unfold complete, view_row.
  destruct (Name e), (Position e), (Email e); try discriminate; reflexivity.
Qed.

Lemma view_rows_complete es : forall w,
  Forall (fun e => complete e = true) es ->
  exists lines,
    Forall2 (fun e line => view_row e = inl line) es lines /\
    view_rows es w = inl (print_all lines w).
Proof.
  induction es as [|e es IH]; intros w F.
  - exists []. split; [constructor | reflexivity].
  - inversion F as [|? ? C F']; subst.
    destruct (view_row_complete e C) as (line & L).
    destruct (IH (emit w (Print line)) F') as (lines & F2 & V).
    exists (line :: lines). split; [now constructor|].
    simpl. now rewrite L, V.
Qed.

Lemma view_rows_incomplete pre e post : forall w,
  Forall (fun e => complete e = true) pre -> complete e = false ->
  exists lines,
    Forall2 (fun e line => view_row e = inl line) pre lines /\
    view_rows (pre ++ e :: post) w = inr (TypeError, print_all lines w).
Proof.
  induction pre as [|x pre IH]; intros w F C.
  - exists []. split; [constructor|]. simpl. now rewrite (view_row_incomplete e C).
  - inversion F as [|? ? Cx F']; subst.
    destruct (view_row_complete x Cx) as (line & L).
    destruct (IH (emit w (Print line)) F' C) as (lines & F2 & V).
    exists (line :: lines). split; [now constructor|].
    simpl. now rewrite L, V.
Qed.

Lemma view_rows_store es : forall w,
  match view_rows es w with
  | inl w' => same_store w w'
  | inr (_, w') => same_store w w'
  end.
Proof.
  induction es as [|e es IH]; intros w; simpl; [apply same_store_refl|].
  destruct (view_row e) as [line|ex]; [|apply same_store_refl].
  specialize (IH (emit w (Print line))).
  destruct (view_rows es _) as [w'|[ex w']]; exact IH.
Qed.

Lemma view_cases (w : world) (inp : list string) :
  match view_all_employees w inp with
  | Ends (Done _ w' rest) => same_store w w' /\ List.length rest < List.length inp
  | Ends (EOFError w') => same_store w w'
  | Raises _ w' => same_store w w'
  end.
Proof.
  unfold view_all_employees.
  destruct (Dict.is_empty (employees w)).
  { unfold bind, print, input, ret. destruct inp as [|enter rest].
    - now split.
    - split; [now split | simpl; lia]. }
  pose proof (view_rows_store (Dict.values (employees w)) (emit w (Print view_header)))
    as S.
  destruct (view_rows _ _) as [w'|[ex w']]; [|exact S].
  unfold bind, print, input, ret. destruct inp as [|enter rest].
  - exact S.
  - split; [exact S | simpl; lia].
Qed.

(** X18.  When every record has its name, its position and its email,
    [view_all_employees] prints the heading, one line for each record in
    the order of the mapping, and the number of records, then waits for
    Enter; on an empty store it prints that no employees were found.  It
    changes neither the mapping nor the file. *)
Theorem view_all_lists_every_record (w : world) (enter : string)
    (rest : list string) :
  Forall (fun e => complete e = true) (Dict.values (employees w)) ->
  exists lines,
    Forall2 (fun e line => view_row e = inl line) (Dict.values (employees w)) lines /\
    view_all_employees w (enter :: rest)
    = Ends (Done tt
              (print_all
                 (if Dict.is_empty (employees w)
                  then [no_employees_found; add_some_first]
                  else view_header :: lines ++ [total_employees (employees w)])%list
                 w)
              rest) /\
    employees (print_all (view_header :: lines ++ [total_employees (employees w)]) w)
    = employees w /\
    disk (print_all (view_header :: lines ++ [total_employees (employees w)]) w)
    = disk w.
Proof.
  intros F.
  destruct (view_rows_complete _ (emit w (Print view_header)) F) as (lines & F2 & V).
  exists lines. split; [exact F2|]. split.
  - unfold view_all_employees. destruct (Dict.is_empty (employees w)); [reflexivity|].
    rewrite V. unfold bind, print, input, ret.
    now rewrite print_all_cons, print_all_app.
  - destruct (print_all_store
                (view_header :: lines ++ [total_employees (employees w)]) w)
      as (E & D & _).
    now split.
Qed.

Lemma view_all_lists_every_record_witness :
  exists lines w',
    Forall2 (fun e line => view_row e = inl line) [ana] lines /\
    view_all_employees one_record [""] = Ends (Done tt w' []).
Proof.
  destruct (view_all_lists_every_record one_record "" []) as (lines & F & H & _).
  - vm_compute. repeat constructor.
  - exists lines. eexists. split; [exact F | exact H].
Defined.

(** X19.  Whatever is typed and however it ends, [view_all_employees]
    changes neither the mapping nor the file. *)
Theorem view_all_is_read_only (w : world) (inp : list string) :
  match view_all_employees w inp with
  | Ends o => employees (world_of o) = employees w /\ disk (world_of o) = disk w
  | Raises _ w' => employees w' = employees w /\ disk w' = disk w
  end.
Proof.
  pose proof (view_cases w inp) as H.
  destruct (view_all_employees w inp) as [[[] w' rest|w']|ex w']; simpl;
    unfold same_store in H; tauto.
Qed.
(** ** The menu *)

Lemma view_rows_raises es : forall w ex w',
  view_rows es w = inr (ex, w') ->
  ex = TypeError /\ ~ Forall (fun e => complete e = true) es.
Proof.
  induction es as [|e es IH]; intros w ex w'; simpl; [discriminate|].
  destruct (view_row e) as [line|ex0] eqn:V.
  - intros H. destruct (IH _ _ _ H) as [E N]. split; [exact E|].
    intros F. inversion F; subst. contradiction.
  - intros H. injection H as <- <-.
    assert (C : complete e = false).
    { destruct (complete e) eqn:C; [|reflexivity].
      destruct (view_row_complete e C) as (line & L). congruence. }
    split.
    + rewrite (view_row_incomplete e C) in V. congruence.
    + intros F. inversion F; subst. congruence.
Qed.

Lemma run_loop_turn fuel w inp :
  run_loop (S fuel) w inp
  = match inp with
    | [] => EndOfInput (print_all menu w)
    | line :: rest => turn (run_loop fuel) (print_all menu w) line rest
    end.
Proof. reflexivity. Qed.

Lemma values_nonempty (d : Dict.t Employee) pre e post :
  Dict.values d = (pre ++ e :: post)%list -> Dict.is_empty d = false.
Proof. destruct d; [destruct pre; discriminate | reflexivity]. Qed.

Lemma view_rows_upto pre e post lines :
  Forall2 (fun x line => view_row x = inl line) pre lines ->
  complete e = false ->
  forall w, view_rows (pre ++ e :: post) w = inr (TypeError, print_all lines w).
Proof.
  intros F2 C. induction F2 as [|x line pre lines L _ IH]; intros w.
  - simpl. now rewrite (view_row_incomplete e C).
  - simpl. rewrite L. apply IH.
Qed.

(** X20.  When a record lacks its name, its position or its email (as a
    record does that was loaded from a row that ends before the email),
    [view_all_employees] prints the heading and the lines of the records
    before it and raises a [TypeError], which nothing catches: the choice
    2 of the menu ends the program there. *)
Theorem view_all_raises_without_a_text (w : world) (inp : list string)
    (pre post : list Employee) (e : Employee) :
  Dict.values (employees w) = (pre ++ e :: post)%list ->
  Forall (fun x => complete x = true) pre -> complete e = false ->
  exists lines,
    Forall2 (fun x line => view_row x = inl line) pre lines /\
    view_all_employees w inp = Raises TypeError (print_all (view_header :: lines) w) /\
    forall choice,
      Str.strip choice = "2" ->
      run w (choice :: inp)
      = Uncaught TypeError (print_all (view_header :: lines) (print_all menu w)).
Proof.
  intros V F C.
  assert (R : exists lines,
            Forall2 (fun x line => view_row x = inl line) pre lines /\
            forall w0, Dict.values (employees w0) = (pre ++ e :: post)%list ->
              view_all_employees w0 inp
              = Raises TypeError (print_all (view_header :: lines) w0)).
  { destruct (view_rows_incomplete pre e post w F C) as (lines & F2 & _).
    exists lines. split; [exact F2|]. intros w0 V0.
    unfold view_all_employees. rewrite (values_nonempty _ _ _ _ V0), V0.
    rewrite (view_rows_upto pre e post lines F2 C). reflexivity. }
  destruct R as (lines & F2 & R). exists lines.
  split; [exact F2|]. split; [now apply R|].
  intros choice S. unfold run. rewrite run_loop_turn. unfold turn. rewrite S.
  change (String.eqb "2" "1") with false. change (String.eqb "2" "2") with true.
  cbv iota. rewrite R; [reflexivity|].
  destruct (print_all_store menu w) as (E & _). now rewrite E.
Qed.

Lemma view_all_raises_without_a_text_witness :
  exists w',
    run (init {| content :=
                   Some (header_text
                         ++ Csv.writerow ["E1"; "Ana"; "Engineer"; "75000.0"]);
                 readable := true; writable := true |})
        [" 2"; ""; "6"]
    = Uncaught TypeError w'.
Proof.
  destruct (view_all_raises_without_a_text
              (init {| content :=
                         Some (header_text
                               ++ Csv.writerow ["E1"; "Ana"; "Engineer"; "75000.0"]);
                       readable := true; writable := true |})
              [""; "6"] [] []
              {| ID := "E1"; Name := Some "Ana"; Position := Some "Engineer";
                 Salary := S754_finite false 5153960755200000 (-36);
                 Email := None |})
    as (lines & _ & _ & H).
  - vm_compute. reflexivity.
  - constructor.
  - reflexivity.
  - eexists. apply (H " 2"). vm_compute. reflexivity.
Defined.

(** What a turn does, whatever follows it. *)
Lemma turn_cases (w : world) (line : string) (rest : list string) :
  (exists w' rest',
     List.length rest' < List.length rest /\ changed w w' /\
     forall k, turn k w line rest = k w' rest') \/
  (exists w', changed w w' /\ forall k, turn k w line rest = EndOfInput w') \/
  (exists w',
     same_store w w' /\
     ~ Forall (fun e => complete e = true) (Dict.values (employees w)) /\
     forall k, turn k w line rest = Uncaught TypeError w') \/
  (forall k, turn k w line rest = Exit (print_all goodbye w)).
Proof.
  unfold turn, changed.
  destruct (String.eqb (Str.strip line) "1").
  { pose proof (add_cases w rest) as H.
    destruct (add_employee w rest) as [[] w' rest'|w'].
    - left. exists w', rest'. intuition.
    - right. left. exists w'. intuition. }
  destruct (String.eqb (Str.strip line) "2").
  { pose proof (view_cases w rest) as H. unfold view_all_employees in *.
    destruct (Dict.is_empty (employees w)).
    - destruct ((print no_employees_found;;; print add_some_first;;; input;;; ret tt)
                  w rest) as [[] w' rest'|w'].
      + left. exists w', rest'. intuition.
      + right. left. exists w'. intuition.
    - destruct (view_rows _ _) as [w1|[ex w1]] eqn:V.
      + destruct ((print (total_employees (employees w));;; input;;; ret tt) w1 rest)
          as [[] w' rest'|w'].
        * left. exists w', rest'. intuition.
        * right. left. exists w'. intuition.
      + right. right. left. exists w1.
        destruct (view_rows_raises _ _ _ _ V) as [-> N]. intuition. }
  destruct (String.eqb (Str.strip line) "3").
  { pose proof (update_cases w rest) as H.
    destruct (update_employee w rest) as [[] w' rest'|w'].
    - left. exists w', rest'. intuition.
    - right. left. exists w'. intuition. }
  destruct (String.eqb (Str.strip line) "4").
  { pose proof (delete_cases w rest) as H.
    destruct (delete_employee w rest) as [[] w' rest'|w'].
    - left. exists w', rest'. intuition.
    - right. left. exists w'. intuition. }
  destruct (String.eqb (Str.strip line) "5").
  { pose proof (search_cases w rest) as H.
    destruct (search_employee w rest) as [[] w' rest'|w'].
    - left. exists w', rest'. intuition.
    - right. left. exists w'. intuition. }
  destruct (String.eqb (Str.strip line) "6").
  { right. right. right. reflexivity. }
  unfold bind, print, input, ret. destruct rest as [|enter rest'].
  - right. left. eexists. split; [|reflexivity]. left. now split.
  - left. eexists. exists rest'. split; [simpl; lia|].
    split; [|reflexivity]. left. now split.
Qed.

Lemma run_loop_enough (fuel : nat) : forall w inp,
  List.length inp < fuel ->
  (forall fuel', List.length inp < fuel' -> run_loop fuel' w inp = run_loop fuel w inp) /\
  (forall a b, run_loop fuel w inp <> Unfinished a b).
Proof.
  induction fuel as [|fuel IH]; intros w inp L; [lia|].
  rewrite run_loop_turn. destruct inp as [|line rest].
  - split; [|discriminate]. intros [|fuel'] L'; [simpl in L'; lia | reflexivity].
  - simpl in L.
    assert (E : forall fuel', List.length (line :: rest) < fuel' ->
                run_loop fuel' w (line :: rest)
                = turn (run_loop (Nat.pred fuel')) (print_all menu w) line rest).
    { intros [|fuel'] L'; [simpl in L'; lia | reflexivity]. }
    destruct (turn_cases (print_all menu w) line rest)
      as [(w' & rest' & Lr & _ & T)|[(w' & _ & T)|[(w' & _ & _ & T)|T]]].
    + destruct (IH w' rest' ltac:(lia)) as [I1 I2]. split.
      * intros fuel' L'. rewrite (E fuel' L'), !T. apply I1. simpl in L'. lia.
      * rewrite T. exact I2.
    + split; [|rewrite T; discriminate].
      intros fuel' L'. now rewrite (E fuel' L'), !T.
    + split; [|rewrite T; discriminate].
      intros fuel' L'. now rewrite (E fuel' L'), !T.
    + split; [|rewrite T; discriminate].
      intros fuel' L'. now rewrite (E fuel' L'), !T.
Qed.

(** X21.  [run] reads a line at every turn: on a finite input it ends,
    by the choice 6, at the end of the input or by an exception, and
    more turns than the input has lines change nothing. *)
Theorem run_always_ends (w : world) (inp : list string) :
  (forall a b, run w inp <> Unfinished a b) /\
  (forall fuel, List.length inp < fuel -> run_loop fuel w inp = run w inp).
Proof.
  unfold run.
  destruct (run_loop_enough (S (List.length inp)) w inp ltac:(lia)) as [H1 H2].
  split; [exact H2 | exact H1].
Qed.

Lemma run_always_ends_witness :
  run_loop 100 one_record ["5"; "E1"; ""; "6"; "1"]
  = run one_record ["5"; "E1"; ""; "6"; "1"].
Proof.
  destruct (run_always_ends one_record ["5"; "E1"; ""; "6"; "1"]) as [_ H].
  apply H. simpl. lia.
Defined.

Lemma kept_complete (d : Dict.t Employee) :
  kept_store d = true -> Forall (fun e => complete e = true) (Dict.values d).
Proof.
  intros K. apply kept_store_iff in K. destruct K as (_ & K & _).
  unfold Dict.values. apply Forall_forall. intros e Hin.
  apply in_map_iff in Hin. destruct Hin as (item & <- & Hin).
  rewrite Forall_forall in K. specialize (K item Hin).
  unfold kept_record in K. rewrite !andb_true_iff in K.
  destruct K as ((((_ & Kn) & Kp) & _) & Km).
  unfold complete. destruct (Name (snd item)), (Position (snd item)),
    (Email (snd item)); simpl in *; congruence.
Qed.

Lemma changed_keeps (w w' : world) :
  changed w w' -> kept_store (employees w) = true ->
  kept_store (employees w') = true.
Proof.
  intros [[E _]|[H|[H|H]]] K.
  - now rewrite E.
  - now apply (add_keeps w).
  - now apply (update_keeps w).
  - now apply (delete_keeps w).
Qed.

Lemma run_loop_kept (fuel : nat) : forall w inp,
  kept_store (employees w) = true ->
  match run_loop fuel w inp with
  | Exit w' | EndOfInput w' | Unfinished w' _ => kept_store (employees w') = true
  | Uncaught _ _ => False
  end.
Proof.
  induction fuel as [|fuel IH]; intros w inp K; [exact K|].
  rewrite run_loop_turn.
  destruct (print_all_store menu w) as (Em & _).
  destruct inp as [|line rest]; [now rewrite Em|].
  assert (Km : kept_store (employees (print_all menu w)) = true) by now rewrite Em.
  destruct (turn_cases (print_all menu w) line rest)
    as [(w' & rest' & _ & C & T)|[(w' & C & T)|[(w' & _ & N & T)|T]]];
    rewrite T.
  - apply IH. now apply (changed_keeps _ _ C).
  - now apply (changed_keeps _ _ C).
  - apply N. now apply kept_complete.
  - destruct (print_all_store goodbye (print_all menu w)) as (Eg & _).
    now rewrite Eg.
Qed.

(** X22.  Started on a store that satisfies the invariant, [run] never
    raises the [TypeError] of the table and ends, by the choice 6 or at
    the end of the input, on a store that satisfies the invariant,
    whatever is typed. *)
Theorem run_keeps_the_invariant (w : world) (inp : list string) :
  kept_store (employees w) = true ->
  exists w',
    (run w inp = Exit w' \/ run w inp = EndOfInput w') /\
    kept_store (employees w') = true.
Proof.
  intros K. pose proof (run_loop_kept (S (List.length inp)) w inp K) as H.
  destruct (run_loop_enough (S (List.length inp)) w inp ltac:(lia)) as [_ U].
  unfold run. destruct (run_loop _ w inp) as [w'|w'|ex w'|w' rest'].
  - exists w'. auto.
  - exists w'. auto.
  - contradiction.
  - exfalso. now apply (U w' rest').
Qed.

Lemma run_keeps_the_invariant_witness :
  exists w',
    (run one_record ["2"; ""; "4"; "E1"; "yes"; ""; "2"; ""; "6"] = Exit w' \/
     run one_record ["2"; ""; "4"; "E1"; "yes"; ""; "2"; ""; "6"] = EndOfInput w') /\
    kept_store (employees w') = true.
Proof.
  apply (run_keeps_the_invariant one_record
           ["2"; ""; "4"; "E1"; "yes"; ""; "2"; ""; "6"]).
  vm_compute. reflexivity.
Defined.

(** X23.  Started when there is no file, the program begins with an empty
    mapping, and whatever is typed it ends by the choice 6 or at the end
    of the input, never by a [TypeError], on a store in which every
    record is under its own identifier, no identifier and no email is
    there twice, and every field passed its validator. *)
Theorem main_without_a_file (f : file) (inp : list string) :
  content f = None ->
  employees (init f) = [] /\
  exists w',
    (main f inp = Exit w' \/ main f inp = EndOfInput w') /\
    kept_store (employees w') = true.
Proof.
  intros C.
  assert (E : employees (init f) = []).
  { unfold init, _load_from_csv, open_read, _create_csv_file, open_write.
    cbn [disk set_employees]. rewrite C. now destruct (writable f). }
  split; [exact E|].
  assert (K : kept_store (employees (init f)) = true) by now rewrite E.
  pose proof (run_loop_kept (S (List.length inp)) (init f) inp K) as H.
  destruct (run_loop_enough (S (List.length inp)) (init f) inp ltac:(lia)) as [_ U].
  unfold main, run. destruct (run_loop _ (init f) inp) as [w'|w'|ex w'|w' rest'].
  - exists w'. auto.
  - exists w'. auto.
  - contradiction.
  - exfalso. now apply (U w' rest').
Qed.

Lemma main_without_a_file_witness :
  exists w',
    (main empty_disk ["1"; "E1"; "Ana"; "Engineer"; "0"; "nan"; "a@b.com"; ""; "2"; ""]
     = Exit w' \/
     main empty_disk ["1"; "E1"; "Ana"; "Engineer"; "0"; "nan"; "a@b.com"; ""; "2"; ""]
     = EndOfInput w') /\
    kept_store (employees w') = true.
Proof.
  destruct (main_without_a_file empty_disk
              ["1"; "E1"; "Ana"; "Engineer"; "0"; "nan"; "a@b.com"; ""; "2"; ""]
              eq_refl) as [_ H].
  exact H.
Defined.
